(** * fast_float: the ASCII number scanner ([ascii_number.h])

    A shallow embedding of [include/fast_float/ascii_number.h]: the canonical
    8-byte word load ([read_u64]), the two SWAR digit primitives
    ([is_made_of_eight_digits_fast], [parse_eight_digits_unrolled]) and the
    number-string scanner ([parse_number_string]), followed by the properties
    the specification states about them.

    Conventions.
    - A [uint64_t] is a [Z] in [0, 2^64); every operation that can leave that
      range is followed by [u64] (reduction modulo 2^64).  [int64_t] values
      (digit counts, exponents) are plain [Z]: they are bounded by the input
      length and by the clamp on the explicit exponent, so they never
      overflow.
    - The input range [[p, pend)] is a [list byte]; a pointer into it is its
      offset from the initial [p] (a [nat]), [pend] is the length of the list
      and [nullptr] is [None].
    - What the header leaves to the implementation, to the build or to the
      call site (the signedness of plain [char], the macros for the host
      byte order and for a leading plus, whether the call is being
      constant-evaluated) is a [config] that every function takes. *)

From Stdlib Require Import Strings.Byte Strings.String.
From Stdlib Require Import ZArith List Bool Lia.
Import ListNotations.
Local Open Scope Z_scope.

(** ** Implementation-defined and build-time parameters *)

(** [char_is_signed]: whether plain [char] is a signed type.
    [FASTFLOAT_IS_BIG_ENDIAN], [FASTFLOAT_ALLOWS_LEADING_PLUS]: the macros of
    [float_common.h] (which is not part of the sources at hand).
    [cpp20_and_in_constexpr]: what the function of that name returns, that is
    whether the call is being constant-evaluated. *)
Record config := {
  char_is_signed : bool;
  FASTFLOAT_IS_BIG_ENDIAN : bool;
  FASTFLOAT_ALLOWS_LEADING_PLUS : bool;
  cpp20_and_in_constexpr : bool
}.

(** ** Machine integers and characters *)

Definition u64 (x : Z) : Z := x mod 2 ^ 64.
Definition u32 (x : Z) : Z := x mod 2 ^ 32.
Definition u8 (x : Z) : Z := x mod 2 ^ 8.

(** The value of a byte of memory, in [0, 256). *)
Definition byte_val (b : byte) : Z := Z.of_N (Byte.to_N b).

(** The value of a [char] object holding byte [b], after integral promotion
    to [int]. *)
Definition char_to_int (cfg : config) (b : byte) : Z :=
  if char_is_signed cfg && (128 <=? byte_val b)
  then byte_val b - 256
  else byte_val b.

(** [*p] for a pointer [p] into the input; the scanner only dereferences
    offsets below [pend], except for its very first read, which relies on the
    caller's precondition [p != pend].  The model yields the NUL byte outside
    the range. *)
Definition deref (s : list byte) (p : nat) : byte := nth p s x00.

(** [is_integer], lines 15-17. *)
Definition is_integer (cfg : config) (c : byte) : bool :=
  (char_to_int cfg "0" <=? char_to_int cfg c) &&
  (char_to_int cfg c <=? char_to_int cfg "9").

(** ** Canonical word I/O *)

(** [byteswap], lines 19-28. *)
Definition byteswap (val : Z) : Z :=
  Z.lor (Z.lor (Z.lor (Z.lor (Z.lor (Z.lor (Z.lor
    (Z.shiftr (Z.land val 0xFF00000000000000) 56)
    (Z.shiftr (Z.land val 0x00FF000000000000) 40))
    (Z.shiftr (Z.land val 0x0000FF0000000000) 24))
    (Z.shiftr (Z.land val 0x000000FF00000000) 8))
    (u64 (Z.shiftl (Z.land val 0x00000000FF000000) 8)))
    (u64 (Z.shiftl (Z.land val 0x0000000000FF0000) 24)))
    (u64 (Z.shiftl (Z.land val 0x000000000000FF00) 40)))
    (u64 (Z.shiftl (Z.land val 0x00000000000000FF) 56)).

(** The loop of the constant-evaluated path of [read_u64], lines 34-37:
    [n] iterations remain, [i] is the loop counter. *)
Fixpoint read_u64_loop (cfg : config) (n : nat) (i : Z) (chars : list byte)
    (val : Z) : Z :=
  match n with
  | O => val
  | S n' =>
      let val := Z.lor val (u64 (Z.shiftl (u64 (char_to_int cfg (deref chars 0))) (i * 8))) in
      read_u64_loop cfg n' (i + 1) (tl chars) val
  end.

(** [::memcpy(&val, chars, sizeof(uint64_t))]: the [uint64_t] whose object
    representation is the eight bytes at [chars], in the host's byte order. *)
Definition memcpy_u64 (cfg : config) (chars : list byte) : Z :=
  let bs := map (fun k => byte_val (deref chars k)) (seq 0 8) in
  if FASTFLOAT_IS_BIG_ENDIAN cfg
  then fold_left (fun acc b => acc * 256 + b) bs 0
  else fold_right (fun b acc => b + 256 * acc) 0 bs.

(** The two paths of [read_u64], lines 30-47, and the function itself. *)
Definition read_u64_constexpr (cfg : config) (chars : list byte) : Z :=
  read_u64_loop cfg 8 0 chars 0.

Definition read_u64_runtime (cfg : config) (chars : list byte) : Z :=
  let val := memcpy_u64 cfg chars in
  if FASTFLOAT_IS_BIG_ENDIAN cfg then byteswap val else val.

Definition read_u64 (cfg : config) (chars : list byte) : Z :=
  if cpp20_and_in_constexpr cfg
  then read_u64_constexpr cfg chars
  else read_u64_runtime cfg chars.

(** ** SWAR digit primitives *)

(** [parse_eight_digits_unrolled(uint64_t)], lines 67-76. *)
Definition parse_eight_digits_unrolled (val : Z) : Z :=
  let mask := 0x000000FF000000FF in
  let mul1 := 0x000F424000000064 in
  let mul2 := 0x0000271000000001 in
  let val := u64 (val - 0x3030303030303030) in
  let val := u64 (u64 (val * 10) + Z.shiftr val 8) in
  let val :=
    Z.shiftr (u64 (u64 (Z.land val mask * mul1) +
                   u64 (Z.land (Z.shiftr val 16) mask * mul2))) 32 in
  u32 val.

(** [is_made_of_eight_digits_fast(uint64_t)], lines 84-87. *)
Definition is_made_of_eight_digits_fast (val : Z) : bool :=
  Z.land (Z.lor (u64 (val + 0x4646464646464646))
                (u64 (val - 0x3030303030303030)))
         0x8080808080808080 =? 0.

(** ** The result structure and the options *)

(** Modelled from the spec: [span<const char>] is declared in
    [float_common.h]; "a non-owning view (start pointer/offset, length)",
    whose default value has a null pointer and length 0. *)
Record byte_span := { ptr : option nat; len : nat }.

Definition empty_span : byte_span := {| ptr := None; len := 0 |}.

(** [struct parsed_number_string], lines 96-107. *)
Record parsed_number_string := {
  exponent : Z;
  mantissa : Z;
  lastmatch : option nat;
  negative : bool;
  valid : bool;
  is_64bit_int : bool;
  too_many_digits : bool;
  integer : byte_span;
  fraction : byte_span
}.

(** Modelled from the spec: [chars_format] is declared in [float_common.h];
    "bit flags: allow-fixed-notation, allow-scientific-notation,
    independently combinable".  [fmt & chars_format::scientific] is
    [scientific fmt], [fmt & chars_format::fixed] is [fixed fmt]. *)
Record chars_format := { scientific : bool; fixed : bool }.

(** Modelled from the spec: [parse_rules] is declared in [float_common.h];
    "enumerated: standard | strict-interchange". *)
Inductive parse_rules := std_rules | json_rules.

Definition is_json_rules (r : parse_rules) : bool :=
  match r with json_rules => true | std_rules => false end.

(** Modelled from the spec: [parse_options] is declared in [float_common.h];
    the four members that [parse_number_string] reads. *)
Record parse_options := {
  format : chars_format;
  rules : parse_rules;
  parse_ints : bool;
  decimal_point : byte
}.

(** ** The number-string scanner *)

(** [parsed_number_string answer;] with the member initialisers of lines
    97-106. *)
Definition default_answer : parsed_number_string :=
  {| exponent := 0; mantissa := 0; lastmatch := None; negative := false;
     valid := false; is_64bit_int := false; too_many_digits := false;
     integer := empty_span; fraction := empty_span |}.

Definition set_negative (a : parsed_number_string) (b : bool) :=
  {| exponent := exponent a; mantissa := mantissa a; lastmatch := lastmatch a;
     negative := b; valid := valid a; is_64bit_int := is_64bit_int a;
     too_many_digits := too_many_digits a; integer := integer a;
     fraction := fraction a |}.

Definition set_integer (a : parsed_number_string) (sp : byte_span) :=
  {| exponent := exponent a; mantissa := mantissa a; lastmatch := lastmatch a;
     negative := negative a; valid := valid a; is_64bit_int := is_64bit_int a;
     too_many_digits := too_many_digits a; integer := sp;
     fraction := fraction a |}.

Definition set_fraction (a : parsed_number_string) (sp : byte_span) :=
  {| exponent := exponent a; mantissa := mantissa a; lastmatch := lastmatch a;
     negative := negative a; valid := valid a; is_64bit_int := is_64bit_int a;
     too_many_digits := too_many_digits a; integer := integer a;
     fraction := sp |}.

(** Lines 211-213: [lastmatch], [valid] and [is_64bit_int] are set together. *)
Definition set_matched (a : parsed_number_string) (p : nat) (is_int : bool) :=
  {| exponent := exponent a; mantissa := mantissa a; lastmatch := Some p;
     negative := negative a; valid := true; is_64bit_int := is_int;
     too_many_digits := too_many_digits a; integer := integer a;
     fraction := fraction a |}.

(** Lines 234-238: [too_many_digits] is assigned, and [is_64bit_int] is
    cleared when it is set. *)
Definition set_too_many_digits (a : parsed_number_string) (b : bool) :=
  {| exponent := exponent a; mantissa := mantissa a; lastmatch := lastmatch a;
     negative := negative a; valid := valid a;
     is_64bit_int := if b then false else is_64bit_int a;
     too_many_digits := b; integer := integer a; fraction := fraction a |}.

(** Lines 264-265. *)
Definition set_value (a : parsed_number_string) (e m : Z) :=
  {| exponent := e; mantissa := m; lastmatch := lastmatch a;
     negative := negative a; valid := valid a; is_64bit_int := is_64bit_int a;
     too_many_digits := too_many_digits a; integer := integer a;
     fraction := fraction a |}.

(** The bytes a span views. *)
Definition span_bytes (s : list byte) (sp : byte_span) : list byte :=
  match ptr sp with
  | Some q => firstn (len sp) (skipn q s)
  | None => []
  end.

(** The loops.  Each takes the bytes from the current [p] up to the end of
    the range it walks, and returns the variables it updates. *)

(** Lines 139-145:
    [while ((p != pend) && is_integer( *p)) { i = 10 * i + uint64_t( *p - '0'); ++p; }] *)
Fixpoint integer_loop (cfg : config) (rest : list byte) (i : Z) (p : nat)
    : Z * nat :=
  match rest with
  | c :: rest' =>
      if is_integer cfg c
      then integer_loop cfg rest'
             (u64 (u64 (10 * i) + u64 (char_to_int cfg c - char_to_int cfg "0")))
             (S p)
      else (i, p)
  | [] => (i, p)
  end.

(** Lines 156-159:
    [while ((std::distance(p, pend) >= 8) && is_made_of_eight_digits_fast(p))
       { i = i * 100000000 + parse_eight_digits_unrolled(p); p += 8; }] *)
Fixpoint eight_digits_loop (cfg : config) (rest : list byte) (i : Z) (p : nat)
    {struct rest} : Z * nat :=
  match rest with
  | _ :: _ :: _ :: _ :: _ :: _ :: _ :: _ :: rest' =>
      if is_made_of_eight_digits_fast (read_u64 cfg rest)
      then eight_digits_loop cfg rest'
             (u64 (u64 (i * 100000000) +
                   parse_eight_digits_unrolled (read_u64 cfg rest)))
             (p + 8)%nat
      else (i, p)
  | _ => (i, p)
  end.

(** Lines 160-164:
    [while ((p != pend) && is_integer( *p))
       { uint8_t digit = uint8_t( *p - '0'); ++p; i = i * 10 + digit; }] *)
Fixpoint fraction_loop (cfg : config) (rest : list byte) (i : Z) (p : nat)
    : Z * nat :=
  match rest with
  | c :: rest' =>
      if is_integer cfg c
      then
        let digit := u8 (char_to_int cfg c - char_to_int cfg "0") in
        fraction_loop cfg rest' (u64 (u64 (i * 10) + digit)) (S p)
      else (i, p)
  | [] => (i, p)
  end.

(** Lines 192-198:
    [while ((p != pend) && is_integer( *p)) { uint8_t digit = uint8_t( *p - '0');
       if (exp_number < 0x10000000) { exp_number = 10 * exp_number + digit; } ++p; }] *)
Fixpoint exponent_loop (cfg : config) (rest : list byte) (exp_number : Z)
    (p : nat) : Z * nat :=
  match rest with
  | c :: rest' =>
      if is_integer cfg c
      then
        let digit := u8 (char_to_int cfg c - char_to_int cfg "0") in
        exponent_loop cfg rest'
          (if exp_number <? 0x10000000 then 10 * exp_number + digit
           else exp_number)
          (S p)
      else (exp_number, p)
  | [] => (exp_number, p)
  end.

(** Lines 226-229:
    [while ((start != pend) && ( *start == '0' || *start == decimal_point))
       { if( *start == '0') { digit_count --; } start++; }]
    Only [digit_count] is used afterwards. *)
Fixpoint leading_zeros_loop (decimal_point : byte) (rest : list byte)
    (digit_count : Z) : Z :=
  match rest with
  | c :: rest' =>
      if Byte.eqb c "0" || Byte.eqb c decimal_point
      then leading_zeros_loop decimal_point rest'
             (if Byte.eqb c "0" then digit_count - 1 else digit_count)
      else digit_count
  | [] => digit_count
  end.

Definition minimal_twenty_digit_integer : Z := 10000000000000000000.
Definition minimal_nineteen_digit_integer : Z := 1000000000000000000.

(** Lines 246-249 and 255-258, over the bytes of a span:
    [while((i < minimal_nineteen_digit_integer) && (p != int_end))
       { i = i * 10 + uint64_t( *p - '0'); ++p; }] *)
Fixpoint truncating_loop (cfg : config) (span : list byte) (i : Z) (p : nat)
    : Z * nat :=
  match span with
  | c :: span' =>
      if i <? minimal_nineteen_digit_integer
      then truncating_loop cfg span'
             (u64 (u64 (i * 10) + u64 (char_to_int cfg c - char_to_int cfg "0")))
             (S p)
      else (i, p)
  | [] => (i, p)
  end.

(** The local variables of [parse_number_string] that are live after the
    digits have been read. *)
Record locals := {
  l_answer : parsed_number_string;
  l_p : nat;
  l_i : Z;
  l_start_digits : nat;
  l_end_of_integer_part : nat;
  l_digit_count : Z;
  l_exponent : Z;
  l_exp_number : Z
}.

(** Lines 118-134: the sign.  [inl answer] is [return answer]; [inr p] is the
    pointer with which the scan goes on, [answer] holding the sign read. *)
Definition read_sign (cfg : config) (s : list byte) (options : parse_options)
    : parsed_number_string + nat :=
  let pend := length s in
  let p := 0%nat in
  let answer := set_negative default_answer (Byte.eqb (deref s p) "-") in
  if (if FASTFLOAT_ALLOWS_LEADING_PLUS cfg
      then Byte.eqb (deref s p) "-" || Byte.eqb (deref s p) "+"
      else Byte.eqb (deref s p) "-")
  then
    let p := S p in
    if (p =? pend)%nat then inl answer
    else if negb (is_integer cfg (deref s p)) &&
            (is_json_rules (rules options) ||
             negb (Byte.eqb (deref s p) (decimal_point options)))
    then inl answer
    else inr p
  else inr p.

(** Lines 118-172: the sign and the digits.  [inl answer] is
    [return answer]; otherwise the local variables as they stand at line 173,
    where [exp_number] is initialised to 0. *)
Definition read_digits (cfg : config) (s : list byte) (options : parse_options)
    : parsed_number_string + locals :=
  let pend := length s in
  let decimal_point := decimal_point options in
  match read_sign cfg s options with
  | inl answer => inl answer
  | inr p =>
      (* [answer] as lines 118-121 have left it *)
      let answer := set_negative default_answer (Byte.eqb (deref s 0) "-") in
      let start_digits := p in
      let '(i, p) := integer_loop cfg (skipn p s) 0 p in
      let end_of_integer_part := p in
      let digit_count := Z.of_nat end_of_integer_part - Z.of_nat start_digits in
      let answer :=
        set_integer answer
          {| ptr := Some start_digits; len := Z.to_nat digit_count |} in
      let exponent := 0 in
      let has_decimal_point :=
        negb (p =? pend)%nat && Byte.eqb (deref s p) decimal_point in
      let '(answer, i, p, exponent, digit_count) :=
        if has_decimal_point
        then
          let p := S p in
          let before := p in
          let '(i, p) := eight_digits_loop cfg (skipn p s) i p in
          let '(i, p) := fraction_loop cfg (skipn p s) i p in
          let exponent := Z.of_nat before - Z.of_nat p in
          let answer :=
            set_fraction answer
              {| ptr := Some before; len := (p - before)%nat |} in
          (answer, i, p, exponent, digit_count - exponent)
        else (answer, i, p, exponent, digit_count) in
      if (digit_count =? 0) ||
         (is_json_rules (rules options) && has_decimal_point &&
          (digit_count =? 1))
      then inl answer
      else
        inr {| l_answer := answer; l_p := p; l_i := i;
               l_start_digits := start_digits;
               l_end_of_integer_part := end_of_integer_part;
               l_digit_count := digit_count;
               l_exponent := exponent; l_exp_number := 0 |}
  end.

(** Lines 173-205: the explicit exponent.  [None] is [return answer];
    otherwise the new [p], [exponent] and [exp_number]. *)
Definition read_exponent (cfg : config) (s : list byte) (fmt : chars_format)
    (p : nat) (exponent : Z) : option (nat * Z * Z) :=
  let pend := length s in
  let exp_number := 0 in
  if scientific fmt && negb (p =? pend)%nat &&
     (Byte.eqb "e" (deref s p) || Byte.eqb "E" (deref s p))
  then
    let location_of_e := p in
    let p := S p in
    let '(neg_exp, p) :=
      if negb (p =? pend)%nat && Byte.eqb "-" (deref s p) then (true, S p)
      else if negb (p =? pend)%nat && Byte.eqb "+" (deref s p) then (false, S p)
      else (false, p) in
    if (p =? pend)%nat || negb (is_integer cfg (deref s p))
    then
      if negb (fixed fmt) then None
      else Some (location_of_e, exponent, exp_number)
    else
      let '(exp_number, p) := exponent_loop cfg (skipn p s) exp_number p in
      let exp_number := if neg_exp then - exp_number else exp_number in
      Some (p, exponent + exp_number, exp_number)
  else
    if scientific fmt && negb (fixed fmt) then None
    else Some (p, exponent, exp_number).

(** Lines 118-205: the sign, the digits and the explicit exponent.
    [inl answer] is [return answer]; otherwise the local variables as they
    stand at line 207. *)
Definition scan_literal (cfg : config) (s : list byte) (options : parse_options)
    : parsed_number_string + locals :=
  match read_digits cfg s options with
  | inl answer => inl answer
  | inr l =>
      match read_exponent cfg s (format options) (l_p l) (l_exponent l) with
      | None => inl (l_answer l)
      | Some (p, exponent, exp_number) =>
          inr {| l_answer := l_answer l; l_p := p; l_i := l_i l;
                 l_start_digits := l_start_digits l;
                 l_end_of_integer_part := l_end_of_integer_part l;
                 l_digit_count := l_digit_count l;
                 l_exponent := exponent; l_exp_number := exp_number |}
      end
  end.

(** The offset held by the pointer of a span.  The null pointer of an unused
    [fraction] span is only advanced by zero and subtracted from itself
    (lines 253-259); it is given offset 0. *)
Definition span_ptr (sp : byte_span) : nat :=
  match ptr sp with
  | Some q => q
  | None => 0%nat
  end.

(** Lines 242-260: the truncated mantissa and the exponent that goes with
    it, recomputed from the recorded spans. *)
Definition truncated_value (cfg : config) (s : list byte) (l : locals)
    : Z * Z :=
  let answer := l_answer l in
  let i := 0 in
  let p := span_ptr (integer answer) in
  let '(i, p) := truncating_loop cfg (span_bytes s (integer answer)) i p in
  if minimal_nineteen_digit_integer <=? i
  then (i, Z.of_nat (l_end_of_integer_part l) - Z.of_nat p + l_exp_number l)
  else
    let p := span_ptr (fraction answer) in
    let '(i, p) := truncating_loop cfg (span_bytes s (fraction answer)) i p in
    (i, Z.of_nat (span_ptr (fraction answer)) - Z.of_nat p + l_exp_number l).

(** Lines 207-266, from the variables that [scan_literal] leaves. *)
Definition finish_literal (cfg : config) (s : list byte)
    (options : parse_options) (l : locals) : parsed_number_string :=
  let start_digits := l_start_digits l in
  let digit_count := l_digit_count l in
  if is_json_rules (rules options) &&
     Byte.eqb (deref s start_digits) "0" &&
     (2 <=? digit_count) &&
     is_integer cfg (deref s (S start_digits))
  then l_answer l
  else
    let p := l_p l in
    let answer := set_matched (l_answer l) p (p =? l_end_of_integer_part l)%nat in
    let '(answer, i, exponent) :=
      if 19 <? digit_count
      then
        let digit_count :=
          leading_zeros_loop (decimal_point options) (skipn start_digits s)
            digit_count in
        let too_many :=
          if is_json_rules (rules options) && parse_ints options &&
             is_64bit_int answer
          then (20 <? digit_count) || (l_i l <? minimal_twenty_digit_integer)
          else 19 <? digit_count in
        let answer := set_too_many_digits answer too_many in
        if too_many
        then
          let (i, exponent) := truncated_value cfg s l in
          (answer, i, exponent)
        else (answer, l_i l, l_exponent l)
      else (answer, l_i l, l_exponent l) in
    set_value answer exponent i.

(** [parse_number_string], lines 111-267. *)
Definition parse_number_string (cfg : config) (s : list byte)
    (options : parse_options) : parsed_number_string :=
  match scan_literal cfg s options with
  | inl answer => answer
  | inr l => finish_literal cfg s options l
  end.

(** The usual build: signed [char], little-endian host, no leading plus, run
    time. *)
Definition default_config : config :=
  {| char_is_signed := true; FASTFLOAT_IS_BIG_ENDIAN := false;
     FASTFLOAT_ALLOWS_LEADING_PLUS := false; cpp20_and_in_constexpr := false |}.

Definition general : chars_format := {| scientific := true; fixed := true |}.
Definition fixed_only : chars_format := {| scientific := false; fixed := true |}.
Definition scientific_only : chars_format := {| scientific := true; fixed := false |}.


(** ** Notions used in the statements *)

(** *** Words and their byte lanes *)

(** Lane [k] of a word: byte [k] of its little-endian representation. *)
Definition byte_lane (val : Z) (k : nat) : Z :=
  (val / 256 ^ Z.of_nat k) mod 256.

Definition is_digit_value (b : Z) : bool := (0x30 <=? b) && (b <=? 0x39).

(** The word made of [n] lanes, all equal to [c]. *)
Fixpoint rep (n : nat) (c : Z) : Z :=
  match n with
  | O => 0
  | S n' => c + 256 * rep n' c
  end.

(** The test of [is_made_of_eight_digits_fast] on a word of [n] lanes. *)
Definition digits_test (n : nat) (v : Z) : bool :=
  Z.land (Z.lor ((v + rep n 0x46) mod 256 ^ Z.of_nat n)
                ((v - rep n 0x30) mod 256 ^ Z.of_nat n))
         (rep n 0x80) =? 0.

Fixpoint lanes_are_digits (n : nat) (v : Z) : bool :=
  match n with
  | O => true
  | S n' => is_digit_value (v mod 256) && lanes_are_digits n' (v / 256)
  end.

(** The word whose little-endian bytes are [bs]. *)
Definition le_word (bs : list Z) : Z :=
  fold_right (fun b acc => b + 256 * acc) 0 bs.

Fixpoint word_lanes (n : nat) (v : Z) : list Z :=
  match n with
  | O => []
  | S n' => v mod 256 :: word_lanes n' (v / 256)
  end.

(** The decimal value of the eight digits held in the lanes of [val], the
    digit of lane 0 (the first byte in memory) being the most significant. *)
Definition eight_digits_value (val : Z) : Z :=
  fold_right Z.add 0
    (map (fun k => (byte_lane val k - 0x30) * 10 ^ (7 - Z.of_nat k)) (seq 0 8)).

(** The word the load is meant to return: byte 0 of memory is the least
    significant byte. *)
Definition canonical_word (chars : list byte) : Z :=
  le_word (map (fun k => byte_val (deref chars k)) (seq 0 8)).

(** *** Digits and their accumulation *)

Definition is_ascii_digit (b : byte) : bool := is_digit_value (byte_val b).

Definition digit_of (c : byte) : Z := byte_val c - 0x30.

(** One step of decimal accumulation in a [uint64_t]. *)
Definition push_digit (i : Z) (c : byte) : Z := u64 (10 * i + digit_of c).

(** The accumulator after the digits [ds], starting from [i]. *)
Definition accumulate (ds : list byte) (i : Z) : Z := fold_left push_digit ds i.

(** The longest prefix of [rest] made of digits. *)
Fixpoint digit_run (rest : list byte) : list byte :=
  match rest with
  | c :: rest' => if is_ascii_digit c then c :: digit_run rest' else []
  | [] => []
  end.

(** The decimal value of the digits [ds] appended to the number [i], without
    wrap-around. *)
Definition decimal (ds : list byte) (i : Z) : Z :=
  fold_left (fun i c => 10 * i + digit_of c) ds i.

(** *** What the scanner reads *)

(** What every [return answer] before line 211 returns. *)
Definition rejected (a : parsed_number_string) : Prop :=
  valid a = false /\ lastmatch a = None /\ mantissa a = 0 /\ exponent a = 0 /\
  is_64bit_int a = false /\ too_many_digits a = false.

(** The digits that the scan reads, from the offset [p0] that follows the
    sign. *)
Definition integer_digits (s : list byte) (p0 : nat) : list byte :=
  digit_run (skipn p0 s).

Definition has_point (s : list byte) (options : parse_options) (p0 : nat)
    : bool :=
  let p1 := (p0 + length (integer_digits s p0))%nat in
  negb (p1 =? length s)%nat && Byte.eqb (deref s p1) (decimal_point options).

Definition fraction_digits (s : list byte) (options : parse_options)
    (p0 : nat) : list byte :=
  if has_point s options p0
  then digit_run (skipn (S (p0 + length (integer_digits s p0))) s)
  else [].

(** Where the scan stands once the digits are read. *)
Definition end_of_digits (s : list byte) (options : parse_options) (p0 : nat)
    : nat :=
  if has_point s options p0
  then (S (p0 + length (integer_digits s p0)) +
        length (fraction_digits s options p0))%nat
  else (p0 + length (integer_digits s p0))%nat.

(** The sign characters that the scan consumes. *)
Definition is_sign (cfg : config) (sign : list byte) : Prop :=
  sign = [] \/ sign = ["-"%byte] \/
  (FASTFLOAT_ALLOWS_LEADING_PLUS cfg = true /\ sign = ["+"%byte]).

(** The digits [ds] without their leading zeros. *)
Fixpoint strip_zeros (ds : list byte) : list byte :=
  match ds with
  | c :: ds' => if Byte.eqb c "0" then strip_zeros ds' else ds
  | [] => []
  end.

(** The explicit exponent read by the scan ([exp_number]); 0 when the scan
    stops before line 207. *)
Definition explicit_exponent (cfg : config) (s : list byte)
    (options : parse_options) : Z :=
  match scan_literal cfg s options with
  | inr l => l_exp_number l
  | inl _ => 0
  end.

(** [digit_count] as it stands after the loop of lines 226-229. *)
Definition significant_digit_count (s : list byte) (options : parse_options)
    (r : parsed_number_string) : Z :=
  leading_zeros_loop (decimal_point options) (skipn (span_ptr (integer r)) s)
    (Z.of_nat (len (integer r)) + Z.of_nat (len (fraction r))).

(** The offset at which the scan stands at line 173, once the sign and the
    digits are read and the digit count is accepted; [None] when the scan
    has returned before. *)
Definition digits_end (cfg : config) (s : list byte) (options : parse_options)
    : option nat :=
  match read_digits cfg s options with
  | inr l => Some (l_p l)
  | inl _ => None
  end.

(** Whether a digit follows an exponent marker and its optional sign, [tail]
    being the bytes after the marker. *)
Definition exponent_digit_follows (tail : list byte) : bool :=
  let after_sign :=
    match tail with
    | c :: t => if Byte.eqb "-" c then t else if Byte.eqb "+" c then t else tail
    | [] => tail
    end in
  match after_sign with
  | c :: _ => is_ascii_digit c
  | [] => false
  end.

Definition zero_or_point (dp c : byte) : bool :=
  Byte.eqb c "0" || Byte.eqb c dp.

(** *** Sample configurations and inputs *)

(** A constant-evaluated call on a host where plain [char] is signed. *)
Definition signed_char_config : config :=
  {| char_is_signed := true; FASTFLOAT_IS_BIG_ENDIAN := false;
     FASTFLOAT_ALLOWS_LEADING_PLUS := false; cpp20_and_in_constexpr := true |}.

(** The options with the default decimal point. *)
Definition options_with (fmt : chars_format) (r : parse_rules) (ints : bool)
    : parse_options :=
  {| format := fmt; rules := r; parse_ints := ints; decimal_point := "." |}.

(** 2^64 - 1, a literal of 20 digits. *)
Definition max_u64_literal : list byte :=
  list_byte_of_string "18446744073709551615".

(** A literal with 26 significant digits and an explicit exponent. *)
Definition long_fraction_literal : list byte :=
  list_byte_of_string "1.1234567890123456789012345e-12".

(** ** The other functions of the header *)

(** [uint8_t(val)] as a byte of memory. *)
Definition byte_of_val (val : Z) : byte :=
  match Byte.of_N (Z.to_N (u8 val)) with
  | Some b => b
  | None => x00
  end.

(** The loop of the constant-evaluated path of [write_u64], lines 52-56:
    [n] iterations remain and [chars] is the memory from the pointer on.
    The result is that memory after the stores (the caller provides eight
    bytes; the model stores a byte also where [chars] has none). *)
Fixpoint write_u64_loop (n : nat) (chars : list byte) (val : Z) : list byte :=
  match n with
  | O => chars
  | S n' => byte_of_val val :: write_u64_loop n' (tl chars) (Z.shiftr val 8)
  end.

(** [::memcpy(chars, &val, sizeof(uint64_t))]: the eight bytes of the object
    representation of [val], in the host's byte order, stored at [chars]. *)
Definition memcpy_from_u64 (cfg : config) (chars : list byte) (val : Z)
    : list byte :=
  let lanes :=
    map (fun k => byte_of_val (Z.shiftr val (8 * Z.of_nat k))) (seq 0 8) in
  (if FASTFLOAT_IS_BIG_ENDIAN cfg then rev lanes else lanes) ++ skipn 8 chars.

(** The two paths of [write_u64], lines 49-64, and the function itself: the
    memory from [chars] on, after the call. *)
Definition write_u64_constexpr (chars : list byte) (val : Z) : list byte :=
  write_u64_loop 8 chars val.

Definition write_u64_runtime (cfg : config) (chars : list byte) (val : Z)
    : list byte :=
  let val := if FASTFLOAT_IS_BIG_ENDIAN cfg then byteswap val else val in
  memcpy_from_u64 cfg chars val.

Definition write_u64 (cfg : config) (chars : list byte) (val : Z) : list byte :=
  if cpp20_and_in_constexpr cfg
  then write_u64_constexpr chars val
  else write_u64_runtime cfg chars val.

(** [parse_eight_digits_unrolled(const char * )], lines 78-81. *)
Definition parse_eight_digits_unrolled_chars (cfg : config)
    (chars : list byte) : Z :=
  parse_eight_digits_unrolled (read_u64 cfg chars).

(** [is_made_of_eight_digits_fast(const char * )], lines 89-92. *)
Definition is_made_of_eight_digits_fast_chars (cfg : config)
    (chars : list byte) : bool :=
  is_made_of_eight_digits_fast (read_u64 cfg chars).

(** ** Notions used in the further properties *)

(** *** Words, bytes and bits *)

(** The eight lanes of a word, lane 0 first. *)
Definition lanes_of (val : Z) : list Z :=
  map (byte_lane val) (seq 0 8).

(** Whether the [char] holding byte [c] is negative. *)
Definition negative_char (cfg : config) (c : byte) : bool :=
  char_is_signed cfg && (128 <=? byte_val c).

(** Bit [b] of the term that iteration [i] of the loop of [read_u64] ors
    into the result, for the byte [c]. *)
Definition term_bit (cfg : config) (c : byte) (i b : Z) : bool :=
  (8 * i <=? b) &&
  (Z.testbit (byte_val c) (b - 8 * i) ||
   (negative_char cfg c && (8 <=? b - 8 * i))).

(** *** What a result records *)

(** The offset at which the digits recorded in the spans of a result end. *)
Definition end_of_spans (r : parsed_number_string) : nat :=
  match ptr (fraction r) with
  | Some q => (q + len (fraction r))%nat
  | None => (span_ptr (integer r) + len (integer r))%nat
  end.

(** All the digits recorded in the spans of a result. *)
Definition recorded_digits (s : list byte) (r : parsed_number_string)
    : list byte :=
  span_bytes s (integer r) ++ span_bytes s (fraction r).

(** *** The explicit exponent *)

(** The accumulation of lines 192-198: a digit is taken in only while the
    value is below 0x10000000. *)
Definition saturating_decimal (ds : list byte) (e : Z) : Z :=
  fold_left (fun e c => if e <? 0x10000000 then 10 * e + digit_of c else e)
    ds e.

(** The explicit exponent with the sign that the bytes [sg] give it. *)
Definition signed_by (sg : list byte) (x : Z) : Z :=
  match sg with
  | c :: _ => if Byte.eqb c "-" then - x else x
  | [] => x
  end.

(** Where the digits of the exponent start when a marker stands at [p]:
    after the marker and its optional sign. *)
Definition exponent_sign (s : list byte) (p : nat) : bool * nat :=
  if negb (S p =? length s)%nat && Byte.eqb "-" (deref s (S p))
  then (true, S (S p))
  else if negb (S p =? length s)%nat && Byte.eqb "+" (deref s (S p))
  then (false, S (S p))
  else (false, S p).

(** Whether an exponent marker is read at [p], line 174. *)
Definition marker_at (s : list byte) (fmt : chars_format) (p : nat) : bool :=
  scientific fmt && negb (p =? length s)%nat &&
  (Byte.eqb "e" (deref s p) || Byte.eqb "E" (deref s p)).

(** *** The facts about a valid result *)

(** The facts that hold of a valid result [r], of the local variables [l]
    with which the scan reaches line 207 and of the offset [p0] at which the
    digits start. *)
Record scan_facts (cfg : config) (s : list byte) (options : parse_options)
    (r : parsed_number_string) (l : locals) (p0 : nat) : Prop := {
  sf_scan : scan_literal cfg s options = inr l;
  sf_result : r = finish_literal cfg s options l;
  sf_sign : read_sign cfg s options = inr p0;
  sf_p0 : (p0 <= length s)%nat;
  sf_integer :
    integer r = {| ptr := Some p0; len := length (integer_digits s p0) |};
  sf_fraction :
    fraction r =
    (if has_point s options p0
     then {| ptr := Some (S (p0 + length (integer_digits s p0)));
             len := length (fraction_digits s options p0) |}
     else empty_span);
  sf_start : l_start_digits l = p0;
  sf_end : l_end_of_integer_part l = (p0 + length (integer_digits s p0))%nat;
  sf_count :
    l_digit_count l =
    Z.of_nat (length (integer_digits s p0)) +
    Z.of_nat (length (fraction_digits s options p0));
  sf_i :
    l_i l = accumulate (integer_digits s p0 ++ fraction_digits s options p0) 0;
  sf_exp :
    read_exponent cfg s (format options) (end_of_digits s options p0)
      (- Z.of_nat (length (fraction_digits s options p0))) =
    Some (l_p l, l_exponent l, l_exp_number l);
  sf_rejected : rejected (l_answer l);
  sf_lastmatch : lastmatch r = Some (l_p l);
  sf_digits :
    recorded_digits s r = integer_digits s p0 ++ fraction_digits s options p0;
  sf_fraction_len :
    len (fraction r) = length (fraction_digits s options p0);
  sf_end_spans : end_of_spans r = end_of_digits s options p0;
  sf_explicit : explicit_exponent cfg s options = l_exp_number l
}.

(** *** Results and options compared *)

(** A span moved one byte to the right, as it is when one byte is put before
    the input. *)
Definition shift_span (sp : byte_span) : byte_span :=
  {| ptr := option_map S (ptr sp); len := len sp |}.

(** The result [r] of a scan, seen from one byte before its input, with the
    sign [b]. *)
Definition after_sign (b : bool) (r : parsed_number_string)
    : parsed_number_string :=
  {| exponent := exponent r; mantissa := mantissa r;
     lastmatch := option_map S (lastmatch r); negative := b;
     valid := valid r; is_64bit_int := is_64bit_int r;
     too_many_digits := too_many_digits r;
     integer := shift_span (integer r); fraction := shift_span (fraction r) |}.

(** The local variables of a scan, seen from one byte before its input. *)
Definition shift_locals (b : bool) (l : locals) : locals :=
  {| l_answer := after_sign b (l_answer l); l_p := S (l_p l); l_i := l_i l;
     l_start_digits := S (l_start_digits l);
     l_end_of_integer_part := S (l_end_of_integer_part l);
     l_digit_count := l_digit_count l;
     l_exponent := l_exponent l; l_exp_number := l_exp_number l |}.

(** The options [o] with another value of [rules], of [parse_ints] or of
    [format]. *)
Definition with_rules (r : parse_rules) (o : parse_options) : parse_options :=
  {| format := format o; rules := r; parse_ints := parse_ints o;
     decimal_point := decimal_point o |}.

Definition with_parse_ints (b : bool) (o : parse_options) : parse_options :=
  {| format := format o; rules := rules o; parse_ints := b;
     decimal_point := decimal_point o |}.

Definition with_format (fmt : chars_format) (o : parse_options)
    : parse_options :=
  {| format := fmt; rules := rules o; parse_ints := parse_ints o;
     decimal_point := decimal_point o |}.

(** *** A literal given by its parts *)

(** The bytes of the optional fraction of a literal: the decimal point and
    the digits after it. *)
Definition point_part (dp : byte) (point : option (list byte)) : list byte :=
  match point with
  | Some fds => dp :: fds
  | None => []
  end.

(** The digits of the optional fraction. *)
Definition digits_after_point (point : option (list byte)) : list byte :=
  match point with
  | Some fds => fds
  | None => []
  end.

(** What may follow a literal in fixed notation without being read: no
    digit, no exponent marker and, after an integer, no decimal point. *)
Definition ends_literal (dp : byte) (point : option (list byte))
    (tail : list byte) : Prop :=
  match tail with
  | c :: _ =>
      is_ascii_digit c = false /\ c <> "e"%byte /\ c <> "E"%byte /\
      (point = None -> c <> dp)
  | [] => True
  end.

(** What may follow the digits of a literal given by its parts, so that the
    parts are the digits that the scan reads: no digit and, after an integer
    with no decimal point, no decimal point. *)
Definition ends_digits (dp : byte) (point : option (list byte))
    (tail : list byte) : Prop :=
  match tail with
  | c :: _ => is_ascii_digit c = false /\ (point = None -> c <> dp)
  | [] => True
  end.

(** Whether the sign is refused at lines 128-133, for a literal given by its
    parts whose digits are followed by no sign character. *)
Definition sign_refused (sign ids : list byte) (point : option (list byte))
    (options : parse_options) : bool :=
  match sign, ids with
  | _ :: _, [] =>
      match point with
      | Some _ => is_json_rules (rules options)
      | None => true
      end
  | _, _ => false
  end.

(** Whether an exponent part that the scan reads starts with the bytes
    [tail]: the format allows scientific notation and [tail] is an exponent
    marker, an optional sign and a digit. *)
Definition exponent_part_follows (fmt : chars_format) (tail : list byte)
    : bool :=
  scientific fmt &&
  match tail with
  | c :: t => (Byte.eqb "e" c || Byte.eqb "E" c) && exponent_digit_follows t
  | [] => false
  end.

(** The result of the scan of the sign and the digits for a literal given by
    its parts: it does not depend on what follows the digits. *)
Definition digits_scanned (sign ids : list byte) (point : option (list byte))
    (options : parse_options) : parsed_number_string + locals :=
  let fds := digits_after_point point in
  let negative :=
    match sign with c :: _ => Byte.eqb c "-" | [] => false end in
  let answer :=
    set_integer (set_negative default_answer negative)
      {| ptr := Some (length sign); len := length ids |} in
  let answer :=
    match point with
    | Some _ =>
        set_fraction answer
          {| ptr := Some (S (length sign + length ids)); len := length fds |}
    | None => answer
    end in
  let digit_count := Z.of_nat (length ids) + Z.of_nat (length fds) in
  if sign_refused sign ids point options
  then inl (set_negative default_answer negative)
  else if (digit_count =? 0) ||
          (is_json_rules (rules options) &&
           match point with Some _ => true | None => false end &&
           (digit_count =? 1))
  then inl answer
  else
    inr {| l_answer := answer;
           l_p := length (sign ++ ids ++
                          point_part (decimal_point options) point);
           l_i := accumulate (ids ++ fds) 0;
           l_start_digits := length sign;
           l_end_of_integer_part := (length sign + length ids)%nat;
           l_digit_count := digit_count;
           l_exponent := - Z.of_nat (length fds); l_exp_number := 0 |}.

(** *** More sample inputs *)

(** Eight ASCII digits. *)
Definition ascii_sample : list byte := list_byte_of_string "12345678".

(** A literal with a sign, a fraction and an exponent, followed by a byte
    that is not part of it. *)
Definition signed_literal : list byte := list_byte_of_string "-12.5e3x".

(** 2^64 + 10^19, a literal of 20 digits. *)
Definition wrapping_literal : list byte :=
  list_byte_of_string "28446744073709551616".

(** What follows the literal in "-12.50 kg". *)
Definition plain_literal_tail : list byte := list_byte_of_string " kg".

(** * Lemmas *)

(** ** Bit-level facts *)

Lemma land_shiftl_mask (x m n : Z) :
  0 <= n -> Z.land x (Z.shiftl m n) = Z.shiftl (Z.land (Z.shiftr x n) m) n.
Proof.
  intros Hn. apply Z.bits_inj'. intros k Hk.
  rewrite Z.land_spec.
  destruct (Z.ltb_spec k n) as [Hlt | Hge].
  - rewrite !Z.shiftl_spec_low by lia. apply andb_false_r.
  - rewrite !Z.shiftl_spec by lia. rewrite Z.land_spec, Z.shiftr_spec by lia.
    f_equal. f_equal. lia.
Qed.

Lemma land_low_shiftl (a b n : Z) :
  0 <= n -> 0 <= a < 2 ^ n -> Z.land a (Z.shiftl b n) = 0.
Proof.
  intros Hn Ha. apply Z.bits_inj'. intros k Hk.
  rewrite Z.land_spec, Z.bits_0.
  destruct (Z.ltb_spec k n) as [Hlt | Hge].
  - rewrite Z.shiftl_spec_low by lia. apply andb_false_r.
  - replace a with (a mod 2 ^ n) by (apply Z.mod_small; lia).
    rewrite Z.mod_pow2_bits_high by lia. reflexivity.
Qed.

Lemma lor_low_shiftl (a b n : Z) :
  0 <= n -> 0 <= a < 2 ^ n -> Z.lor a (Z.shiftl b n) = a + b * 2 ^ n.
Proof.
  intros Hn Ha. rewrite <- Z.shiftl_mul_pow2 by lia.
  rewrite <- Z.lxor_lor by (apply land_low_shiftl; lia).
  symmetry. apply Z.add_nocarry_lxor. apply land_low_shiftl; lia.
Qed.

Lemma horner_mod (a b : Z) : 0 <= a < 256 -> (a + 256 * b) mod 256 = a.
Proof. intros. symmetry. apply Z.mod_unique with (q := b); lia. Qed.

Lemma horner_div (a b : Z) : 0 <= a < 256 -> (a + 256 * b) / 256 = b.
Proof. intros. symmetry. apply Z.div_unique with (r := a); lia. Qed.

(** A property of all byte values, checked by enumeration. *)
Lemma forall_byte_value (P : Z -> bool) :
  forallb (fun k => P (Z.of_nat k)) (seq 0 256) = true ->
  forall b, 0 <= b < 256 -> P b = true.
Proof.
  intros H b Hb. rewrite forallb_forall in H.
  specialize (H (Z.to_nat b)). rewrite Z2Nat.id in H by lia.
  apply H. apply in_seq. lia.
Qed.

(** ** The eight-digit test, lane by lane *)

Lemma rep_nonneg n c : 0 <= c -> 0 <= rep n c.
Proof. intros Hc. induction n; cbn [rep]; lia. Qed.

Lemma zero_split (t : Z) :
  (t =? 0) = (t mod 256 =? 0) && (t / 256 =? 0).
Proof.
  pose proof (Z.div_mod t 256 ltac:(lia)) as E.
  destruct (Z.eqb_spec t 0) as [-> | Hne]; [reflexivity |].
  destruct (Z.eqb_spec (t mod 256) 0), (Z.eqb_spec (t / 256) 0);
    try reflexivity; lia.
Qed.

Lemma land_lor_mod256 (x y m : Z) :
  Z.land (Z.lor x y) m mod 256 =
  Z.land (Z.lor (x mod 256) (y mod 256)) (m mod 256).
Proof.
  change 256 with (2 ^ 8). rewrite <- !Z.land_ones by lia.
  apply Z.bits_inj'. intros k Hk.
  rewrite !Z.land_spec, !Z.lor_spec, !Z.land_spec.
  destruct (Z.testbit x k), (Z.testbit y k), (Z.testbit m k),
    (Z.testbit (Z.ones 8) k); reflexivity.
Qed.

Lemma land_lor_div256 (x y m : Z) :
  Z.land (Z.lor x y) m / 256 =
  Z.land (Z.lor (x / 256) (y / 256)) (m / 256).
Proof.
  change 256 with (2 ^ 8). rewrite <- !Z.shiftr_div_pow2 by lia.
  rewrite Z.shiftr_land, Z.shiftr_lor. reflexivity.
Qed.

Lemma mod_lanes_low (a : Z) (n : nat) :
  (a mod 256 ^ Z.of_nat (S n)) mod 256 = a mod 256.
Proof.
  apply Z.mod_mod_divide. exists (256 ^ Z.of_nat n).
  rewrite Nat2Z.inj_succ, Z.pow_succ_r by lia. lia.
Qed.

Lemma mod_lanes_high (a : Z) (n : nat) :
  (a mod 256 ^ Z.of_nat (S n)) / 256 = (a / 256) mod 256 ^ Z.of_nat n.
Proof.
  rewrite Nat2Z.inj_succ, Z.pow_succ_r by lia.
  assert (0 < 256 ^ Z.of_nat n) by (apply Z.pow_pos_nonneg; lia).
  rewrite Z.rem_mul_r by lia.
  pose proof (Z.mod_pos_bound a 256 ltac:(lia)).
  apply horner_div. lia.
Qed.

(** The test on the lowest lane alone, for every byte value. *)
Lemma low_lane_test (b : Z) :
  0 <= b < 256 ->
  (Z.land (Z.lor ((b + 0x46) mod 256) ((b - 0x30) mod 256)) 0x80 =? 0) =
  is_digit_value b.
Proof.
  intros Hb.
  apply (forall_byte_value
    (fun b => Bool.eqb
       (Z.land (Z.lor ((b + 0x46) mod 256) ((b - 0x30) mod 256)) 0x80 =? 0)
       (is_digit_value b))) in Hb.
  - apply Bool.eqb_prop. exact Hb.
  - vm_compute. reflexivity.
Qed.

Lemma digits_test_lanes (n : nat) :
  forall v, 0 <= v < 256 ^ Z.of_nat n ->
  digits_test n v = lanes_are_digits n v.
Proof.
  induction n as [| n IH]; intros v Hv.
  - unfold digits_test. cbn [rep]. rewrite Z.land_0_r. reflexivity.
  - assert (Hpos : 0 < 256 ^ Z.of_nat n) by (apply Z.pow_pos_nonneg; lia).
    rewrite Nat2Z.inj_succ, Z.pow_succ_r in Hv by lia.
    pose proof (Z.div_mod v 256 ltac:(lia)) as E.
    pose proof (Z.mod_pos_bound v 256 ltac:(lia)) as Hb.
    set (b := v mod 256) in *. set (w := v / 256) in *.
    assert (Hw : 0 <= w < 256 ^ Z.of_nat n) by nia.
    unfold digits_test. cbn [lanes_are_digits rep]. fold b. fold w.
    rewrite zero_split.
    rewrite land_lor_mod256, land_lor_div256.
    rewrite !mod_lanes_low, !mod_lanes_high.
    rewrite (horner_mod 0x80), (horner_div 0x80) by lia.
    replace ((v + (0x46 + 256 * rep n 0x46)) mod 256) with ((b + 0x46) mod 256).
    2:{ rewrite E. replace (256 * w + b + (70 + 256 * rep n 70))
          with (b + 70 + (w + rep n 70) * 256) by ring.
        rewrite Z.mod_add by lia. reflexivity. }
    replace ((v - (0x30 + 256 * rep n 0x30)) mod 256) with ((b - 0x30) mod 256).
    2:{ rewrite E. replace (256 * w + b - (48 + 256 * rep n 48))
          with (b - 48 + (w - rep n 48) * 256) by ring.
        rewrite Z.mod_add by lia. reflexivity. }
    rewrite low_lane_test by lia.
    destruct (is_digit_value b) eqn:Hd; [| reflexivity].
    unfold is_digit_value in Hd. apply andb_true_iff in Hd.
    destruct Hd as [Hlo Hhi]. apply Z.leb_le in Hlo, Hhi.
    rewrite andb_true_l, <- IH by exact Hw. unfold digits_test.
    replace ((v + (0x46 + 256 * rep n 0x46)) / 256) with (w + rep n 0x46).
    2:{ apply Z.div_unique with (r := b + 0x46); lia. }
    replace ((v - (0x30 + 256 * rep n 0x30)) / 256) with (w - rep n 0x30).
    2:{ apply Z.div_unique with (r := b - 0x30); lia. }
    reflexivity.
Qed.

Lemma is_made_of_eight_digits_fast_test (val : Z) :
  is_made_of_eight_digits_fast val = digits_test 8 val.
Proof. reflexivity. Qed.

Lemma lanes_are_digits_spec (n : nat) :
  forall v,
  lanes_are_digits n v = true <->
  (forall k, (k < n)%nat -> is_digit_value (byte_lane v k) = true).
Proof.
  induction n as [| n IH]; intros v; cbn [lanes_are_digits].
  - split; [intros _ k Hk; lia | reflexivity].
  - rewrite andb_true_iff, IH. split.
    + intros [H0 Hrest] [| k] Hk.
      * unfold byte_lane. simpl Z.of_nat. rewrite Z.pow_0_r, Z.div_1_r. exact H0.
      * specialize (Hrest k ltac:(lia)). unfold byte_lane in *.
        rewrite Nat2Z.inj_succ, Z.pow_succ_r by lia.
        rewrite <- Z.div_div by (try apply Z.pow_pos_nonneg; lia). exact Hrest.
    + intros H. split.
      * specialize (H 0%nat ltac:(lia)). unfold byte_lane in H.
        simpl Z.of_nat in H. rewrite Z.pow_0_r, Z.div_1_r in H. exact H.
      * intros k Hk. specialize (H (S k) ltac:(lia)). unfold byte_lane in *.
        rewrite Nat2Z.inj_succ, Z.pow_succ_r in H by lia.
        rewrite <- Z.div_div in H by (try apply Z.pow_pos_nonneg; lia). exact H.
Qed.

(** ** The eight-digit conversion *)

Lemma land_mask_two_lanes (x : Z) :
  Z.land x 0x000000FF000000FF = x mod 256 + (x / 2 ^ 32) mod 256 * 2 ^ 32.
Proof.
  change 0x000000FF000000FF with (Z.lor (Z.ones 8) (Z.shiftl (Z.ones 8) 32)).
  rewrite Z.land_lor_distr_r, land_shiftl_mask by lia.
  rewrite !Z.land_ones, Z.shiftr_div_pow2 by lia.
  change (2 ^ 8) with 256.
  apply lor_low_shiftl; [lia |].
  pose proof (Z.mod_pos_bound x 256 ltac:(lia)). lia.
Qed.

Lemma combine_lanes (t0 t2 t4 t6 : Z) :
  0 <= t0 <= 99 -> 0 <= t2 <= 99 -> 0 <= t4 <= 99 -> 0 <= t6 <= 99 ->
  u32 (Z.shiftr
         (u64 (u64 ((t0 + t4 * 2 ^ 32) * 0x000F424000000064) +
               u64 ((t2 + t6 * 2 ^ 32) * 0x0000271000000001))) 32) =
  t0 * 1000000 + t2 * 10000 + t4 * 100 + t6.
Proof.
  intros H0 H2 H4 H6.
  change (2 ^ 32) with 4294967296.
  change 0x000F424000000064 with (100 + 1000000 * 4294967296).
  change 0x0000271000000001 with (1 + 10000 * 4294967296).
  assert (E1 : u64 ((t0 + t4 * 4294967296) * (100 + 1000000 * 4294967296)) =
               100 * t0 + (1000000 * t0 + 100 * t4) * 4294967296).
  { unfold u64. symmetry.
    apply Z.mod_unique with (q := 1000000 * t4); lia. }
  assert (E2 : u64 ((t2 + t6 * 4294967296) * (1 + 10000 * 4294967296)) =
               t2 + (10000 * t2 + t6) * 4294967296).
  { unfold u64. symmetry.
    apply Z.mod_unique with (q := 10000 * t6); lia. }
  rewrite E1, E2. unfold u64, u32.
  rewrite (Z.mod_small _ (2 ^ 64)) by lia.
  rewrite Z.shiftr_div_pow2 by lia. change (2 ^ 32) with 4294967296.
  replace ((100 * t0 + (1000000 * t0 + 100 * t4) * 4294967296 +
            (t2 + (10000 * t2 + t6) * 4294967296)) / 4294967296)
    with (t0 * 1000000 + t2 * 10000 + t4 * 100 + t6)
    by (apply Z.div_unique with (r := 100 * t0 + t2); lia).
  apply Z.mod_small. lia.
Qed.

Lemma parse_eight_digits_unrolled_digits (d0 d1 d2 d3 d4 d5 d6 d7 : Z) :
  0 <= d0 <= 9 -> 0 <= d1 <= 9 -> 0 <= d2 <= 9 -> 0 <= d3 <= 9 ->
  0 <= d4 <= 9 -> 0 <= d5 <= 9 -> 0 <= d6 <= 9 -> 0 <= d7 <= 9 ->
  parse_eight_digits_unrolled
    (le_word [0x30 + d0; 0x30 + d1; 0x30 + d2; 0x30 + d3;
              0x30 + d4; 0x30 + d5; 0x30 + d6; 0x30 + d7]) =
  d0 * 10000000 + d1 * 1000000 + d2 * 100000 + d3 * 10000 +
  d4 * 1000 + d5 * 100 + d6 * 10 + d7.
Proof.
  intros H0 H1 H2 H3 H4 H5 H6 H7.
  unfold parse_eight_digits_unrolled, le_word. cbn [fold_right].
  set (D := d0 + 256 * (d1 + 256 * (d2 + 256 * (d3 + 256 *
            (d4 + 256 * (d5 + 256 * (d6 + 256 * d7))))))).
  assert (E1 : u64 (0x30 + d0 + 256 * (0x30 + d1 + 256 * (0x30 + d2 + 256 *
                 (0x30 + d3 + 256 * (0x30 + d4 + 256 * (0x30 + d5 + 256 *
                 (0x30 + d6 + 256 * (0x30 + d7 + 256 * 0))))))) -
                 0x3030303030303030) = D).
  { unfold u64. subst D. rewrite Z.mod_small; lia. }
  rewrite E1. clear E1.
  set (t0 := 10 * d0 + d1). set (t1 := 10 * d1 + d2).
  set (t2 := 10 * d2 + d3). set (t3 := 10 * d3 + d4).
  set (t4 := 10 * d4 + d5). set (t5 := 10 * d5 + d6).
  set (t6 := 10 * d6 + d7). set (t7 := 10 * d7).
  set (V := t0 + 256 * (t1 + 256 * (t2 + 256 * (t3 + 256 *
            (t4 + 256 * (t5 + 256 * (t6 + 256 * t7))))))).
  assert (E2 : u64 (u64 (D * 10) + Z.shiftr D 8) = V).
  { rewrite Z.shiftr_div_pow2 by lia. change (2 ^ 8) with 256.
    unfold D at 2. rewrite horner_div by lia.
    unfold u64. rewrite (Z.mod_small (D * 10)) by (subst D; lia).
    rewrite Z.mod_small by (subst D; lia).
    subst D V t0 t1 t2 t3 t4 t5 t6 t7. ring. }
  rewrite E2. clear E2.
  assert (Ht : 0 <= t0 < 256 /\ 0 <= t1 < 256 /\ 0 <= t2 < 256 /\
               0 <= t3 < 256 /\ 0 <= t4 < 256 /\ 0 <= t5 < 256 /\
               0 <= t6 < 256 /\ 0 <= t7 < 256)
    by (subst t0 t1 t2 t3 t4 t5 t6 t7; lia).
  assert (Hle : t0 + t1 <= 99 + 99 /\ t0 <= 99 /\ t2 <= 99 /\ t4 <= 99 /\ t6 <= 99)
    by (subst t0 t1 t2 t3 t4 t5 t6 t7; lia).
  assert (E3 : Z.land V 0x000000FF000000FF = t0 + t4 * 2 ^ 32).
  { rewrite land_mask_two_lanes. change (2 ^ 32) with (256 * 256 * 256 * 256).
    rewrite <- !Z.div_div by lia. unfold V.
    rewrite !horner_div, !horner_mod by lia. reflexivity. }
  assert (E4 : Z.land (Z.shiftr V 16) 0x000000FF000000FF = t2 + t6 * 2 ^ 32).
  { rewrite land_mask_two_lanes, Z.shiftr_div_pow2 by lia.
    change (2 ^ 16) with (256 * 256).
    change (2 ^ 32) with (256 * 256 * 256 * 256).
    rewrite <- !Z.div_div by lia. unfold V.
    rewrite !horner_div, !horner_mod by lia. reflexivity. }
  rewrite E3, E4. clear E3 E4.
  rewrite combine_lanes by lia.
  subst t0 t2 t4 t6. ring.
Qed.

Lemma le_word_lanes (n : nat) :
  forall v, 0 <= v < 256 ^ Z.of_nat n -> le_word (word_lanes n v) = v.
Proof.
  induction n as [| n IH]; intros v Hv.
  - simpl in *. lia.
  - rewrite Nat2Z.inj_succ, Z.pow_succ_r in Hv by lia.
    assert (0 < 256 ^ Z.of_nat n) by (apply Z.pow_pos_nonneg; lia).
    pose proof (Z.div_mod v 256 ltac:(lia)) as E.
    pose proof (Z.mod_pos_bound v 256 ltac:(lia)) as Hb.
    cbn [word_lanes le_word fold_right]. fold (le_word (word_lanes n (v / 256))).
    rewrite IH by nia. lia.
Qed.

Lemma word_lanes_byte_lane (n : nat) :
  forall v k, word_lanes n (v / 256 ^ Z.of_nat k) =
              map (fun j => byte_lane v (k + j)) (seq 0 n).
Proof.
  induction n as [| n IH]; intros v k.
  - reflexivity.
  - cbn [word_lanes seq map]. f_equal.
    + unfold byte_lane. rewrite Nat.add_0_r. reflexivity.
    + rewrite Z.div_div by (try apply Z.pow_pos_nonneg; lia).
      replace (256 ^ Z.of_nat k * 256) with (256 ^ Z.of_nat (S k))
        by (rewrite Nat2Z.inj_succ, Z.pow_succ_r; lia).
      rewrite IH, <- seq_shift, map_map. apply map_ext. intros j.
      f_equal. lia.
Qed.

(** ** The word load *)

Lemma byte_val_range (b : byte) : 0 <= byte_val b < 256.
Proof.
  unfold byte_val. pose proof (Byte.to_N_bounded b) as H. lia.
Qed.

Lemma lor_chain (c0 c1 c2 c3 c4 c5 c6 c7 : Z) :
  0 <= c0 < 256 -> 0 <= c1 < 256 -> 0 <= c2 < 256 -> 0 <= c3 < 256 ->
  0 <= c4 < 256 -> 0 <= c5 < 256 -> 0 <= c6 < 256 -> 0 <= c7 < 256 ->
  Z.lor (Z.lor (Z.lor (Z.lor (Z.lor (Z.lor (Z.lor c0
    (Z.shiftl c1 8)) (Z.shiftl c2 16)) (Z.shiftl c3 24)) (Z.shiftl c4 32))
    (Z.shiftl c5 40)) (Z.shiftl c6 48)) (Z.shiftl c7 56) =
  le_word [c0; c1; c2; c3; c4; c5; c6; c7].
Proof.
  intros.
  rewrite (lor_low_shiftl c0 c1 8) by lia.
  rewrite (lor_low_shiftl _ c2 16) by lia.
  rewrite (lor_low_shiftl _ c3 24) by lia.
  rewrite (lor_low_shiftl _ c4 32) by lia.
  rewrite (lor_low_shiftl _ c5 40) by lia.
  rewrite (lor_low_shiftl _ c6 48) by lia.
  rewrite (lor_low_shiftl _ c7 56) by lia.
  unfold le_word. cbn [fold_right]. lia.
Qed.

Lemma land_lane_mask (x n : Z) :
  0 <= n -> Z.land x (Z.shiftl 255 n) = Z.shiftl ((x / 2 ^ n) mod 256) n.
Proof.
  intros Hn. rewrite land_shiftl_mask by lia.
  change 255 with (Z.ones 8). rewrite Z.land_ones by lia.
  rewrite Z.shiftr_div_pow2 by lia. reflexivity.
Qed.

Lemma le_word_lane (c0 c1 c2 c3 c4 c5 c6 c7 : Z) :
  0 <= c0 < 256 -> 0 <= c1 < 256 -> 0 <= c2 < 256 -> 0 <= c3 < 256 ->
  0 <= c4 < 256 -> 0 <= c5 < 256 -> 0 <= c6 < 256 -> 0 <= c7 < 256 ->
  let w := le_word [c0; c1; c2; c3; c4; c5; c6; c7] in
  (w / 2 ^ 0) mod 256 = c0 /\ (w / 2 ^ 8) mod 256 = c1 /\
  (w / 2 ^ 16) mod 256 = c2 /\ (w / 2 ^ 24) mod 256 = c3 /\
  (w / 2 ^ 32) mod 256 = c4 /\ (w / 2 ^ 40) mod 256 = c5 /\
  (w / 2 ^ 48) mod 256 = c6 /\ (w / 2 ^ 56) mod 256 = c7.
Proof.
  intros. subst w. unfold le_word. cbn [fold_right].
  change (2 ^ 0) with 1. rewrite Z.div_1_r.
  change (2 ^ 8) with 256. change (2 ^ 16) with (256 * 256).
  change (2 ^ 24) with (256 * 256 * 256).
  change (2 ^ 32) with (256 * 256 * 256 * 256).
  change (2 ^ 40) with (256 * 256 * 256 * 256 * 256).
  change (2 ^ 48) with (256 * 256 * 256 * 256 * 256 * 256).
  change (2 ^ 56) with (256 * 256 * 256 * 256 * 256 * 256 * 256).
  rewrite <- !Z.div_div by lia.
  rewrite !horner_div, !horner_mod by lia.
  repeat split; reflexivity.
Qed.

Lemma byteswap_le_word (c0 c1 c2 c3 c4 c5 c6 c7 : Z) :
  0 <= c0 < 256 -> 0 <= c1 < 256 -> 0 <= c2 < 256 -> 0 <= c3 < 256 ->
  0 <= c4 < 256 -> 0 <= c5 < 256 -> 0 <= c6 < 256 -> 0 <= c7 < 256 ->
  byteswap (le_word [c0; c1; c2; c3; c4; c5; c6; c7]) =
  le_word [c7; c6; c5; c4; c3; c2; c1; c0].
Proof.
  intros H0 H1 H2 H3 H4 H5 H6 H7.
  destruct (le_word_lane c0 c1 c2 c3 c4 c5 c6 c7 H0 H1 H2 H3 H4 H5 H6 H7)
    as (L0 & L1 & L2 & L3 & L4 & L5 & L6 & L7).
  unfold byteswap.
  set (w := le_word [c0; c1; c2; c3; c4; c5; c6; c7]) in *.
  change 0xFF00000000000000 with (Z.shiftl 255 56).
  change 0x00FF000000000000 with (Z.shiftl 255 48).
  change 0x0000FF0000000000 with (Z.shiftl 255 40).
  change 0x000000FF00000000 with (Z.shiftl 255 32).
  change 0x00000000FF000000 with (Z.shiftl 255 24).
  change 0x0000000000FF0000 with (Z.shiftl 255 16).
  change 0x000000000000FF00 with (Z.shiftl 255 8).
  change 0x00000000000000FF with (Z.shiftl 255 0).
  rewrite !land_lane_mask by lia.
  rewrite L0, L1, L2, L3, L4, L5, L6, L7.
  rewrite !Z.shiftr_shiftl_l by lia.
  rewrite !Z.shiftl_shiftl by lia.
  simpl Z.sub. simpl Z.add.
  assert (S : forall c n, 0 <= c < 256 -> 0 <= n <= 56 ->
                          u64 (Z.shiftl c n) = Z.shiftl c n).
  { intros c n Hc Hn. unfold u64. apply Z.mod_small.
    rewrite Z.shiftl_mul_pow2 by lia.
    assert (2 ^ n <= 2 ^ 56) by (apply Z.pow_le_mono_r; lia).
    assert (0 < 2 ^ n) by (apply Z.pow_pos_nonneg; lia). nia. }
  rewrite !S by lia. rewrite Z.shiftl_0_r.
  apply lor_chain; assumption.
Qed.

Lemma read_u64_runtime_canonical (cfg : config) (chars : list byte) :
  read_u64_runtime cfg chars = canonical_word chars.
Proof.
  unfold read_u64_runtime, memcpy_u64, canonical_word.
  destruct (FASTFLOAT_IS_BIG_ENDIAN cfg); [| reflexivity].
  cbn [seq map fold_left].
  set (b0 := byte_val (deref chars 0)). set (b1 := byte_val (deref chars 1)).
  set (b2 := byte_val (deref chars 2)). set (b3 := byte_val (deref chars 3)).
  set (b4 := byte_val (deref chars 4)). set (b5 := byte_val (deref chars 5)).
  set (b6 := byte_val (deref chars 6)). set (b7 := byte_val (deref chars 7)).
  replace (((((((( 0 * 256 + b0) * 256 + b1) * 256 + b2) * 256 + b3) * 256 + b4)
             * 256 + b5) * 256 + b6) * 256 + b7)
    with (le_word [b7; b6; b5; b4; b3; b2; b1; b0])
    by (unfold le_word; cbn [fold_right]; ring).
  apply byteswap_le_word; apply byte_val_range.
Qed.

Lemma read_u64_constexpr_canonical (cfg : config) (chars : list byte) :
  (forall k, (k < 8)%nat ->
     char_to_int cfg (deref chars k) = byte_val (deref chars k)) ->
  read_u64_constexpr cfg chars = canonical_word chars.
Proof.
  intros Hplain.
  assert (D : forall cs k, deref (tl cs) k = deref cs (S k)).
  { intros cs k. unfold deref. destruct cs; [destruct k |]; reflexivity. }
  unfold read_u64_constexpr, canonical_word.
  cbn [read_u64_loop seq map]. repeat rewrite D.
  rewrite !Hplain by lia.
  assert (S : forall b n, 0 <= n <= 56 ->
            u64 (Z.shiftl (u64 (byte_val b)) n) = Z.shiftl (byte_val b) n).
  { intros b n Hn. pose proof (byte_val_range b) as Hb. unfold u64.
    rewrite (Z.mod_small (byte_val b)) by lia. apply Z.mod_small.
    rewrite Z.shiftl_mul_pow2 by lia.
    assert (2 ^ n <= 2 ^ 56) by (apply Z.pow_le_mono_r; lia).
    assert (0 < 2 ^ n) by (apply Z.pow_pos_nonneg; lia). nia. }
  simpl Z.add. simpl Z.mul. rewrite !S by lia.
  rewrite Z.shiftl_0_r, Z.lor_0_l.
  apply lor_chain; apply byte_val_range.
Qed.

Lemma lor_u64 (a b : Z) : u64 (Z.lor a b) = Z.lor (u64 a) (u64 b).
Proof.
  unfold u64. rewrite <- !Z.land_ones by lia. apply Z.land_lor_distr_l.
Qed.

Lemma u64_range (x : Z) : 0 <= u64 x < 2 ^ 64.
Proof. unfold u64. apply Z.mod_pos_bound. lia. Qed.

Lemma u64_small (x : Z) : 0 <= x < 2 ^ 64 -> u64 x = x.
Proof. intros. unfold u64. apply Z.mod_small. assumption. Qed.

Lemma u64_u64 (x : Z) : u64 (u64 x) = u64 x.
Proof. unfold u64. apply Z.mod_mod. lia. Qed.

Lemma read_u64_loop_range (cfg : config) (n : nat) :
  forall i chars val, u64 val = val -> u64 (read_u64_loop cfg n i chars val) = read_u64_loop cfg n i chars val.
Proof.
  induction n as [| n IH]; intros i chars val Hval; cbn [read_u64_loop].
  - exact Hval.
  - apply IH. rewrite lor_u64, u64_u64, Hval. reflexivity.
Qed.

Lemma read_u64_loop_mono (cfg : config) (n : nat) :
  forall i chars val j,
  Z.testbit val j = true ->
  Z.testbit (read_u64_loop cfg n i chars val) j = true.
Proof.
  induction n as [| n IH]; intros i chars val j Hj; cbn [read_u64_loop].
  - exact Hj.
  - apply IH. rewrite Z.lor_spec, Hj. reflexivity.
Qed.

Lemma negative_char_bit7 (cfg : config) (c : byte) :
  char_to_int cfg c < 0 -> Z.testbit (u64 (char_to_int cfg c)) 7 = true.
Proof.
  unfold char_to_int. pose proof (byte_val_range c) as Hc.
  destruct (char_is_signed cfg); cbn [andb]; [| lia].
  destruct (Z.leb_spec 128 (byte_val c)) as [Hge | Hlt]; [| lia].
  intros _. unfold u64. rewrite Z.mod_pow2_bits_low by lia.
  apply (forall_byte_value
    (fun b => Z.testbit (b - 256) 7 || (b <? 128))) in Hc.
  - apply orb_true_iff in Hc. destruct Hc as [Hc | Hc]; [exact Hc |].
    apply Z.ltb_lt in Hc. lia.
  - vm_compute. reflexivity.
Qed.

Lemma read_u64_loop_sign (cfg : config) (n : nat) :
  forall i chars val k,
  (k < n)%nat -> 0 <= i -> i + Z.of_nat k <= 7 ->
  char_to_int cfg (deref chars k) < 0 ->
  Z.testbit (read_u64_loop cfg n i chars val) (8 * (i + Z.of_nat k) + 7) = true.
Proof.
  induction n as [| n IH]; intros i chars val k Hk Hi Hik Hneg; [lia |].
  cbn [read_u64_loop]. destruct k as [| k].
  - apply read_u64_loop_mono. rewrite Z.lor_spec.
    apply orb_true_iff. right. unfold u64 at 1.
    rewrite Z.mod_pow2_bits_low by lia.
    rewrite Z.shiftl_spec by lia.
    replace (8 * (i + Z.of_nat 0) + 7 - i * 8) with 7 by lia.
    apply negative_char_bit7. exact Hneg.
  - replace (8 * (i + Z.of_nat (S k)) + 7) with (8 * (i + 1 + Z.of_nat k) + 7)
      by lia.
    apply IH; try lia.
    replace (deref (tl chars) k) with (deref chars (S k)); [exact Hneg |].
    unfold deref. destruct chars; [destruct k |]; reflexivity.
Qed.

Lemma lane_bit7 (val : Z) (k : nat) :
  byte_lane val k < 128 -> Z.testbit val (8 * Z.of_nat k + 7) = false.
Proof.
  unfold byte_lane. intros Hlt.
  assert (Hpos : 0 < 256 ^ Z.of_nat k) by (apply Z.pow_pos_nonneg; lia).
  pose proof (Z.mod_pos_bound (val / 256 ^ Z.of_nat k) 256 ltac:(lia)) as Hb.
  set (l := (val / 256 ^ Z.of_nat k) mod 256) in *.
  assert (E : Z.testbit l 7 = Z.testbit val (8 * Z.of_nat k + 7)).
  { subst l. change 256 with (2 ^ 8) at 2.
    rewrite Z.mod_pow2_bits_low by lia.
    change 256 with (2 ^ 8). rewrite <- Z.pow_mul_r by lia.
    rewrite Z.div_pow2_bits by lia. f_equal. lia. }
  rewrite <- E. replace l with (l mod 2 ^ 7) by (apply Z.mod_small; lia).
  apply Z.mod_pow2_bits_high. lia.
Qed.

(** ** Digits *)

Lemma char_to_int_zero (cfg : config) : char_to_int cfg "0" = 0x30.
Proof. unfold char_to_int. destruct (char_is_signed cfg); reflexivity. Qed.

Lemma char_to_int_nine (cfg : config) : char_to_int cfg "9" = 0x39.
Proof. unfold char_to_int. destruct (char_is_signed cfg); reflexivity. Qed.

Lemma is_integer_ascii_digit (cfg : config) (c : byte) :
  is_integer cfg c = is_ascii_digit c.
Proof.
  unfold is_integer, is_ascii_digit, is_digit_value.
  rewrite char_to_int_zero, char_to_int_nine. unfold char_to_int.
  pose proof (byte_val_range c).
  destruct (char_is_signed cfg); cbn [andb]; [| reflexivity].
  destruct (Z.leb_spec 128 (byte_val c)); [| reflexivity].
  destruct (Z.leb_spec 0x30 (byte_val c - 256)); [lia |].
  destruct (Z.leb_spec (byte_val c) 0x39); [lia |].
  rewrite andb_false_r. reflexivity.
Qed.

Lemma digit_char_plain (cfg : config) (c : byte) :
  is_ascii_digit c = true -> char_to_int cfg c = byte_val c.
Proof.
  unfold is_ascii_digit, is_digit_value, char_to_int. intros H.
  apply andb_true_iff in H. destruct H as [H1 H2]. apply Z.leb_le in H1, H2.
  destruct (Z.leb_spec 128 (byte_val c)); [lia |].
  rewrite andb_false_r. reflexivity.
Qed.

Lemma digit_of_range (c : byte) :
  is_ascii_digit c = true -> 0 <= digit_of c <= 9.
Proof.
  unfold is_ascii_digit, is_digit_value, digit_of. intros H.
  apply andb_true_iff in H. destruct H as [H1 H2]. apply Z.leb_le in H1, H2.
  lia.
Qed.

Lemma lanes_are_digits_le_word (cs : list Z) :
  (forall c, In c cs -> 0 <= c < 256) ->
  lanes_are_digits (length cs) (le_word cs) = forallb is_digit_value cs.
Proof.
  induction cs as [| c cs IH]; intros Hr; [reflexivity |].
  cbn [length lanes_are_digits le_word fold_right forallb].
  fold (le_word cs).
  rewrite horner_mod, horner_div by (apply Hr; left; reflexivity).
  rewrite IH by (intros; apply Hr; right; assumption). reflexivity.
Qed.

Lemma le_word_range (cs : list Z) :
  (forall c, In c cs -> 0 <= c < 256) ->
  0 <= le_word cs < 256 ^ Z.of_nat (length cs).
Proof.
  induction cs as [| c cs IH]; intros Hr.
  - simpl. lia.
  - cbn [length le_word fold_right]. fold (le_word cs).
    rewrite Nat2Z.inj_succ, Z.pow_succ_r by lia.
    specialize (IH ltac:(intros; apply Hr; right; assumption)).
    specialize (Hr c ltac:(left; reflexivity)). lia.
Qed.

Lemma canonical_word_bytes (chars : list byte) :
  forall c, In c (map (fun k => byte_val (deref chars k)) (seq 0 8)) ->
  0 <= c < 256.
Proof.
  intros c Hin. apply in_map_iff in Hin. destruct Hin as (k & <- & _).
  apply byte_val_range.
Qed.

Lemma digits_test_canonical (chars : list byte) :
  is_made_of_eight_digits_fast (canonical_word chars) =
  forallb (fun k => is_ascii_digit (deref chars k)) (seq 0 8).
Proof.
  rewrite is_made_of_eight_digits_fast_test.
  pose proof (le_word_range _ (canonical_word_bytes chars)) as Hr.
  rewrite length_map, length_seq in Hr.
  rewrite digits_test_lanes by exact Hr.
  unfold canonical_word.
  pose proof (lanes_are_digits_le_word _ (canonical_word_bytes chars)) as E.
  rewrite length_map, length_seq in E. rewrite E.
  generalize (seq 0 8). intros l.
  induction l as [| k l IH]; [reflexivity |].
  cbn [map forallb]. rewrite IH. reflexivity.
Qed.

Lemma forallb_false_witness {A : Type} (f : A -> bool) (l : list A) :
  forallb f l = false -> exists x, In x l /\ f x = false.
Proof.
  induction l as [| a l IH]; cbn [forallb]; [discriminate |].
  intros H. destruct (f a) eqn:Ha.
  - destruct (IH H) as (x & Hin & Hx). exists x. split; [right |]; assumption.
  - exists a. split; [left; reflexivity | exact Ha].
Qed.

(** The test on the loaded word is the test on the eight bytes, on every
    configuration. *)
Lemma eight_digits_check (cfg : config) (chars : list byte) :
  is_made_of_eight_digits_fast (read_u64 cfg chars) =
  forallb (fun k => is_ascii_digit (deref chars k)) (seq 0 8).
Proof.
  rewrite <- digits_test_canonical. unfold read_u64.
  destruct (cpp20_and_in_constexpr cfg).
  2:{ rewrite read_u64_runtime_canonical. reflexivity. }
  destruct (forallb (fun k => char_to_int cfg (deref chars k) =?
                              byte_val (deref chars k)) (seq 0 8)) eqn:Hplain.
  - rewrite read_u64_constexpr_canonical; [reflexivity |].
    intros k Hk. rewrite forallb_forall in Hplain.
    apply Z.eqb_eq. apply Hplain. apply in_seq. lia.
  - apply forallb_false_witness in Hplain.
    destruct Hplain as (k & Hin & Hk). apply in_seq in Hin.
    apply Z.eqb_neq in Hk.
    assert (Hneg : char_to_int cfg (deref chars k) < 0).
    { pose proof (byte_val_range (deref chars k)). revert Hk.
      unfold char_to_int.
      destruct (char_is_signed cfg && (128 <=? byte_val (deref chars k)));
        lia. }
    assert (Hnd : is_ascii_digit (deref chars k) = false).
    { destruct (is_ascii_digit (deref chars k)) eqn:Hd; [| reflexivity].
      apply (digit_char_plain cfg) in Hd. contradiction. }
    rewrite digits_test_canonical.
    replace (forallb (fun k => is_ascii_digit (deref chars k)) (seq 0 8))
      with false.
    2:{ symmetry. apply not_true_is_false. intros Hall.
        rewrite forallb_forall in Hall.
        rewrite Hall in Hnd by (apply in_seq; lia). discriminate. }
    apply not_true_is_false. intros Htest.
    rewrite is_made_of_eight_digits_fast_test in Htest.
    pose proof (read_u64_loop_range cfg 8 0 chars 0 eq_refl) as Hr.
    fold (read_u64_constexpr cfg chars) in Hr.
    rewrite digits_test_lanes in Htest
      by (rewrite <- Hr; apply u64_range).
    rewrite lanes_are_digits_spec in Htest.
    specialize (Htest k ltac:(lia)). unfold is_digit_value in Htest.
    apply andb_true_iff in Htest. destruct Htest as [_ Hhi].
    apply Z.leb_le in Hhi.
    pose proof (lane_bit7 (read_u64_constexpr cfg chars) k ltac:(lia)) as Hb.
    pose proof (read_u64_loop_sign cfg 8 0 chars 0 k ltac:(lia) ltac:(lia)
                  ltac:(lia) Hneg) as Hs.
    fold (read_u64_constexpr cfg chars) in Hs.
    replace (8 * (0 + Z.of_nat k) + 7) with (8 * Z.of_nat k + 7) in Hs by lia.
    congruence.
Qed.

Lemma read_u64_canonical_digits (cfg : config) (chars : list byte) :
  forallb (fun k => is_ascii_digit (deref chars k)) (seq 0 8) = true ->
  read_u64 cfg chars = canonical_word chars.
Proof.
  intros Hall. unfold read_u64.
  destruct (cpp20_and_in_constexpr cfg).
  - apply read_u64_constexpr_canonical. intros k Hk.
    apply digit_char_plain. rewrite forallb_forall in Hall.
    apply Hall. apply in_seq. lia.
  - apply read_u64_runtime_canonical.
Qed.

Lemma u64_add_l (a b : Z) : u64 (u64 a + b) = u64 (a + b).
Proof. unfold u64. apply Zplus_mod_idemp_l. Qed.

Lemma u64_add_r (a b : Z) : u64 (a + u64 b) = u64 (a + b).
Proof. unfold u64. apply Zplus_mod_idemp_r. Qed.

Lemma u64_mul_r (a b : Z) : u64 (a * u64 b) = u64 (a * b).
Proof. unfold u64. apply Zmult_mod_idemp_r. Qed.

Create Rewrite HintDb u64.
#[local] Hint Rewrite u64_add_l u64_add_r u64_mul_r : u64.

Lemma push_digit_u64 (i : Z) (c : byte) : push_digit (u64 i) c = push_digit i c.
Proof.
  unfold push_digit. rewrite <- u64_add_l, u64_mul_r, u64_add_l. reflexivity.
Qed.

Lemma decimal_congruence (ds : list byte) :
  forall a b, u64 a = u64 b -> u64 (decimal ds a) = u64 (decimal ds b).
Proof.
  induction ds as [| c ds IH]; intros a b Hab; [exact Hab |].
  unfold decimal. cbn [fold_left]. apply IH.
  rewrite <- (u64_add_l (10 * a)), <- (u64_add_l (10 * b)).
  rewrite <- (u64_mul_r 10 a), <- (u64_mul_r 10 b), Hab. reflexivity.
Qed.

Lemma accumulate_decimal (ds : list byte) :
  forall i, u64 i = i -> accumulate ds i = u64 (decimal ds i).
Proof.
  induction ds as [| c ds IH]; intros i Hi.
  - symmetry. exact Hi.
  - unfold accumulate, decimal. cbn [fold_left].
    fold (accumulate ds (push_digit i c)).
    fold (decimal ds (10 * i + digit_of c)).
    rewrite IH by (unfold push_digit; apply u64_u64).
    apply decimal_congruence. unfold push_digit. apply u64_u64.
Qed.

Lemma accumulate_range (ds : list byte) (i : Z) :
  u64 i = i -> u64 (accumulate ds i) = accumulate ds i.
Proof.
  intros Hi. rewrite accumulate_decimal by exact Hi. apply u64_u64.
Qed.

(** Write the value of the byte [c] as ['0'] plus its digit. *)
Ltac as_digit c :=
  replace (byte_val c) with (0x30 + digit_of c) by (unfold digit_of; ring).

Lemma eight_digits_parse (cfg : config) (chars : list byte) (i : Z) :
  u64 i = i ->
  forallb (fun k => is_ascii_digit (deref chars k)) (seq 0 8) = true ->
  u64 (u64 (i * 100000000) + parse_eight_digits_unrolled (read_u64 cfg chars)) =
  accumulate (map (deref chars) (seq 0 8)) i.
Proof.
  intros Hi Hall. rewrite read_u64_canonical_digits by exact Hall.
  rewrite forallb_forall in Hall.
  assert (Hd : forall k, (k < 8)%nat -> 0 <= digit_of (deref chars k) <= 9).
  { intros k Hk. apply digit_of_range. apply Hall. apply in_seq. lia. }
  unfold canonical_word. cbn [seq map].
  pose proof (Hd 0%nat ltac:(lia)). pose proof (Hd 1%nat ltac:(lia)).
  pose proof (Hd 2%nat ltac:(lia)). pose proof (Hd 3%nat ltac:(lia)).
  pose proof (Hd 4%nat ltac:(lia)). pose proof (Hd 5%nat ltac:(lia)).
  pose proof (Hd 6%nat ltac:(lia)). pose proof (Hd 7%nat ltac:(lia)).
  rewrite accumulate_decimal by exact Hi.
  unfold decimal. cbn [fold_left].
  repeat match goal with
         | |- context [byte_val ?c] => as_digit c
         end.
  rewrite parse_eight_digits_unrolled_digits by assumption.
  rewrite u64_add_l. f_equal. ring.
Qed.

(** ** The scanning loops *)

Lemma integer_loop_run (cfg : config) (rest : list byte) :
  forall i p,
  integer_loop cfg rest i p =
  (accumulate (digit_run rest) i, (p + length (digit_run rest))%nat).
Proof.
  induction rest as [| c rest IH]; intros i p; cbn [integer_loop digit_run].
  - cbn [length]. rewrite Nat.add_0_r. reflexivity.
  - rewrite is_integer_ascii_digit. destruct (is_ascii_digit c) eqn:Hc.
    + rewrite IH. cbn [length]. rewrite Nat.add_succ_r.
      unfold accumulate at 2. cbn [fold_left].
      rewrite char_to_int_zero, (digit_char_plain cfg c Hc).
      autorewrite with u64. reflexivity.
    + cbn [length]. rewrite Nat.add_0_r. reflexivity.
Qed.

Lemma fraction_loop_run (cfg : config) (rest : list byte) :
  forall i p,
  fraction_loop cfg rest i p =
  (accumulate (digit_run rest) i, (p + length (digit_run rest))%nat).
Proof.
  induction rest as [| c rest IH]; intros i p; cbn [fraction_loop digit_run].
  - cbn [length]. rewrite Nat.add_0_r. reflexivity.
  - rewrite is_integer_ascii_digit. destruct (is_ascii_digit c) eqn:Hc.
    + rewrite IH. cbn [length]. rewrite Nat.add_succ_r.
      unfold accumulate at 2. cbn [fold_left].
      rewrite char_to_int_zero, (digit_char_plain cfg c Hc).
      pose proof (digit_of_range c Hc) as Hd. unfold digit_of in Hd.
      unfold u8. rewrite (Z.mod_small (byte_val c - 0x30)) by lia.
      rewrite u64_add_l. unfold push_digit, digit_of.
      rewrite (Z.mul_comm i 10). reflexivity.
    + cbn [length]. rewrite Nat.add_0_r. reflexivity.
Qed.

Lemma digit_run_app (ds rest : list byte) :
  forallb is_ascii_digit ds = true ->
  digit_run (ds ++ rest) = ds ++ digit_run rest.
Proof.
  induction ds as [| c ds IH]; cbn [forallb app digit_run]; [reflexivity |].
  intros H. apply andb_true_iff in H. destruct H as [Hc Hds].
  rewrite Hc, IH by exact Hds. reflexivity.
Qed.

Lemma accumulate_app (ds ds' : list byte) (i : Z) :
  accumulate (ds ++ ds') i = accumulate ds' (accumulate ds i).
Proof. unfold accumulate. apply fold_left_app. Qed.

Lemma eight_digits_loop_run (cfg : config) (n : nat) :
  forall rest i p, (length rest <= n)%nat -> u64 i = i ->
  exists ds rest',
    rest = ds ++ rest' /\ forallb is_ascii_digit ds = true /\
    eight_digits_loop cfg rest i p = (accumulate ds i, (p + length ds)%nat).
Proof.
  induction n as [| n IH]; intros rest i p Hlen Hi.
  - destruct rest; [| cbn [length] in Hlen; lia].
    exists [], []. repeat split. cbn [length]. rewrite Nat.add_0_r. reflexivity.
  - destruct rest as [| c0 [| c1 [| c2 [| c3 [| c4 [| c5 [| c6 [| c7 rest]]]]]]]];
      try (eexists [], _; repeat split; cbn [length]; rewrite Nat.add_0_r;
           reflexivity).
    cbn [eight_digits_loop].
    rewrite eight_digits_check.
    destruct (forallb (fun k => is_ascii_digit
                (deref (c0 :: c1 :: c2 :: c3 :: c4 :: c5 :: c6 :: c7 :: rest) k))
                (seq 0 8)) eqn:Hall.
    + rewrite eight_digits_parse by assumption.
      cbn [seq map deref nth].
      destruct (IH rest (accumulate [c0; c1; c2; c3; c4; c5; c6; c7] i)
                  (p + 8)%nat) as (ds & rest' & E & Hds & Hloop).
      { cbn [length] in Hlen. lia. }
      { apply accumulate_range. exact Hi. }
      exists ([c0; c1; c2; c3; c4; c5; c6; c7] ++ ds), rest'.
      split; [| split].
      * rewrite E. reflexivity.
      * rewrite forallb_app, Hds, andb_true_r. exact Hall.
      * unfold deref in Hloop. rewrite Hloop, accumulate_app, length_app.
        f_equal. cbn [length]. lia.
    + eexists [], _. repeat split. cbn [length]. rewrite Nat.add_0_r.
      reflexivity.
Qed.

Lemma digit_run_prefix (rest : list byte) :
  exists rest', rest = digit_run rest ++ rest'.
Proof.
  induction rest as [| c rest [rest' IH]]; cbn [digit_run].
  - exists []. reflexivity.
  - destruct (is_ascii_digit c).
    + exists rest'. cbn [app]. rewrite <- IH. reflexivity.
    + exists (c :: rest). reflexivity.
Qed.

Lemma digit_run_length (rest : list byte) :
  (length (digit_run rest) <= length rest)%nat.
Proof.
  destruct (digit_run_prefix rest) as [rest' E].
  rewrite E at 2. rewrite length_app. lia.
Qed.

Lemma digit_run_digits (rest : list byte) :
  forallb is_ascii_digit (digit_run rest) = true.
Proof.
  induction rest as [| c rest IH]; cbn [digit_run]; [reflexivity |].
  destruct (is_ascii_digit c) eqn:Hc; [| reflexivity].
  cbn [forallb]. rewrite Hc, IH. reflexivity.
Qed.

Lemma skipn_add {A : Type} (n m : nat) (l : list A) :
  skipn (n + m) l = skipn m (skipn n l).
Proof. rewrite skipn_skipn. f_equal. lia. Qed.

(** The two loops over the fraction read the longest run of digits, one
    digit at a time as far as the result goes. *)
Lemma fraction_scan (cfg : config) (s : list byte) (p : nat) (i : Z) :
  u64 i = i ->
  (let '(i1, p1) := eight_digits_loop cfg (skipn p s) i p in
   fraction_loop cfg (skipn p1 s) i1 p1) =
  (accumulate (digit_run (skipn p s)) i,
   (p + length (digit_run (skipn p s)))%nat).
Proof.
  intros Hi.
  destruct (eight_digits_loop_run cfg (length (skipn p s)) (skipn p s) i p
              (le_n _) Hi) as (ds & rest' & E & Hds & Hloop).
  rewrite Hloop, fraction_loop_run, skipn_add, E.
  rewrite skipn_app, Nat.sub_diag, skipn_all, skipn_O, app_nil_l.
  rewrite digit_run_app by exact Hds.
  rewrite accumulate_app, length_app. f_equal. lia.
Qed.

(** ** The stages of the scanner *)

Lemma read_sign_inl (cfg : config) (s : list byte) (options : parse_options)
    (a : parsed_number_string) :
  read_sign cfg s options = inl a ->
  a = set_negative default_answer (Byte.eqb (deref s 0) "-").
Proof.
  unfold read_sign. intros H.
  repeat match type of H with
         | (if ?b then _ else _) = _ => destruct b
         end; congruence.
Qed.

Lemma read_sign_inr (cfg : config) (s : list byte) (options : parse_options)
    (p : nat) :
  read_sign cfg s options = inr p -> (p <= 1)%nat /\ (p <= length s)%nat.
Proof.
  unfold read_sign. intros H.
  destruct (if FASTFLOAT_ALLOWS_LEADING_PLUS cfg
            then Byte.eqb (deref s 0) "-" || Byte.eqb (deref s 0) "+"
            else Byte.eqb (deref s 0) "-") eqn:Hsign.
  - destruct (Nat.eqb_spec 1 (length s)) as [E | NE]; [discriminate |].
    destruct (negb (is_integer cfg (deref s 1)) && _); [discriminate |].
    injection H as <-. split; [lia |].
    destruct s as [| c s]; [| cbn [length]; lia].
    unfold deref in Hsign. cbn in Hsign.
    destruct (FASTFLOAT_ALLOWS_LEADING_PLUS cfg); discriminate.
  - injection H as <-. lia.
Qed.

(** The scan of the digits, with the loops replaced by what they compute. *)
Lemma read_digits_unfold (cfg : config) (s : list byte)
    (options : parse_options) :
  read_digits cfg s options =
  match read_sign cfg s options with
  | inl answer => inl answer
  | inr p0 =>
      let ids := digit_run (skipn p0 s) in
      let p1 := (p0 + length ids)%nat in
      let has_decimal_point :=
        negb (p1 =? length s)%nat &&
        Byte.eqb (deref s p1) (decimal_point options) in
      let fds := if has_decimal_point then digit_run (skipn (S p1) s) else [] in
      let p2 := if has_decimal_point then (S p1 + length fds)%nat else p1 in
      let answer :=
        set_integer (set_negative default_answer (Byte.eqb (deref s 0) "-"))
          {| ptr := Some p0; len := length ids |} in
      let answer :=
        if has_decimal_point
        then set_fraction answer {| ptr := Some (S p1); len := length fds |}
        else answer in
      let digit_count := Z.of_nat (length ids) + Z.of_nat (length fds) in
      if (digit_count =? 0) ||
         (is_json_rules (rules options) && has_decimal_point &&
          (digit_count =? 1))
      then inl answer
      else
        inr {| l_answer := answer; l_p := p2;
               l_i := accumulate (ids ++ fds) 0;
               l_start_digits := p0;
               l_end_of_integer_part := p1;
               l_digit_count := digit_count;
               l_exponent := - Z.of_nat (length fds); l_exp_number := 0 |}
  end.
Proof.
  unfold read_digits. destruct (read_sign cfg s options) as [a | p0];
    [reflexivity |].
  rewrite integer_loop_run. cbv zeta. cbv beta iota.
  set (ids := digit_run (skipn p0 s)).
  set (p1 := (p0 + length ids)%nat).
  replace (Z.to_nat (Z.of_nat p1 - Z.of_nat p0)) with (length ids)
    by (subst p1; lia).
  replace (Z.of_nat p1 - Z.of_nat p0) with (Z.of_nat (length ids))
    by (subst p1; lia).
  destruct (negb (p1 =? length s)%nat &&
            Byte.eqb (deref s p1) (decimal_point options)) eqn:Hdp.
  - pose proof (fraction_scan cfg s (S p1) (accumulate ids 0)
                  (accumulate_range ids 0 eq_refl)) as F.
    destruct (eight_digits_loop cfg (skipn (S p1) s) (accumulate ids 0) (S p1))
      as [i1 q1].
    rewrite F. cbv beta iota.
    set (fds := digit_run (skipn (S p1) s)).
    replace (S p1 + length fds - S p1)%nat with (length fds) by lia.
    replace (Z.of_nat (S p1) - Z.of_nat (S p1 + length fds))
      with (- Z.of_nat (length fds)) by lia.
    replace (Z.of_nat (length ids) - - Z.of_nat (length fds))
      with (Z.of_nat (length ids) + Z.of_nat (length fds)) by lia.
    rewrite accumulate_app. reflexivity.
  - cbv beta iota. cbn [length]. rewrite app_nil_r.
    replace (Z.of_nat (length ids) + Z.of_nat 0) with (Z.of_nat (length ids))
      by lia.
    reflexivity.
Qed.

(** The scan up to the explicit exponent, with the loops replaced by what
    they compute. *)
Lemma scan_literal_unfold (cfg : config) (s : list byte)
    (options : parse_options) :
  scan_literal cfg s options =
  match read_sign cfg s options with
  | inl answer => inl answer
  | inr p0 =>
      let ids := digit_run (skipn p0 s) in
      let p1 := (p0 + length ids)%nat in
      let has_decimal_point :=
        negb (p1 =? length s)%nat &&
        Byte.eqb (deref s p1) (decimal_point options) in
      let fds := if has_decimal_point then digit_run (skipn (S p1) s) else [] in
      let p2 := if has_decimal_point then (S p1 + length fds)%nat else p1 in
      let answer :=
        set_integer (set_negative default_answer (Byte.eqb (deref s 0) "-"))
          {| ptr := Some p0; len := length ids |} in
      let answer :=
        if has_decimal_point
        then set_fraction answer {| ptr := Some (S p1); len := length fds |}
        else answer in
      let digit_count := Z.of_nat (length ids) + Z.of_nat (length fds) in
      if (digit_count =? 0) ||
         (is_json_rules (rules options) && has_decimal_point &&
          (digit_count =? 1))
      then inl answer
      else
        match read_exponent cfg s (format options) p2
                (- Z.of_nat (length fds)) with
        | None => inl answer
        | Some (p, exponent, exp_number) =>
            inr {| l_answer := answer; l_p := p;
                   l_i := accumulate (ids ++ fds) 0;
                   l_start_digits := p0;
                   l_end_of_integer_part := p1;
                   l_digit_count := digit_count;
                   l_exponent := exponent; l_exp_number := exp_number |}
        end
  end.
Proof.
  unfold scan_literal. rewrite read_digits_unfold.
  destruct (read_sign cfg s options) as [a | p0]; [reflexivity |].
  cbv zeta.
  match goal with
  | |- match (if ?c then _ else _) with _ => _ end = _ => destruct c
  end; reflexivity.
Qed.

(** [scan_literal] in terms of the digits read. *)
Lemma scan_literal_digits (cfg : config) (s : list byte)
    (options : parse_options) :
  scan_literal cfg s options =
  match read_sign cfg s options with
  | inl answer => inl answer
  | inr p0 =>
      let ids := integer_digits s p0 in
      let fds := fraction_digits s options p0 in
      let answer :=
        set_integer (set_negative default_answer (Byte.eqb (deref s 0) "-"))
          {| ptr := Some p0; len := length ids |} in
      let answer :=
        if has_point s options p0
        then set_fraction answer
               {| ptr := Some (S (p0 + length ids)); len := length fds |}
        else answer in
      let digit_count := Z.of_nat (length ids) + Z.of_nat (length fds) in
      if (digit_count =? 0) ||
         (is_json_rules (rules options) && has_point s options p0 &&
          (digit_count =? 1))
      then inl answer
      else
        match read_exponent cfg s (format options) (end_of_digits s options p0)
                (- Z.of_nat (length fds)) with
        | None => inl answer
        | Some (p, exponent, exp_number) =>
            inr {| l_answer := answer; l_p := p;
                   l_i := accumulate (ids ++ fds) 0;
                   l_start_digits := p0;
                   l_end_of_integer_part := (p0 + length ids)%nat;
                   l_digit_count := digit_count;
                   l_exponent := exponent; l_exp_number := exp_number |}
        end
  end.
Proof.
  rewrite scan_literal_unfold.
  destruct (read_sign cfg s options); reflexivity.
Qed.

Lemma exponent_loop_position (cfg : config) (rest : list byte) :
  forall exp_number p,
  snd (exponent_loop cfg rest exp_number p) =
  (p + length (digit_run rest))%nat.
Proof.
  induction rest as [| c rest IH]; intros exp_number p;
    cbn [exponent_loop digit_run].
  - cbn [snd length]. lia.
  - rewrite is_integer_ascii_digit. destruct (is_ascii_digit c).
    + rewrite IH. cbn [length]. lia.
    + cbn [snd length]. lia.
Qed.

Lemma digit_run_skipn_bound (s : list byte) (p : nat) :
  (p <= length s)%nat ->
  (p + length (digit_run (skipn p s)) <= length s)%nat.
Proof.
  intros Hp. pose proof (digit_run_length (skipn p s)) as H.
  rewrite length_skipn in H. lia.
Qed.

Lemma read_exponent_some (cfg : config) (s : list byte) (fmt : chars_format)
    (p : nat) (e : Z) (p' : nat) (e' en : Z) :
  (p <= length s)%nat ->
  read_exponent cfg s fmt p e = Some (p', e', en) ->
  (p <= p' <= length s)%nat /\ e' = e + en.
Proof.
  intros Hp. unfold read_exponent.
  destruct (scientific fmt && negb (p =? length s)%nat &&
            (Byte.eqb "e" (deref s p) || Byte.eqb "E" (deref s p))) eqn:Hmark.
  - apply andb_true_iff in Hmark. destruct Hmark as [Hmark _].
    apply andb_true_iff in Hmark. destruct Hmark as [_ Hne].
    apply negb_true_iff, Nat.eqb_neq in Hne.
    set (after_sign :=
      if negb (S p =? length s)%nat && Byte.eqb "-" (deref s (S p))
      then (true, S (S p))
      else if negb (S p =? length s)%nat && Byte.eqb "+" (deref s (S p))
      then (false, S (S p)) else (false, S p)).
    assert (Hq : (S p <= snd after_sign <= length s)%nat).
    { subst after_sign.
      destruct (Nat.eqb_spec (S p) (length s)); cbn [negb andb snd]; [lia |].
      destruct (Byte.eqb "-" (deref s (S p))); cbn [snd]; [lia |].
      destruct (Byte.eqb "+" (deref s (S p))); cbn [snd]; lia. }
    destruct after_sign as [neg_exp q]. cbn [snd] in Hq.
    destruct ((q =? length s)%nat || negb (is_integer cfg (deref s q))).
    + destruct (negb (fixed fmt)); [discriminate |].
      intros H. injection H as <- <- <-. lia.
    + pose proof (exponent_loop_position cfg (skipn q s) 0 q) as Hpos.
      destruct (exponent_loop cfg (skipn q s) 0 q) as [en0 q'].
      cbn [snd] in Hpos. intros H. injection H as <- <- <-.
      pose proof (digit_run_skipn_bound s q ltac:(lia)). lia.
  - destruct (scientific fmt && negb (fixed fmt)); [discriminate |].
    intros H. injection H as <- <- <-. lia.
Qed.

Lemma rejected_scanned (b : bool) (sp : byte_span) :
  rejected (set_integer (set_negative default_answer b) sp).
Proof. repeat split. Qed.

Lemma rejected_scanned_fraction (b : bool) (sp sp' : byte_span) :
  rejected (set_fraction (set_integer (set_negative default_answer b) sp) sp').
Proof. repeat split. Qed.

Lemma scan_literal_inl (cfg : config) (s : list byte) (options : parse_options)
    (a : parsed_number_string) :
  scan_literal cfg s options = inl a -> rejected a.
Proof.
  rewrite scan_literal_unfold.
  destruct (read_sign cfg s options) as [a0 | p0] eqn:Hsign.
  - intros H. injection H as <-. apply read_sign_inl in Hsign. subst a0.
    repeat split.
  - cbv zeta.
    destruct (negb (p0 + length (digit_run (skipn p0 s)) =? length s)%nat &&
              Byte.eqb (deref s (p0 + length (digit_run (skipn p0 s))))
                (decimal_point options));
    match goal with
    | |- (if ?c then _ else _) = _ -> _ => destruct c
    end;
    try (intros H; injection H as <-;
         first [apply rejected_scanned | apply rejected_scanned_fraction]);
    match goal with
    | |- match ?x with _ => _ end = _ -> _ => destruct x as [[[? ?] ?] |]
    end;
    try discriminate;
    intros H; injection H as <-;
    first [apply rejected_scanned | apply rejected_scanned_fraction].
Qed.

Lemma scan_literal_inr (cfg : config) (s : list byte) (options : parse_options)
    (l : locals) :
  scan_literal cfg s options = inr l ->
  rejected (l_answer l) /\
  (l_start_digits l <= l_end_of_integer_part l <= l_p l)%nat /\
  (0 < l_p l <= length s)%nat.
Proof.
  rewrite scan_literal_unfold.
  destruct (read_sign cfg s options) as [a0 | p0] eqn:Hsign; [discriminate |].
  apply read_sign_inr in Hsign. destruct Hsign as [_ Hp0].
  cbv zeta.
  pose proof (digit_run_skipn_bound s p0 Hp0) as Hp1.
  set (ids := digit_run (skipn p0 s)) in *.
  set (p1 := (p0 + length ids)%nat) in *.
  destruct (negb (p1 =? length s)%nat &&
            Byte.eqb (deref s p1) (decimal_point options)) eqn:Hdp.
  - apply andb_true_iff in Hdp. destruct Hdp as [Hne _].
    apply negb_true_iff, Nat.eqb_neq in Hne.
    pose proof (digit_run_skipn_bound s (S p1) ltac:(lia)) as Hp2.
    set (fds := digit_run (skipn (S p1) s)) in *.
    destruct ((Z.of_nat (length ids) + Z.of_nat (length fds) =? 0) || _);
      [discriminate |].
    destruct (read_exponent cfg s (format options) (S p1 + length fds)
                (- Z.of_nat (length fds))) as [[[p e] en] |] eqn:Hexp;
      [| discriminate].
    apply read_exponent_some in Hexp; [| lia].
    intros H. injection H as <-. cbn [l_answer l_p l_start_digits
      l_end_of_integer_part].
    split; [apply rejected_scanned_fraction | lia].
  - cbn [length]. rewrite andb_false_r, andb_false_l, orb_false_r.
    replace (Z.of_nat (length ids) + Z.of_nat 0) with (Z.of_nat (length ids))
      by lia.
    destruct (Z.eqb_spec (Z.of_nat (length ids)) 0) as [E | NE];
      [discriminate |].
    destruct (read_exponent cfg s (format options) p1 (- Z.of_nat 0))
      as [[[p e] en] |] eqn:Hexp; [| discriminate].
    apply read_exponent_some in Hexp; [| lia].
    intros H. injection H as <-. cbn [l_answer l_p l_start_digits
      l_end_of_integer_part].
    split; [apply rejected_scanned | lia].
Qed.

Lemma finish_literal_cases (cfg : config) (s : list byte)
    (options : parse_options) (l : locals) :
  let r := finish_literal cfg s options l in
  r = l_answer l \/
  (valid r = true /\ lastmatch r = Some (l_p l)).
Proof.
  unfold finish_literal. cbv zeta.
  destruct (is_json_rules (rules options) && _ && _ && _); [left; reflexivity |].
  right.
  destruct (19 <? l_digit_count l); [| split; reflexivity].
  match goal with
  | |- context [set_too_many_digits _ ?b] => destruct b
  end; [| split; reflexivity].
  destruct (truncated_value cfg s l). split; reflexivity.
Qed.

Lemma scan_literal_inr_inv (cfg : config) (s : list byte)
    (options : parse_options) (l : locals) :
  scan_literal cfg s options = inr l ->
  exists p0,
    read_sign cfg s options = inr p0 /\
    l_start_digits l = p0 /\
    l_end_of_integer_part l = (p0 + length (integer_digits s p0))%nat /\
    l_digit_count l =
      Z.of_nat (length (integer_digits s p0)) +
      Z.of_nat (length (fraction_digits s options p0)) /\
    l_digit_count l <> 0 /\
    l_i l = accumulate (integer_digits s p0 ++ fraction_digits s options p0) 0 /\
    integer (l_answer l) =
      {| ptr := Some p0; len := length (integer_digits s p0) |} /\
    fraction (l_answer l) =
      (if has_point s options p0
       then {| ptr := Some (S (p0 + length (integer_digits s p0)));
               len := length (fraction_digits s options p0) |}
       else empty_span) /\
    read_exponent cfg s (format options) (end_of_digits s options p0)
      (- Z.of_nat (length (fraction_digits s options p0))) =
      Some (l_p l, l_exponent l, l_exp_number l).
Proof.
  rewrite scan_literal_unfold.
  destruct (read_sign cfg s options) as [a0 | p0] eqn:Hsign; [discriminate |].
  cbv zeta. intros H. exists p0. split; [reflexivity |].
  unfold end_of_digits, fraction_digits, has_point, integer_digits.
  set (ids := digit_run (skipn p0 s)) in *.
  set (p1 := (p0 + length ids)%nat) in *.
  destruct (negb (p1 =? length s)%nat &&
            Byte.eqb (deref s p1) (decimal_point options)).
  - set (fds := digit_run (skipn (S p1) s)) in *.
    destruct (Z.eqb_spec (Z.of_nat (length ids) + Z.of_nat (length fds)) 0);
      [discriminate |]. cbn [orb] in H.
    destruct (is_json_rules (rules options) && true && _); [discriminate |].
    destruct (read_exponent cfg s (format options) (S p1 + length fds)
                (- Z.of_nat (length fds))) as [[[p e] en] |];
      [| discriminate].
    injection H as <-. cbn. repeat split. assumption.
  - destruct (Z.eqb_spec (Z.of_nat (length ids) + Z.of_nat (@length byte [])) 0);
      [discriminate |]. cbn [orb] in H.
    rewrite andb_false_r, andb_false_l in H.
    destruct (read_exponent cfg s (format options) p1
                (- Z.of_nat (@length byte []))) as [[[p e] en] |];
      [| discriminate].
    injection H as <-. cbn. repeat split. assumption.
Qed.

(** ** Inputs given by their parts *)

Lemma skipn_length_app {A : Type} (a b : list A) : skipn (length a) (a ++ b) = b.
Proof. rewrite skipn_app, skipn_all, Nat.sub_diag. reflexivity. Qed.

Lemma deref_length_app (a : list byte) (c : byte) (b : list byte) :
  deref (a ++ c :: b) (length a) = c.
Proof. unfold deref. apply nth_middle. Qed.

Lemma read_sign_structured (cfg : config) (sign : list byte) (c : byte)
    (rest : list byte) (options : parse_options) :
  is_sign cfg sign ->
  c <> "-"%byte -> c <> "+"%byte ->
  is_ascii_digit c = true \/
    (rules options = std_rules /\ c = decimal_point options) ->
  read_sign cfg (sign ++ c :: rest) options = inr (length sign).
Proof.
  intros Hsign Hm Hp Hc. unfold read_sign.
  assert (Hpass : negb (is_integer cfg c) &&
            (is_json_rules (rules options) ||
             negb (Byte.eqb c (decimal_point options))) = false).
  { rewrite is_integer_ascii_digit. destruct Hc as [Hc | [Hr Hc]].
    - rewrite Hc. reflexivity.
    - rewrite Hr, <- Hc. cbn [is_json_rules orb].
      rewrite (byte_dec_lb eq_refl). apply andb_false_r. }
  assert (Em : Byte.eqb c "-" = false)
    by (apply not_true_is_false; intros E; apply byte_dec_bl in E; contradiction).
  assert (Ep : Byte.eqb c "+" = false)
    by (apply not_true_is_false; intros E; apply byte_dec_bl in E; contradiction).
  destruct Hsign as [-> | [-> | [Hplus ->]]]; cbn [app length deref nth].
  - rewrite Em, Ep. destruct (FASTFLOAT_ALLOWS_LEADING_PLUS cfg); reflexivity.
  - cbn [Byte.eqb]. change (Byte.eqb "-" "-") with true.
    replace (if FASTFLOAT_ALLOWS_LEADING_PLUS cfg then true || Byte.eqb "-" "+"
             else true) with true
      by (destruct (FASTFLOAT_ALLOWS_LEADING_PLUS cfg); reflexivity).
    rewrite Hpass. reflexivity.
  - rewrite Hplus. change (Byte.eqb "+" "-" || Byte.eqb "+" "+") with true.
    cbv iota. rewrite Hpass. reflexivity.
Qed.

Lemma decimal_bounds (ds : list byte) :
  forallb is_ascii_digit ds = true ->
  forall i, 0 <= i ->
  i * 10 ^ Z.of_nat (length ds) <= decimal ds i <
  (i + 1) * 10 ^ Z.of_nat (length ds).
Proof.
  induction ds as [| c ds IH]; intros Hds i Hi.
  - unfold decimal. cbn [fold_left length]. change (10 ^ Z.of_nat 0) with 1. lia.
  - cbn [forallb] in Hds. apply andb_true_iff in Hds. destruct Hds as [Hc Hds].
    pose proof (digit_of_range c Hc) as Hd.
    unfold decimal. cbn [fold_left]. fold (decimal ds (10 * i + digit_of c)).
    specialize (IH Hds (10 * i + digit_of c) ltac:(lia)).
    cbn [length]. rewrite Nat2Z.inj_succ, Z.pow_succ_r by lia.
    assert (0 < 10 ^ Z.of_nat (length ds)) by (apply Z.pow_pos_nonneg; lia).
    nia.
Qed.

Lemma digit_run_all (ds : list byte) :
  forallb is_ascii_digit ds = true -> digit_run ds = ds.
Proof.
  intros H. rewrite <- (app_nil_r ds) at 1.
  rewrite digit_run_app by exact H. apply app_nil_r.
Qed.

Lemma strip_zeros_length (ds : list byte) :
  (length (strip_zeros ds) <= length ds)%nat.
Proof.
  induction ds as [| c ds IH]; cbn [strip_zeros length]; [lia |].
  destruct (Byte.eqb c "0"); cbn [length]; lia.
Qed.

Lemma strip_zeros_digits (ds : list byte) :
  forallb is_ascii_digit ds = true ->
  forallb is_ascii_digit (strip_zeros ds) = true.
Proof.
  induction ds as [| c ds IH]; cbn [strip_zeros forallb]; [reflexivity |].
  intros H. destruct (Byte.eqb c "0"); [| exact H].
  apply andb_true_iff in H. apply IH, H.
Qed.

Lemma decimal_strip_zeros (ds : list byte) :
  decimal (strip_zeros ds) 0 = decimal ds 0.
Proof.
  induction ds as [| c ds IH]; cbn [strip_zeros]; [reflexivity |].
  destruct (Byte.eqb c "0") eqn:Hc; [| reflexivity].
  apply byte_dec_bl in Hc. subst c. rewrite IH. reflexivity.
Qed.

Lemma accumulate_significant (ds : list byte) :
  forallb is_ascii_digit ds = true -> (length (strip_zeros ds) <= 19)%nat ->
  accumulate ds 0 = decimal ds 0.
Proof.
  intros Hds Hlen. rewrite accumulate_decimal by reflexivity.
  apply u64_small. rewrite <- decimal_strip_zeros.
  pose proof (decimal_bounds (strip_zeros ds) (strip_zeros_digits ds Hds) 0
                ltac:(lia)) as Hb.
  assert (10 ^ Z.of_nat (length (strip_zeros ds)) <= 10 ^ 19)
    by (apply Z.pow_le_mono_r; lia).
  lia.
Qed.

(** ** The correction pass *)

Lemma leading_zeros_loop_le (dp : byte) (rest : list byte) :
  forall dc, leading_zeros_loop dp rest dc <= dc.
Proof.
  induction rest as [| c rest IH]; intros dc; cbn [leading_zeros_loop]; [lia |].
  destruct (Byte.eqb c "0" || Byte.eqb c dp); [| lia].
  destruct (Byte.eqb c "0"); [specialize (IH (dc - 1)); lia | apply IH].
Qed.

Lemma firstn_digit_run (rest : list byte) :
  firstn (length (digit_run rest)) rest = digit_run rest.
Proof.
  destruct (digit_run_prefix rest) as [rest' E].
  rewrite E at 2. rewrite firstn_app, Nat.sub_diag, firstn_all, firstn_O.
  apply app_nil_r.
Qed.

Lemma decimal_app (ds ds' : list byte) (i : Z) :
  decimal (ds ++ ds') i = decimal ds' (decimal ds i).
Proof. unfold decimal. apply fold_left_app. Qed.

(** The truncating walk over a span of digits: it consumes [k] digits, stops
    once the running value has reached 10^18 or the span is exhausted, and
    never wraps around. *)
Lemma truncating_loop_spec (cfg : config) (span : list byte) :
  forallb is_ascii_digit span = true ->
  forall i p, 0 <= i < 10 ^ 19 ->
  exists k,
    (k <= length span)%nat /\
    truncating_loop cfg span i p = (decimal (firstn k span) i, (p + k)%nat) /\
    decimal (firstn k span) i < 10 ^ 19 /\
    (k = length span \/ 10 ^ 18 <= decimal (firstn k span) i) /\
    (forall j, (j < k)%nat -> decimal (firstn j span) i < 10 ^ 18).
Proof.
  induction span as [| c span IH]; intros Hds i p Hi.
  - exists 0%nat. cbn [truncating_loop firstn length].
    unfold decimal. cbn [fold_left]. rewrite Nat.add_0_r.
    repeat split; lia.
  - cbn [forallb] in Hds. apply andb_true_iff in Hds. destruct Hds as [Hc Hds].
    pose proof (digit_of_range c Hc) as Hd.
    cbn [truncating_loop]. unfold minimal_nineteen_digit_integer.
    change (10 ^ 18) with 1000000000000000000 in *.
    change (10 ^ 19) with 10000000000000000000 in *.
    destruct (Z.ltb_spec i 1000000000000000000) as [Hlt | Hge].
    + rewrite char_to_int_zero, (digit_char_plain cfg c Hc).
      rewrite u64_add_l, u64_add_r.
      fold (digit_of c). rewrite (u64_small (i * 10 + digit_of c))
        by (change (2 ^ 64) with 18446744073709551616; lia).
      destruct (IH Hds (i * 10 + digit_of c) (S p) ltac:(lia))
        as (k & Hk & Hloop & Hb & Hstop & Hbelow).
      exists (S k). cbn [firstn length].
      unfold decimal in *. cbn [fold_left].
      replace (10 * i + digit_of c) with (i * 10 + digit_of c) by ring.
      split; [lia |]. split; [rewrite Hloop; f_equal; lia |].
      split; [exact Hb |]. split; [destruct Hstop; [left; lia | right; assumption] |].
      intros [| j] Hj; cbn [firstn fold_left].
      * exact Hlt.
      * replace (10 * i + digit_of c) with (i * 10 + digit_of c) by ring.
        apply Hbelow. lia.
    + exists 0%nat. cbn [firstn]. unfold decimal. cbn [fold_left].
      rewrite Nat.add_0_r. repeat split; lia.
Qed.

Lemma finish_literal_spans (cfg : config) (s : list byte)
    (options : parse_options) (l : locals) :
  integer (finish_literal cfg s options l) = integer (l_answer l) /\
  fraction (finish_literal cfg s options l) = fraction (l_answer l).
Proof.
  unfold finish_literal. cbv zeta.
  destruct (is_json_rules (rules options) && _ && _ && _); [split; reflexivity |].
  destruct (19 <? l_digit_count l); [| split; reflexivity].
  match goal with
  | |- context [set_too_many_digits _ ?b] => destruct b
  end; [| split; reflexivity].
  destruct (truncated_value cfg s l). split; reflexivity.
Qed.

Lemma finish_literal_truncated (cfg : config) (s : list byte)
    (options : parse_options) (l : locals) :
  too_many_digits (l_answer l) = false ->
  too_many_digits (finish_literal cfg s options l) = true ->
  mantissa (finish_literal cfg s options l) = fst (truncated_value cfg s l) /\
  exponent (finish_literal cfg s options l) = snd (truncated_value cfg s l).
Proof.
  intros Hrej. unfold finish_literal. cbv zeta.
  destruct (is_json_rules (rules options) && _ && _ && _); [congruence |].
  destruct (19 <? l_digit_count l); [| cbn; congruence].
  match goal with
  | |- context [set_too_many_digits _ ?b] => destruct b
  end; [| cbn; congruence].
  destruct (truncated_value cfg s l). intros _. split; reflexivity.
Qed.

Lemma scanned_spans (cfg : config) (s : list byte) (options : parse_options)
    (l : locals) :
  scan_literal cfg s options = inr l ->
  exists p0,
    span_ptr (integer (l_answer l)) = p0 /\
    len (integer (l_answer l)) = length (integer_digits s p0) /\
    l_end_of_integer_part l = (p0 + length (integer_digits s p0))%nat /\
    span_bytes s (integer (l_answer l)) = integer_digits s p0 /\
    span_bytes s (fraction (l_answer l)) = fraction_digits s options p0.
Proof.
  intros Hscan. apply scan_literal_inr_inv in Hscan.
  destruct Hscan as (p0 & _ & _ & Hend & _ & _ & _ & Hint & Hfrac & _).
  exists p0. rewrite Hint, Hfrac. unfold span_ptr, span_bytes. cbn [ptr len].
  repeat split; try assumption.
  - apply firstn_digit_run.
  - unfold fraction_digits. destruct (has_point s options p0); cbn [ptr len].
    + apply firstn_digit_run.
    + reflexivity.
Qed.

Lemma finish_literal_valid (cfg : config) (s : list byte)
    (options : parse_options) (l : locals) :
  valid (l_answer l) = false ->
  valid (finish_literal cfg s options l) = true ->
  lastmatch (finish_literal cfg s options l) = Some (l_p l) /\
  too_many_digits (finish_literal cfg s options l) =
    (if 19 <? l_digit_count l
     then
       let digit_count :=
         leading_zeros_loop (decimal_point options)
           (skipn (l_start_digits l) s) (l_digit_count l) in
       if is_json_rules (rules options) && parse_ints options &&
          (l_p l =? l_end_of_integer_part l)%nat
       then (20 <? digit_count) || (l_i l <? minimal_twenty_digit_integer)
       else 19 <? digit_count
     else too_many_digits (l_answer l)).
Proof.
  intros Hinv. unfold finish_literal. cbv zeta.
  destruct (is_json_rules (rules options) && _ && _ && _); [congruence |].
  intros _.
  destruct (19 <? l_digit_count l); [| split; reflexivity].
  cbn [is_64bit_int set_matched].
  match goal with
  | |- context [set_too_many_digits _ ?b] => destruct b
  end; [| split; reflexivity].
  destruct (truncated_value cfg s l). split; reflexivity.
Qed.

Lemma digits_end_inv (cfg : config) (s : list byte) (options : parse_options)
    (pe : nat) :
  digits_end cfg s options = Some pe ->
  exists p0,
    read_sign cfg s options = inr p0 /\
    end_of_digits s options p0 = pe /\
    Z.of_nat (length (integer_digits s p0)) +
    Z.of_nat (length (fraction_digits s options p0)) <> 0.
Proof.
  unfold digits_end. rewrite read_digits_unfold.
  destruct (read_sign cfg s options) as [a | p0]; [discriminate |].
  cbv zeta. intros H. exists p0. split; [reflexivity |].
  unfold end_of_digits, fraction_digits, has_point, integer_digits.
  set (ids := digit_run (skipn p0 s)) in *.
  set (hp := negb (p0 + length ids =? length s)%nat &&
             Byte.eqb (deref s (p0 + length ids)) (decimal_point options)) in *.
  set (fds := if hp then digit_run (skipn (S (p0 + length ids)) s) else []) in *.
  destruct (Z.eqb_spec (Z.of_nat (length ids) + Z.of_nat (length fds)) 0)
    as [E | NE]; [discriminate |].
  cbn [orb] in H.
  destruct (is_json_rules (rules options) && hp &&
            (Z.of_nat (length ids) + Z.of_nat (length fds) =? 1));
    [discriminate |].
  injection H as <-. split; [| exact NE].
  subst fds. destruct hp; reflexivity.
Qed.

(** ** A dangling exponent marker *)

Lemma skipn_cons_inv (s : list byte) (p : nat) (c : byte) (rest : list byte) :
  skipn p s = c :: rest ->
  (p < length s)%nat /\ deref s p = c /\ skipn (S p) s = rest.
Proof.
  revert s. induction p as [| p IH]; intros s H.
  - destruct s as [| c0 s]; [discriminate |]. cbn [skipn] in H.
    injection H as -> ->. cbn [length]. repeat split. lia.
  - destruct s as [| c0 s]; [discriminate |]. cbn [skipn] in H.
    destruct (IH s H) as (Hlt & Hd & Hs). cbn [length].
    split; [lia |]. split; assumption.
Qed.

Lemma skipn_nil_inv (s : list byte) (p : nat) :
  skipn p s = [] -> (length s <= p)%nat.
Proof.
  intros H. pose proof (length_skipn p s) as L. rewrite H in L.
  cbn [length] in L. lia.
Qed.

Lemma read_exponent_dangling (cfg : config) (s : list byte)
    (fmt : chars_format) (pe : nat) (e : byte) (tail : list byte) (ex : Z) :
  scientific fmt = true ->
  skipn pe s = e :: tail -> e = "e"%byte \/ e = "E"%byte ->
  exponent_digit_follows tail = false ->
  read_exponent cfg s fmt pe ex =
  if fixed fmt then Some (pe, ex, 0) else None.
Proof.
  intros Hsci Hskip He Hnd.
  destruct (skipn_cons_inv s pe e tail Hskip) as (Hlt & Hd & Htail).
  unfold read_exponent. rewrite Hsci, Hd.
  replace (pe =? length s)%nat with false
    by (symmetry; apply Nat.eqb_neq; lia).
  replace (Byte.eqb "e" e || Byte.eqb "E" e) with true
    by (destruct He as [-> | ->]; reflexivity).
  cbn [negb andb].
  assert (Hgoal : forall neg_exp q,
    (q <= length s)%nat ->
    match skipn q s with c :: _ => is_ascii_digit c | [] => false end = false ->
    (if (q =? length s)%nat || negb (is_integer cfg (deref s q))
     then if negb (fixed fmt) then None else Some (pe, ex, 0)
     else
       let '(exp_number, p) := exponent_loop cfg (skipn q s) 0 q in
       let exp_number := if (neg_exp : bool) then - exp_number else exp_number in
       Some (p, ex + exp_number, exp_number)) =
    if fixed fmt then Some (pe, ex, 0) else None).
  { intros neg_exp q Hq Hc.
    replace ((q =? length s)%nat || negb (is_integer cfg (deref s q)))
      with true; [destruct (fixed fmt); reflexivity |].
    symmetry. destruct (skipn q s) as [| c r] eqn:Hsk.
    - apply skipn_nil_inv in Hsk.
      replace (q =? length s)%nat with true
        by (symmetry; apply Nat.eqb_eq; lia).
      reflexivity.
    - apply skipn_cons_inv in Hsk. destruct Hsk as (_ & Hdq & _).
      rewrite is_integer_ascii_digit, Hdq, Hc. apply orb_true_r. }
  unfold exponent_digit_follows in Hnd.
  destruct tail as [| c t].
  - apply skipn_nil_inv in Htail.
    replace (S pe =? length s)%nat with true
      by (symmetry; apply Nat.eqb_eq; lia).
    cbn [negb andb]. apply (Hgoal false (S pe)); [lia |].
    rewrite skipn_all2 by lia. reflexivity.
  - destruct (skipn_cons_inv s (S pe) c t Htail) as (Hlt' & Hd' & Ht).
    replace (S pe =? length s)%nat with false
      by (symmetry; apply Nat.eqb_neq; lia).
    cbn [negb andb]. rewrite Hd'.
    destruct (Byte.eqb "-" c).
    + apply (Hgoal true (S (S pe))); [lia |]. rewrite Ht. exact Hnd.
    + destruct (Byte.eqb "+" c).
      * apply (Hgoal false (S (S pe))); [lia |]. rewrite Ht. exact Hnd.
      * apply (Hgoal false (S pe)); [lia |]. rewrite Htail. exact Hnd.
Qed.

Lemma read_exponent_at_end (cfg : config) (s : list byte)
    (fmt : chars_format) (ex : Z) :
  read_exponent cfg s fmt (length s) ex =
  if scientific fmt && negb (fixed fmt) then None else Some (length s, ex, 0).
Proof.
  unfold read_exponent. rewrite Nat.eqb_refl. cbn [negb].
  rewrite andb_false_r. cbn [andb]. reflexivity.
Qed.

(** ** The input cut at an offset *)

Lemma deref_firstn (s : list byte) (n p : nat) :
  (p < n)%nat -> deref (firstn n s) p = deref s p.
Proof.
  intros H. unfold deref. rewrite nth_firstn.
  destruct (Nat.ltb_spec p n); [reflexivity | lia].
Qed.

Lemma digit_run_firstn (rest : list byte) (k : nat) :
  (length (digit_run rest) <= k)%nat ->
  digit_run (firstn k rest) = digit_run rest.
Proof.
  revert k. induction rest as [| c rest IH]; intros k Hk.
  - rewrite firstn_nil. reflexivity.
  - cbn [digit_run] in *. destruct (is_ascii_digit c) eqn:Hc.
    + destruct k as [| k]; [cbn [length] in Hk; lia |].
      cbn [firstn digit_run]. rewrite Hc. f_equal. apply IH.
      cbn [length] in Hk. lia.
    + destruct k as [| k]; [reflexivity |].
      cbn [firstn digit_run]. rewrite Hc. reflexivity.
Qed.

Lemma digit_run_skipn_firstn (s : list byte) (p n : nat) :
  (p + length (digit_run (skipn p s)) <= n)%nat ->
  digit_run (skipn p (firstn n s)) = digit_run (skipn p s).
Proof.
  intros H. rewrite skipn_firstn_comm. apply digit_run_firstn. lia.
Qed.

Lemma cut_length (s : list byte) (pe : nat) :
  (pe < length s)%nat -> length (firstn pe s) = pe.
Proof. intros H. apply firstn_length_le. lia. Qed.

Lemma skipn_deref (s : list byte) (p : nat) :
  (p < length s)%nat -> skipn p s = deref s p :: skipn (S p) s.
Proof.
  revert s. induction p as [| p IH]; intros s Hp.
  - destruct s; [cbn [length] in Hp; lia | reflexivity].
  - destruct s as [| c s]; [cbn [length] in Hp; lia |].
    cbn [length] in Hp. cbn [skipn]. rewrite IH by lia. reflexivity.
Qed.

(** ** The leading-zero loop on the cut input *)

Lemma leading_zeros_loop_app (dp : byte) (a b : list byte) :
  forall dc,
  leading_zeros_loop dp (a ++ b) dc =
  if forallb (zero_or_point dp) a
  then leading_zeros_loop dp b (leading_zeros_loop dp a dc)
  else leading_zeros_loop dp a dc.
Proof.
  induction a as [| c a IH]; intros dc; [reflexivity |].
  cbn [app leading_zeros_loop forallb]. unfold zero_or_point at 1.
  destruct (Byte.eqb c "0" || Byte.eqb c dp); [| reflexivity].
  cbn [andb]. apply IH.
Qed.

Lemma leading_zeros_loop_all (dp : byte) (a : list byte) :
  is_ascii_digit dp = false ->
  forallb (zero_or_point dp) a = true ->
  forall dc,
  leading_zeros_loop dp a dc =
  dc - Z.of_nat (length (filter is_ascii_digit a)).
Proof.
  intros Hdp. induction a as [| c a IH]; intros Hall dc.
  - cbn. lia.
  - cbn [forallb] in Hall. apply andb_true_iff in Hall.
    destruct Hall as [Hc Ha]. cbn [leading_zeros_loop filter].
    unfold zero_or_point in Hc. rewrite Hc.
    destruct (Byte.eqb c "0") eqn:Hz.
    + apply byte_dec_bl in Hz. subst c.
      change (is_ascii_digit "0") with true. cbn [length].
      rewrite IH by exact Ha. lia.
    + cbn [orb] in Hc. apply byte_dec_bl in Hc. subst c.
      rewrite Hdp. apply IH. exact Ha.
Qed.

Lemma filter_digits_all (ds : list byte) :
  forallb is_ascii_digit ds = true -> filter is_ascii_digit ds = ds.
Proof.
  induction ds as [| c ds IH]; [reflexivity |].
  cbn [forallb filter]. intros H. apply andb_true_iff in H.
  destruct H as [Hc Hds]. rewrite Hc, IH by exact Hds. reflexivity.
Qed.

Lemma fraction_digits_digits (s : list byte) (options : parse_options)
    (p0 : nat) :
  forallb is_ascii_digit (fraction_digits s options p0) = true.
Proof.
  unfold fraction_digits.
  destruct (has_point s options p0); [apply digit_run_digits | reflexivity].
Qed.

(** The bytes between the sign and the end of the digits. *)
Lemma digits_region (s : list byte) (options : parse_options) (p0 : nat) :
  (p0 <= length s)%nat ->
  firstn (end_of_digits s options p0 - p0) (skipn p0 s) =
  integer_digits s p0 ++
  (if has_point s options p0
   then decimal_point options :: fraction_digits s options p0
   else []).
Proof.
  intros Hp0. unfold end_of_digits, fraction_digits.
  destruct (digit_run_prefix (skipn p0 s)) as [r Er].
  fold (integer_digits s p0) in Er.
  set (ids := integer_digits s p0) in *.
  destruct (has_point s options p0) eqn:Hpt.
  - unfold has_point in Hpt. fold ids in Hpt.
    apply andb_true_iff in Hpt. destruct Hpt as [Hne Hdp].
    apply negb_true_iff, Nat.eqb_neq in Hne. apply byte_dec_bl in Hdp.
    assert (Hp1 : (p0 + length ids < length s)%nat).
    { pose proof (digit_run_skipn_bound s p0 Hp0). fold (integer_digits s p0) in *.
      fold ids in H. lia. }
    pose proof (skipn_deref s (p0 + length ids) Hp1) as E1.
    rewrite skipn_add, Er, skipn_length_app in E1.
    rewrite Hdp in E1.
    destruct (digit_run_prefix (skipn (S (p0 + length ids)) s)) as [r' Er'].
    set (fds := digit_run (skipn (S (p0 + length ids)) s)) in *.
    rewrite Er, E1, Er'.
    replace (S (p0 + length ids) + length fds - p0)%nat
      with (length ids + (S (length fds)))%nat by lia.
    rewrite firstn_app_2. f_equal.
    cbn [firstn]. f_equal.
    rewrite <- (Nat.add_0_r (length fds)), firstn_app_2, firstn_O.
    apply app_nil_r.
  - replace (p0 + length ids - p0)%nat with (length ids + 0)%nat by lia.
    rewrite Er, firstn_app_2, firstn_O. reflexivity.
Qed.

Lemma leading_zeros_cut (s : list byte) (options : parse_options)
    (p0 pe : nat) (e : byte) (tail : list byte) :
  (p0 <= length s)%nat ->
  end_of_digits s options p0 = pe ->
  skipn pe s = e :: tail -> e = "e"%byte \/ e = "E"%byte ->
  let dc := Z.of_nat (length (integer_digits s p0)) +
            Z.of_nat (length (fraction_digits s options p0)) in
  let zs := leading_zeros_loop (decimal_point options) (skipn p0 s) dc in
  let zt :=
    leading_zeros_loop (decimal_point options) (skipn p0 (firstn pe s)) dc in
  zs = zt \/ (zs <= 0 /\ zt <= 0).
Proof.
  intros Hp0 Hend Hskip He dc zs zt.
  assert (Hle : (p0 <= pe)%nat).
  { subst pe. unfold end_of_digits. destruct (has_point s options p0); lia. }
  pose proof (digits_region s options p0 Hp0) as Hreg. rewrite Hend in Hreg.
  assert (Esplit : skipn p0 s = skipn p0 (firstn pe s) ++ e :: tail).
  { rewrite skipn_firstn_comm, <- Hskip.
    replace pe with (p0 + (pe - p0))%nat at 2 by lia.
    rewrite skipn_add. symmetry. apply firstn_skipn. }
  subst zs zt. rewrite skipn_firstn_comm in *.
  set (a := firstn (pe - p0) (skipn p0 s)) in *.
  rewrite Esplit, leading_zeros_loop_app.
  destruct (forallb (zero_or_point (decimal_point options)) a) eqn:Hall;
    [| left; reflexivity].
  cbn [leading_zeros_loop].
  replace (Byte.eqb e "0") with false
    by (destruct He as [-> | ->]; reflexivity).
  cbn [orb]. cbv iota.
  destruct (Byte.eqb e (decimal_point options)) eqn:Hdp; [| left; reflexivity].
  right. apply byte_dec_bl in Hdp.
  assert (Hnd : is_ascii_digit (decimal_point options) = false)
    by (rewrite <- Hdp; destruct He as [-> | ->]; reflexivity).
  assert (Ea : leading_zeros_loop (decimal_point options) a dc = 0).
  { rewrite leading_zeros_loop_all by assumption.
    rewrite Hreg, filter_app.
    rewrite filter_digits_all by apply digit_run_digits.
    replace (filter is_ascii_digit
               (if has_point s options p0
                then decimal_point options :: fraction_digits s options p0
                else []))
      with (fraction_digits s options p0).
    2:{ unfold fraction_digits. destruct (has_point s options p0);
          [| reflexivity].
        cbn [filter]. rewrite Hnd.
        symmetry. apply filter_digits_all, digit_run_digits. }
    rewrite length_app, Nat2Z.inj_add. subst dc. ring. }
  rewrite Ea.
  pose proof (leading_zeros_loop_le (decimal_point options) tail 0). lia.
Qed.

Lemma span_bytes_cut (s : list byte) (pe : nat) (sp : byte_span) :
  (span_ptr sp + len sp <= pe)%nat ->
  span_bytes (firstn pe s) sp = span_bytes s sp.
Proof.
  unfold span_bytes, span_ptr. destruct (ptr sp) as [q |]; [| reflexivity].
  intros H. rewrite skipn_firstn_comm, firstn_firstn. f_equal. lia.
Qed.

Lemma truncated_value_cut (cfg : config) (s : list byte) (pe : nat)
    (l : locals) :
  (span_ptr (integer (l_answer l)) + len (integer (l_answer l)) <= pe)%nat ->
  (span_ptr (fraction (l_answer l)) + len (fraction (l_answer l)) <= pe)%nat ->
  truncated_value cfg (firstn pe s) l = truncated_value cfg s l.
Proof.
  intros Hi Hf. unfold truncated_value.
  rewrite !span_bytes_cut by assumption. reflexivity.
Qed.

Lemma finish_literal_cut (cfg : config) (s : list byte)
    (options : parse_options) (l : locals) (pe : nat) (e : byte)
    (tail : list byte) :
  scan_literal cfg s options = inr l ->
  digits_end cfg s options = Some pe ->
  skipn pe s = e :: tail -> e = "e"%byte \/ e = "E"%byte ->
  finish_literal cfg (firstn pe s) options l = finish_literal cfg s options l.
Proof.
  intros Hscan Hde Hskip He.
  apply scan_literal_inr_inv in Hscan.
  destruct Hscan
    as (p0 & Hsign & Hstart & Hend & Hcount & Hnz & _ & Hspan & Hfspan & _).
  destruct (digits_end_inv cfg s options pe Hde) as (q0 & Hq0 & Hpe & _).
  rewrite Hsign in Hq0. injection Hq0 as <-.
  pose proof (read_sign_inr cfg s options p0 Hsign) as [_ Hp0].
  pose proof (leading_zeros_cut s options p0 pe e tail Hp0 Hpe Hskip He) as Hz.
  cbv zeta in Hz. rewrite <- Hcount in Hz.
  assert (Hbound : (p0 + Z.to_nat (l_digit_count l) <= pe)%nat).
  { subst pe. unfold end_of_digits. rewrite Hcount.
    unfold fraction_digits. destruct (has_point s options p0);
      cbn [length]; lia. }
  assert (Hcond :
    is_json_rules (rules options) &&
    Byte.eqb (deref (firstn pe s) (l_start_digits l)) "0" &&
    (2 <=? l_digit_count l) &&
    is_integer cfg (deref (firstn pe s) (S (l_start_digits l))) =
    is_json_rules (rules options) &&
    Byte.eqb (deref s (l_start_digits l)) "0" &&
    (2 <=? l_digit_count l) &&
    is_integer cfg (deref s (S (l_start_digits l)))).
  { rewrite Hstart. rewrite (deref_firstn s pe p0) by lia.
    destruct (Z.leb_spec 2 (l_digit_count l)) as [H2 | H2].
    - rewrite (deref_firstn s pe (S p0)) by lia. reflexivity.
    - rewrite !andb_false_r. reflexivity. }
  assert (Htrunc : truncated_value cfg (firstn pe s) l = truncated_value cfg s l).
  { apply truncated_value_cut.
    - rewrite Hspan. unfold span_ptr. cbn [ptr len]. lia.
    - rewrite Hfspan. clear Hz Hbound Hcond Hskip. subst pe.
      unfold span_ptr, end_of_digits.
      destruct (has_point s options p0); cbn [ptr len empty_span]; lia. }
  unfold finish_literal. cbv zeta. rewrite Hcond, Htrunc, Hstart.
  destruct (is_json_rules (rules options) &&
            Byte.eqb (deref s p0) "0" && (2 <=? l_digit_count l) &&
            is_integer cfg (deref s (S p0))); [reflexivity |].
  destruct (19 <? l_digit_count l); [| reflexivity].
  set (zs := leading_zeros_loop (decimal_point options) (skipn p0 s)
               (l_digit_count l)) in *.
  set (zt := leading_zeros_loop (decimal_point options)
               (skipn p0 (firstn pe s)) (l_digit_count l)) in *.
  assert (E20 : (20 <? zt) = (20 <? zs)).
  { destruct Hz as [-> | [Hs Ht]]; [reflexivity |].
    destruct (Z.ltb_spec 20 zt), (Z.ltb_spec 20 zs); try reflexivity; lia. }
  assert (E19 : (19 <? zt) = (19 <? zs)).
  { destruct Hz as [-> | [Hs Ht]]; [reflexivity |].
    destruct (Z.ltb_spec 19 zt), (Z.ltb_spec 19 zs); try reflexivity; lia. }
  rewrite E20, E19. reflexivity.
Qed.

Lemma read_digits_inr (cfg : config) (s : list byte) (options : parse_options)
    (l : locals) :
  read_digits cfg s options = inr l ->
  l_exp_number l = 0 /\ rejected (l_answer l).
Proof.
  rewrite read_digits_unfold.
  destruct (read_sign cfg s options) as [a | p0]; [discriminate |].
  cbv zeta.
  match goal with
  | |- (if ?c then _ else _) = _ -> _ => destruct c; [discriminate |]
  end.
  intros H. injection H as <-. cbn [l_exp_number l_answer].
  split; [reflexivity |].
  match goal with
  | |- rejected (if ?c then _ else _) => destruct c
  end; [apply rejected_scanned_fraction | apply rejected_scanned].
Qed.

Lemma finish_literal_valid_iff (cfg : config) (s : list byte)
    (options : parse_options) (l : locals) :
  valid (l_answer l) = false ->
  valid (finish_literal cfg s options l) =
  negb (is_json_rules (rules options) &&
        Byte.eqb (deref s (l_start_digits l)) "0" &&
        (2 <=? l_digit_count l) &&
        is_integer cfg (deref s (S (l_start_digits l)))).
Proof.
  intros Hinv. unfold finish_literal. cbv zeta.
  destruct (is_json_rules (rules options) && _ && _ && _);
    [exact Hinv |].
  cbn [negb].
  destruct (19 <? l_digit_count l); [| reflexivity].
  match goal with
  | |- context [set_too_many_digits _ ?b] => destruct b
  end; [| reflexivity].
  destruct (truncated_value cfg s l). reflexivity.
Qed.

Lemma read_u64_paths_agree (cfg : config) (chars : list byte) :
  (forall k, (k < 8)%nat ->
     char_is_signed cfg = false \/ byte_val (deref chars k) < 0x80) ->
  read_u64_constexpr cfg chars = read_u64_runtime cfg chars.
Proof.
  intros H. rewrite read_u64_runtime_canonical.
  apply read_u64_constexpr_canonical. intros k Hk. unfold char_to_int.
  destruct (H k Hk) as [-> | Hlt]; [reflexivity |].
  destruct (Z.leb_spec 128 (byte_val (deref chars k))); [lia |].
  rewrite andb_false_r. reflexivity.
Qed.

(** * The properties of the specification *)

(** ** The SWAR digit primitives *)

(** C3.  For every 64-bit word, [is_made_of_eight_digits_fast] returns true
    if and only if each of the eight byte lanes of the word holds an ASCII
    digit, ['0'] (0x30) to ['9'] (0x39). *)
Theorem is_made_of_eight_digits_fast_spec (val : Z) :
  0 <= val < 2 ^ 64 ->
  (is_made_of_eight_digits_fast val = true <->
   forall k, (k < 8)%nat -> 0x30 <= byte_lane val k <= 0x39).
Proof.
  intros Hval.
  rewrite is_made_of_eight_digits_fast_test, digits_test_lanes by exact Hval.
  rewrite lanes_are_digits_spec.
  split; intros H k Hk; specialize (H k Hk); unfold is_digit_value in *.
  - apply andb_true_iff in H. destruct H as [H1 H2].
    apply Z.leb_le in H1, H2. lia.
  - apply andb_true_iff. split; apply Z.leb_le; lia.
Qed.

(** C3 at the word whose bytes are "12345678". *)
Lemma is_made_of_eight_digits_fast_spec_witness :
  0 <= 0x3837363534333231 < 2 ^ 64 /\
  (is_made_of_eight_digits_fast 0x3837363534333231 = true <->
   forall k, (k < 8)%nat -> 0x30 <= byte_lane 0x3837363534333231 k <= 0x39).
Proof.
  split; [lia |]. apply (is_made_of_eight_digits_fast_spec 0x3837363534333231).
  lia.
Defined.

(** C4.  For every 64-bit word whose eight byte lanes are ASCII digits,
    [parse_eight_digits_unrolled] returns the decimal value of the digits in
    memory order: the sum over lanes [k] of the digit of lane [k] times
    [10^(7-k)]. *)
Theorem parse_eight_digits_unrolled_spec (val : Z) :
  0 <= val < 2 ^ 64 ->
  (forall k, (k < 8)%nat -> 0x30 <= byte_lane val k <= 0x39) ->
  parse_eight_digits_unrolled val = eight_digits_value val.
Proof.
  intros Hval Hd.
  pose proof (le_word_lanes 8 val Hval) as E.
  pose proof (word_lanes_byte_lane 8 val 0) as L.
  simpl Z.of_nat in L. rewrite Z.pow_0_r, Z.div_1_r in L.
  rewrite L in E. cbn [seq map Nat.add] in E.
  pose proof (Hd 0%nat ltac:(lia)). pose proof (Hd 1%nat ltac:(lia)).
  pose proof (Hd 2%nat ltac:(lia)). pose proof (Hd 3%nat ltac:(lia)).
  pose proof (Hd 4%nat ltac:(lia)). pose proof (Hd 5%nat ltac:(lia)).
  pose proof (Hd 6%nat ltac:(lia)). pose proof (Hd 7%nat ltac:(lia)).
  unfold eight_digits_value. cbn [seq map fold_right].
  set (l0 := byte_lane val 0) in *. set (l1 := byte_lane val 1) in *.
  set (l2 := byte_lane val 2) in *. set (l3 := byte_lane val 3) in *.
  set (l4 := byte_lane val 4) in *. set (l5 := byte_lane val 5) in *.
  set (l6 := byte_lane val 6) in *. set (l7 := byte_lane val 7) in *.
  rewrite <- E.
  replace l0 with (0x30 + (l0 - 0x30)) at 1 by ring.
  replace l1 with (0x30 + (l1 - 0x30)) at 1 by ring.
  replace l2 with (0x30 + (l2 - 0x30)) at 1 by ring.
  replace l3 with (0x30 + (l3 - 0x30)) at 1 by ring.
  replace l4 with (0x30 + (l4 - 0x30)) at 1 by ring.
  replace l5 with (0x30 + (l5 - 0x30)) at 1 by ring.
  replace l6 with (0x30 + (l6 - 0x30)) at 1 by ring.
  replace l7 with (0x30 + (l7 - 0x30)) at 1 by ring.
  rewrite parse_eight_digits_unrolled_digits by lia.
  simpl Z.of_nat. simpl Z.sub. 
  change (10 ^ 7) with 10000000. change (10 ^ 6) with 1000000.
  change (10 ^ 5) with 100000. change (10 ^ 4) with 10000.
  change (10 ^ 3) with 1000. change (10 ^ 2) with 100.
  change (10 ^ 1) with 10. change (10 ^ 0) with 1. ring.
Qed.

(** C4 at the word whose bytes are "12345678". *)
Lemma parse_eight_digits_unrolled_spec_witness :
  0 <= 0x3837363534333231 < 2 ^ 64 /\
  parse_eight_digits_unrolled 0x3837363534333231 =
  eight_digits_value 0x3837363534333231.
Proof.
  split; [lia |].
  apply (parse_eight_digits_unrolled_spec 0x3837363534333231); [lia |].
  intros k Hk.
  do 8 (destruct k as [| k]; [vm_compute; split; discriminate |]). lia.
Defined.

(** The value that both sides of C4 take there. *)
Example parse_eight_digits_unrolled_12345678 :
  parse_eight_digits_unrolled 0x3837363534333231 = 12345678 /\
  eight_digits_value 0x3837363534333231 = 12345678.
Proof. split; reflexivity. Qed.

(** ** The word load *)

(** C5.  The two paths of [read_u64] are meant to return the same word for
    every eight bytes.  Where plain [char] is signed they do not: the
    constant-evaluated path converts [*chars] to [uint64_t] without going
    through [unsigned char], so a byte above 0x7F is sign-extended and sets
    every higher bit of the result.  On the bytes [80 30 30 30 30 30 30 30]
    the constant-evaluated path returns 0xFFFFFFFFFFFFFF80 and the [memcpy]
    path 0x3030303030303080. *)
Theorem read_u64_paths_differ :
  let chars := [x80; x30; x30; x30; x30; x30; x30; x30] in
  read_u64_constexpr signed_char_config chars = 0xFFFFFFFFFFFFFF80 /\
  read_u64_runtime signed_char_config chars = 0x3030303030303080 /\
  read_u64_constexpr signed_char_config chars <>
  read_u64_runtime signed_char_config chars.
Proof. vm_compute. repeat split; discriminate. Qed.

(** ** The scanner *)

(** C1, amended.  The twenty-digit threshold is applied only under the json
    rules.  For every valid scan under the json rules with [parse_ints] set
    whose literal is a pure integer ([lastmatch] is the end of the integer
    span) and whose digit count after the trimming of leading zeros exceeds
    19, [too_many_digits] is set if and only if that count exceeds 20 or the
    accumulated value is below 10^19.  Scanning "18446744073709551615" under
    the json rules, with [parse_ints] set and fixed notation allowed, gives a
    valid result with [too_many_digits] false, [is_64bit_int] true and the
    mantissa 18446744073709551615. *)
Theorem exact_integer_threshold :
  (forall cfg s options,
     let r := parse_number_string cfg s options in
     rules options = json_rules -> parse_ints options = true ->
     valid r = true ->
     lastmatch r = Some (span_ptr (integer r) + len (integer r))%nat ->
     19 < significant_digit_count s options r ->
     (too_many_digits r = true <->
      20 < significant_digit_count s options r \/
      accumulate (span_bytes s (integer r)) 0 < 10 ^ 19)) /\
  (forall cfg fmt dp,
     fixed fmt = true ->
     let r := parse_number_string cfg
                (list_byte_of_string "18446744073709551615")
                {| format := fmt; rules := json_rules; parse_ints := true;
                   decimal_point := dp |} in
     valid r = true /\ too_many_digits r = false /\ is_64bit_int r = true /\
     mantissa r = 18446744073709551615).
Proof.
  split.
  - intros cfg s options. cbv zeta. unfold significant_digit_count.
    unfold parse_number_string.
    destruct (scan_literal cfg s options) as [a | l] eqn:Hscan.
    { apply scan_literal_inl in Hscan. destruct Hscan as [Hv _]. congruence. }
    intros Hjson Hints Hvalid.
    pose proof (scan_literal_inr cfg s options l Hscan) as ((Hinv & _) & _ & _).
    destruct (finish_literal_valid cfg s options l Hinv Hvalid) as [Hm Htoo].
    destruct (finish_literal_spans cfg s options l) as [Ei Ef].
    apply scan_literal_inr_inv in Hscan.
    destruct Hscan
      as (p0 & Hsign & Hstart & Hend & Hcount & _ & Hi & Hspan & Hfspan & Hexp).
    rewrite Htoo, Hm, Ei, Ef, Hspan, Hfspan. clear Htoo Hm Ei Ef.
    unfold span_ptr, span_bytes. cbn [ptr len].
    intros Hlast. injection Hlast as Hlast.
    assert (Hnp : has_point s options p0 = false).
    { destruct (has_point s options p0) eqn:Hpt; [| reflexivity].
      apply read_sign_inr in Hsign.
      assert (Hbound : (end_of_digits s options p0 <= length s)%nat).
      { unfold end_of_digits, fraction_digits. rewrite Hpt.
        unfold has_point in Hpt.
        apply andb_true_iff in Hpt. destruct Hpt as [Hne _].
        apply negb_true_iff, Nat.eqb_neq in Hne.
        unfold integer_digits in *.
        pose proof (digit_run_skipn_bound s p0).
        pose proof (digit_run_skipn_bound s
                      (S (p0 + length (digit_run (skipn p0 s))))).
        lia. }
      apply read_exponent_some in Hexp; [| exact Hbound].
      unfold end_of_digits in Hexp. rewrite Hpt in Hexp. lia. }
    rewrite Hnp. change (len empty_span) with 0%nat.
    unfold fraction_digits in Hcount, Hi. rewrite Hnp in Hcount, Hi.
    rewrite app_nil_r in Hi. rewrite Hcount, Hstart, Hi, Hend, Hlast.
    rewrite Nat.eqb_refl, Hjson, Hints. cbn [is_json_rules andb length].
    unfold integer_digits. rewrite firstn_digit_run.
    fold (integer_digits s p0).
    set (dc := leading_zeros_loop (decimal_point options) (skipn p0 s)
                 (Z.of_nat (length (integer_digits s p0)) + Z.of_nat 0)).
    intros Hdc.
    pose proof (leading_zeros_loop_le (decimal_point options) (skipn p0 s)
                  (Z.of_nat (length (integer_digits s p0)) + Z.of_nat 0)) as Hle.
    fold dc in Hle.
    destruct (Z.ltb_spec 19 (Z.of_nat (length (integer_digits s p0)) +
                             Z.of_nat 0)) as [_ | Hc]; [| lia].
    cbv zeta. fold dc. unfold minimal_twenty_digit_integer.
    change (10 ^ 19) with 10000000000000000000.
    rewrite orb_true_iff, Z.ltb_lt, Z.ltb_lt. reflexivity.
  - intros [[] [] [] []] [[] []] dp Hfixed; try discriminate;
      destruct dp; vm_compute; repeat split; reflexivity.
Qed.

(** C1, amended, at "18446744073709551615" under the json rules. *)
Lemma exact_integer_threshold_witness :
  let r := parse_number_string default_config max_u64_literal
             (options_with general json_rules true) in
  (too_many_digits r = true <->
   20 < significant_digit_count max_u64_literal
          (options_with general json_rules true) r \/
   accumulate (span_bytes max_u64_literal (integer r)) 0 < 10 ^ 19) /\
  valid r = true /\ too_many_digits r = false /\ is_64bit_int r = true /\
  mantissa r = 18446744073709551615.
Proof.
  split.
  - apply (proj1 exact_integer_threshold default_config max_u64_literal
             (options_with general json_rules true)); vm_compute; reflexivity.
  - apply (proj2 exact_integer_threshold default_config general "."%byte).
    reflexivity.
Defined.

(** C1 as stated fails under the standard rules: with [parse_ints] set,
    "18446744073709551615" is a valid pure integer of 20 digits whose
    accumulated value is not below 10^19, and [too_many_digits] is set. *)
Lemma exact_integers_need_json_rules :
  let options := options_with general std_rules true in
  let r := parse_number_string default_config max_u64_literal options in
  parse_ints options = true /\ valid r = true /\
  lastmatch r = Some (span_ptr (integer r) + len (integer r))%nat /\
  fraction r = empty_span /\
  significant_digit_count max_u64_literal options r = 20 /\
  10 ^ 19 <= accumulate (span_bytes max_u64_literal (integer r)) 0 /\
  too_many_digits r = true /\ is_64bit_int r = false /\
  mantissa r = 1844674407370955161.
Proof. vm_compute. repeat split; discriminate. Qed.

(** C2, amended.  Whenever [too_many_digits] is set, the mantissa is the
    decimal value, without wrap-around, of the first [k] digits of the
    integer span followed by the fraction span, where the walk consumes
    digits for as long as the running value is below 10^18: the digit that
    makes it reach 10^18 is consumed, so the mantissa is below 10^19, and at
    least 10^18 unless both spans are exhausted.  The exponent is the number
    of integer digits minus [k] (the integer digits left unconsumed, or minus
    the number of fraction digits consumed) plus the explicit exponent. *)
Theorem truncated_mantissa (cfg : config) (s : list byte)
    (options : parse_options) :
  let r := parse_number_string cfg s options in
  let digits := span_bytes s (integer r) ++ span_bytes s (fraction r) in
  too_many_digits r = true ->
  exists k,
    (k <= length digits)%nat /\
    mantissa r = decimal (firstn k digits) 0 /\
    mantissa r < 10 ^ 19 /\
    (k = length digits \/ 10 ^ 18 <= mantissa r) /\
    (forall j, (j < k)%nat -> decimal (firstn j digits) 0 < 10 ^ 18) /\
    exponent r =
      Z.of_nat (len (integer r)) - Z.of_nat k + explicit_exponent cfg s options.
Proof.
  cbv zeta. unfold parse_number_string, explicit_exponent.
  destruct (scan_literal cfg s options) as [a | l] eqn:Hscan.
  { apply scan_literal_inl in Hscan. destruct Hscan as (_ & _ & _ & _ & _ & H).
    congruence. }
  pose proof (scan_literal_inr cfg s options l Hscan)
    as ((_ & _ & _ & _ & _ & Hrej) & _).
  destruct (scanned_spans cfg s options l Hscan)
    as (p0 & Hptr & Hlen & Hend & Hint & Hfrac).
  destruct (finish_literal_spans cfg s options l) as [Ei Ef].
  rewrite Ei, Ef, Hint, Hfrac, Hlen.
  intros Htoo.
  destruct (finish_literal_truncated cfg s options l Hrej Htoo) as [Em Ee].
  rewrite Em, Ee. clear Em Ee Htoo Ei Ef.
  unfold truncated_value. cbv zeta. rewrite Hint, Hfrac, Hptr, Hend.
  set (ids := integer_digits s p0).
  set (fds := fraction_digits s options p0).
  assert (Hids : forallb is_ascii_digit ids = true) by apply digit_run_digits.
  assert (Hfds : forallb is_ascii_digit fds = true).
  { subst fds. unfold fraction_digits.
    destruct (has_point s options p0); [apply digit_run_digits | reflexivity]. }
  destruct (truncating_loop_spec cfg ids Hids 0 p0 ltac:(lia))
    as (k1 & Hk1 & Hloop1 & Hb1 & Hstop1 & Hbelow1).
  rewrite Hloop1. unfold minimal_nineteen_digit_integer.
  change 1000000000000000000 with (10 ^ 18).
  destruct (Z.leb_spec (10 ^ 18) (decimal (firstn k1 ids) 0)) as [Hbig | Hsmall].
  - exists k1. cbn [fst snd].
    rewrite firstn_app. replace (k1 - length ids)%nat with 0%nat by lia.
    rewrite firstn_O, app_nil_r, length_app.
    split; [lia |]. split; [reflexivity |]. split; [exact Hb1 |].
    split; [right; exact Hbig |]. split; [| lia].
    intros j Hj. rewrite firstn_app.
    replace (j - length ids)%nat with 0%nat by lia.
    rewrite firstn_O, app_nil_r. apply Hbelow1. exact Hj.
  - destruct Hstop1 as [-> | Hbig]; [| lia].
    rewrite firstn_all in *.
    assert (0 <= decimal ids 0)
      by (pose proof (decimal_bounds ids Hids 0 ltac:(lia)); nia).
    destruct (truncating_loop_spec cfg fds Hfds (decimal ids 0)
                (span_ptr (fraction (l_answer l))) ltac:(lia))
      as (k2 & Hk2 & Hloop2 & Hb2 & Hstop2 & Hbelow2).
    rewrite Hloop2. cbn [fst snd].
    exists (length ids + k2)%nat.
    assert (Efirst : forall j, firstn (length ids + j) (ids ++ fds) =
                               ids ++ firstn j fds).
    { intros j. rewrite firstn_app, firstn_all2 by lia.
      replace (length ids + j - length ids)%nat with j by lia. reflexivity. }
    rewrite Efirst, decimal_app, length_app.
    split; [lia |]. split; [reflexivity |]. split; [exact Hb2 |].
    split; [destruct Hstop2; [left; lia | right; assumption] |].
    split; [| lia].
    intros j Hj. destruct (Nat.lt_ge_cases j (length ids)) as [Hlt | Hge].
    + rewrite firstn_app. replace (j - length ids)%nat with 0%nat by lia.
      rewrite firstn_O, app_nil_r. apply Hbelow1. exact Hlt.
    + replace j with (length ids + (j - length ids))%nat by lia.
      rewrite Efirst, decimal_app. apply Hbelow2. lia.
Qed.

(** C2, amended, at a 21-digit integer. *)
Lemma truncated_mantissa_witness :
  let s := list_byte_of_string "123456789012345678901" in
  let r := parse_number_string default_config s
             (options_with general std_rules false) in
  let digits := span_bytes s (integer r) ++ span_bytes s (fraction r) in
  exists k,
    (k <= length digits)%nat /\
    mantissa r = decimal (firstn k digits) 0 /\
    mantissa r < 10 ^ 19 /\
    (k = length digits \/ 10 ^ 18 <= mantissa r) /\
    (forall j, (j < k)%nat -> decimal (firstn j digits) 0 < 10 ^ 18) /\
    exponent r =
      Z.of_nat (len (integer r)) - Z.of_nat k +
      explicit_exponent default_config s (options_with general std_rules false).
Proof.
  apply (truncated_mantissa default_config
           (list_byte_of_string "123456789012345678901")
           (options_with general std_rules false)).
  reflexivity.
Defined.

(** C2 as stated fails on "1.1234567890123456789012345e-12": the mantissa
    is 1123456789012345678, not below 10^18, and the exponent is minus the 18
    fraction digits consumed plus the explicit exponent, not the 7 fraction
    digits left unconsumed plus the explicit exponent. *)
Lemma nineteen_digits_after_truncation :
  let options := options_with general std_rules false in
  let r := parse_number_string default_config long_fraction_literal options in
  too_many_digits r = true /\
  mantissa r = 1123456789012345678 /\ 10 ^ 18 <= mantissa r /\
  len (fraction r) = 25%nat /\
  explicit_exponent default_config long_fraction_literal options = -12 /\
  exponent r = -18 + -12 /\
  exponent r <> (25 - 18) + -12.
Proof. vm_compute. repeat split; discriminate. Qed.

(** C7.  Under the json rules every literal whose integer part has two or
    more digits, the first being ['0'], is invalid; under the standard rules
    with fixed notation allowed "01" is valid. *)
Theorem json_leading_zero_rejected :
  (forall cfg sign d rest options,
     is_sign cfg sign -> is_ascii_digit d = true ->
     rules options = json_rules ->
     valid (parse_number_string cfg (sign ++ "0"%byte :: d :: rest) options) =
     false) /\
  (forall cfg fmt ints dp,
     fixed fmt = true ->
     valid (parse_number_string cfg ["0"%byte; "1"%byte]
              {| format := fmt; rules := std_rules; parse_ints := ints;
                 decimal_point := dp |}) = true).
Proof.
  split.
  - intros cfg sign d rest options Hsign Hd Hjson.
    set (s := sign ++ "0"%byte :: d :: rest).
    unfold parse_number_string.
    destruct (scan_literal cfg s options) as [a | l] eqn:Hscan.
    + apply scan_literal_inl in Hscan. apply Hscan.
    + pose proof (scan_literal_inr cfg s options l Hscan) as (Hrej & _).
      apply scan_literal_inr_inv in Hscan.
      destruct Hscan as (p0 & Hp0 & Hstart & _ & Hcount & _).
      subst s. rewrite read_sign_structured in Hp0;
        [| assumption | discriminate | discriminate | left; reflexivity].
      injection Hp0 as <-.
      unfold integer_digits in Hcount. rewrite skipn_length_app in Hcount.
      cbn [digit_run] in Hcount. rewrite Hd in Hcount.
      change (is_ascii_digit "0") with true in Hcount.
      cbn [length] in Hcount.
      unfold finish_literal. rewrite Hstart, Hjson.
      rewrite deref_length_app.
      replace (deref (sign ++ "0"%byte :: d :: rest) (S (length sign))) with d.
      2:{ unfold deref. replace (sign ++ "0"%byte :: d :: rest)
            with ((sign ++ ["0"%byte]) ++ d :: rest)
            by (rewrite <- app_assoc; reflexivity).
          replace (S (length sign)) with (length (sign ++ ["0"%byte]))
            by (rewrite length_app; cbn [length]; lia).
          rewrite nth_middle. reflexivity. }
      rewrite is_integer_ascii_digit, Hd.
      destruct (Z.leb_spec 2 (l_digit_count l)) as [_ | Hlt]; [| lia].
      cbn. apply Hrej.
  - intros [[] [] [] []] [[] []] ints dp Hfixed;
      try discriminate; vm_compute; reflexivity.
Qed.

(** C7 at "-012" under the json rules and at "01" under the standard
    rules. *)
Lemma json_leading_zero_rejected_witness :
  valid (parse_number_string default_config (list_byte_of_string "-012")
           (options_with general json_rules false)) = false /\
  valid (parse_number_string default_config (list_byte_of_string "01")
           (options_with general std_rules false)) = true.
Proof.
  split.
  - apply (proj1 json_leading_zero_rejected default_config ["-"%byte] "1"%byte
             ["2"%byte] (options_with general json_rules false)).
    + right. left. reflexivity.
    + reflexivity.
    + reflexivity.
  - apply (proj2 json_leading_zero_rejected default_config general false "."%byte).
    reflexivity.
Defined.

(** C8.  For every input accepted as valid, [lastmatch] is strictly after
    the start of the input range and not after its end. *)
Theorem lastmatch_within_range (cfg : config) (s : list byte)
    (options : parse_options) :
  valid (parse_number_string cfg s options) = true ->
  exists m, lastmatch (parse_number_string cfg s options) = Some m /\
            (0 < m <= length s)%nat.
Proof.
  unfold parse_number_string.
  destruct (scan_literal cfg s options) as [a | l] eqn:Hscan.
  - apply scan_literal_inl in Hscan. destruct Hscan as [Hv _]. congruence.
  - apply scan_literal_inr in Hscan.
    destruct Hscan as ([Hv _] & _ & Hp).
    destruct (finish_literal_cases cfg s options l) as [E | [_ Hm]].
    + rewrite E. congruence.
    + intros _. exists (l_p l). split; assumption.
Qed.

(** C8 at "123.456". *)
Lemma lastmatch_within_range_witness :
  exists m,
    lastmatch (parse_number_string default_config
                 (list_byte_of_string "123.456")
                 (options_with general std_rules false)) = Some m /\
    (0 < m <= 7)%nat.
Proof.
  apply (lastmatch_within_range default_config (list_byte_of_string "123.456")
           (options_with general std_rules false)).
  reflexivity.
Defined.

(** C9, amended.  For every input on which the result is not valid,
    [lastmatch] is null, [mantissa] and [exponent] are 0, and [is_64bit_int]
    and [too_many_digits] are false.  (Besides [negative], the spans
    [integer] and [fraction] may have been set.) *)
Theorem rejected_fields_default (cfg : config) (s : list byte)
    (options : parse_options) :
  valid (parse_number_string cfg s options) = false ->
  lastmatch (parse_number_string cfg s options) = None /\
  mantissa (parse_number_string cfg s options) = 0 /\
  exponent (parse_number_string cfg s options) = 0 /\
  is_64bit_int (parse_number_string cfg s options) = false /\
  too_many_digits (parse_number_string cfg s options) = false.
Proof.
  unfold parse_number_string.
  destruct (scan_literal cfg s options) as [a | l] eqn:Hscan.
  - apply scan_literal_inl in Hscan. intros _. apply Hscan.
  - apply scan_literal_inr in Hscan. destruct Hscan as (Hrej & _).
    destruct (finish_literal_cases cfg s options l) as [E | [Hv _]].
    + rewrite E. intros _. apply Hrej.
    + congruence.
Qed.

(** C9, amended, at "1.5e" with scientific notation only. *)
Lemma rejected_fields_default_witness :
  let r := parse_number_string default_config (list_byte_of_string "1.5e")
             (options_with scientific_only std_rules false) in
  lastmatch r = None /\ mantissa r = 0 /\ exponent r = 0 /\
  is_64bit_int r = false /\ too_many_digits r = false.
Proof.
  apply (rejected_fields_default default_config (list_byte_of_string "1.5e")
           (options_with scientific_only std_rules false)).
  reflexivity.
Defined.

(** C9 as stated fails: on "1.5e" with scientific notation only the result
    is not valid and carries the integer span "1" and the fraction span
    "5". *)
Lemma rejected_result_keeps_spans :
  let r := parse_number_string default_config (list_byte_of_string "1.5e")
             (options_with scientific_only std_rules false) in
  valid r = false /\
  integer r = {| ptr := Some 0%nat; len := 1 |} /\
  fraction r = {| ptr := Some 2%nat; len := 1 |} /\
  r <> set_negative default_answer (negative r).
Proof. vm_compute. repeat split. discriminate. Qed.

(** ** The examples of the specification *)

(** "123.456" with the standard rules and fixed notation. *)
Example spec_example_fixed_point :
  let s := list_byte_of_string "123.456" in
  let r := parse_number_string default_config s
             (options_with fixed_only std_rules false) in
  valid r = true /\
  span_bytes s (integer r) = list_byte_of_string "123" /\
  span_bytes s (fraction r) = list_byte_of_string "456" /\
  exponent r = -3 /\ mantissa r = 123456 /\ too_many_digits r = false.
Proof. vm_compute. repeat split. Qed.

(** An integer of 21 non-zero digits with fixed notation and [parse_ints]
    not set. *)
Example spec_example_twenty_one_digits :
  let r := parse_number_string default_config
             (list_byte_of_string "123456789123456789123")
             (options_with fixed_only std_rules false) in
  valid r = true /\ too_many_digits r = true /\ is_64bit_int r = false /\
  mantissa r = 1234567891234567891 /\ exponent r = 2.
Proof. vm_compute. repeat split. Qed.

(** * Further lemmas *)

(** ** Bytes and lanes *)

Lemma byte_val_of_val (val : Z) : byte_val (byte_of_val val) = u8 val.
Proof.
  unfold byte_of_val, byte_val.
  assert (Hr : 0 <= u8 val < 256)
    by (unfold u8; apply Z.mod_pos_bound; reflexivity).
  destruct (Byte.of_N (Z.to_N (u8 val))) as [b |] eqn:E.
  - apply Byte.to_of_N in E. rewrite E. apply Z2N.id. lia.
  - apply Byte.of_N_None_iff in E. lia.
Qed.

Lemma byte_of_val_val (b : byte) : byte_of_val (byte_val b) = b.
Proof.
  unfold byte_of_val, byte_val, u8.
  pose proof (Byte.to_N_bounded b) as Hb.
  rewrite Z.mod_small by lia. rewrite N2Z.id, Byte.of_to_N. reflexivity.
Qed.

Lemma byte_of_val_u8 (val : Z) : byte_of_val (u8 val) = byte_of_val val.
Proof.
  unfold byte_of_val, u8. rewrite Z.mod_mod by lia. reflexivity.
Qed.

Lemma byte_lane_range (val : Z) (k : nat) : 0 <= byte_lane val k < 256.
Proof. unfold byte_lane. apply Z.mod_pos_bound. lia. Qed.

Lemma pow256 (k : nat) : 256 ^ Z.of_nat k = 2 ^ (8 * Z.of_nat k).
Proof. change 256 with (2 ^ 8). rewrite <- Z.pow_mul_r by lia. reflexivity. Qed.

Lemma byte_lane_testbit (val : Z) (k : nat) (b : Z) :
  0 <= b < 8 ->
  Z.testbit (byte_lane val k) b = Z.testbit val (8 * Z.of_nat k + b).
Proof.
  intros Hb. unfold byte_lane. change 256 with (2 ^ 8) at 2.
  rewrite Z.mod_pow2_bits_low by lia.
  rewrite pow256, Z.div_pow2_bits by lia. f_equal. lia.
Qed.

Lemma byte_lane_shiftr (val : Z) (k : nat) :
  byte_lane val k = u8 (Z.shiftr val (8 * Z.of_nat k)).
Proof.
  unfold byte_lane, u8. rewrite Z.shiftr_div_pow2 by lia.
  rewrite pow256. reflexivity.
Qed.

Lemma word_of_lanes (val : Z) :
  0 <= val < 2 ^ 64 -> le_word (lanes_of val) = val.
Proof.
  intros Hv. pose proof (word_lanes_byte_lane 8 val 0) as E.
  change (256 ^ Z.of_nat 0) with 1 in E. rewrite Z.div_1_r in E.
  replace (lanes_of val) with (word_lanes 8 val) by exact E.
  apply le_word_lanes. exact Hv.
Qed.

Lemma byte_lane_le_word (c0 c1 c2 c3 c4 c5 c6 c7 : Z) (k : nat) :
  0 <= c0 < 256 -> 0 <= c1 < 256 -> 0 <= c2 < 256 -> 0 <= c3 < 256 ->
  0 <= c4 < 256 -> 0 <= c5 < 256 -> 0 <= c6 < 256 -> 0 <= c7 < 256 ->
  (k < 8)%nat ->
  byte_lane (le_word [c0; c1; c2; c3; c4; c5; c6; c7]) k =
  nth k [c0; c1; c2; c3; c4; c5; c6; c7] 0.
Proof.
  intros H0 H1 H2 H3 H4 H5 H6 H7 Hk.
  destruct (le_word_lane c0 c1 c2 c3 c4 c5 c6 c7 H0 H1 H2 H3 H4 H5 H6 H7)
    as (L0 & L1 & L2 & L3 & L4 & L5 & L6 & L7).
  unfold byte_lane. rewrite pow256.
  do 8 (destruct k as [| k]; [assumption |]). lia.
Qed.

Lemma canonical_word_lane (chars : list byte) (k : nat) :
  (k < 8)%nat -> byte_lane (canonical_word chars) k = byte_val (deref chars k).
Proof.
  intros Hk. unfold canonical_word. cbn [seq map].
  rewrite byte_lane_le_word by (try apply byte_val_range; exact Hk).
  do 8 (destruct k as [| k]; [reflexivity |]). lia.
Qed.

Lemma canonical_word_range (chars : list byte) :
  0 <= canonical_word chars < 2 ^ 64.
Proof.
  pose proof (le_word_range _ (canonical_word_bytes chars)) as Hr.
  rewrite length_map, length_seq in Hr. exact Hr.
Qed.

Lemma lanes_word_eq (v w : Z) :
  0 <= v < 2 ^ 64 -> 0 <= w < 2 ^ 64 ->
  (forall k, (k < 8)%nat -> byte_lane v k = byte_lane w k) -> v = w.
Proof.
  intros Hv Hw H. rewrite <- (word_of_lanes v Hv), <- (word_of_lanes w Hw).
  unfold lanes_of. cbn [seq map]. rewrite !H by lia. reflexivity.
Qed.

(** ** The byte swap *)

Lemma byteswap_word (val : Z) :
  0 <= val < 2 ^ 64 ->
  byteswap val = le_word (rev (lanes_of val)).
Proof.
  intros Hv. rewrite <- (word_of_lanes val Hv) at 1.
  unfold lanes_of. cbn [seq map rev app].
  apply byteswap_le_word; apply byte_lane_range.
Qed.

Lemma byteswap_range (val : Z) :
  0 <= val < 2 ^ 64 -> 0 <= byteswap val < 2 ^ 64.
Proof.
  intros Hv. rewrite byteswap_word by exact Hv.
  assert (Hr : forall c, In c (rev (lanes_of val)) -> 0 <= c < 256).
  { intros c Hin. apply in_rev in Hin. unfold lanes_of in Hin.
    apply in_map_iff in Hin. destruct Hin as (k & <- & _).
    apply byte_lane_range. }
  pose proof (le_word_range _ Hr) as H.
  rewrite length_rev in H. unfold lanes_of in H.
  rewrite length_map, length_seq in H. exact H.
Qed.

(** ** The word load, lane by lane *)

Lemma read_u64_range (cfg : config) (chars : list byte) :
  0 <= read_u64 cfg chars < 2 ^ 64.
Proof.
  unfold read_u64. destruct (cpp20_and_in_constexpr cfg).
  - pose proof (read_u64_loop_range cfg 8 0 chars 0 eq_refl) as Hr.
    fold (read_u64_constexpr cfg chars) in Hr. rewrite <- Hr. apply u64_range.
  - rewrite read_u64_runtime_canonical. apply canonical_word_range.
Qed.

Lemma plain_char (cfg : config) (c : byte) :
  char_is_signed cfg = false \/ byte_val c < 128 ->
  char_to_int cfg c = byte_val c.
Proof.
  unfold char_to_int. intros [-> | Hlt]; [reflexivity |].
  destruct (Z.leb_spec 128 (byte_val c)); [lia |].
  rewrite andb_false_r. reflexivity.
Qed.

Lemma read_u64_lane (cfg : config) (chars : list byte) :
  (cpp20_and_in_constexpr cfg = true -> char_is_signed cfg = true ->
   forall k, (k < 8)%nat -> byte_val (nth k chars x00) < 128) ->
  forall k, (k < 8)%nat ->
    byte_lane (read_u64 cfg chars) k = byte_val (nth k chars x00).
Proof.
  intros Hplain.
  intros k Hk. fold (deref chars k). rewrite <- canonical_word_lane by exact Hk.
  f_equal. unfold read_u64.
  destruct (cpp20_and_in_constexpr cfg);
    [| apply read_u64_runtime_canonical].
  apply read_u64_constexpr_canonical. intros j Hj. apply plain_char.
  destruct (char_is_signed cfg); [right | left; reflexivity].
  apply Hplain; [reflexivity | reflexivity | exact Hj].
Qed.

(** ** Sign extension in the constant-evaluated load *)

Lemma testbit_sign_extended (c m : Z) :
  0 <= c < 256 -> 0 <= m ->
  Z.testbit (c - 256) m = Z.testbit c m || (8 <=? m).
Proof.
  intros Hc Hm.
  replace (c - 256) with (Z.lor c (Z.shiftl (-1) 8))
    by (rewrite lor_low_shiftl; lia).
  rewrite Z.lor_spec, Z.shiftl_spec by lia. f_equal.
  destruct (Z.leb_spec 8 m).
  - apply Z.bits_m1. lia.
  - apply Z.testbit_neg_r. lia.
Qed.

Lemma testbit_byte_high (c m : Z) :
  0 <= c < 256 -> 8 <= m -> Z.testbit c m = false.
Proof.
  intros Hc Hm. replace c with (c mod 2 ^ 8) by (apply Z.mod_small; lia).
  apply Z.mod_pow2_bits_high. lia.
Qed.

Lemma testbit_loop_term (cfg : config) (c : byte) (i b : Z) :
  0 <= i -> 0 <= b < 64 ->
  Z.testbit (u64 (Z.shiftl (u64 (char_to_int cfg c)) (i * 8))) b =
  term_bit cfg c i b.
Proof.
  intros Hi Hb. unfold u64 at 1. rewrite Z.mod_pow2_bits_low by lia.
  rewrite Z.shiftl_spec by lia. unfold term_bit.
  replace (b - i * 8) with (b - 8 * i) by lia.
  destruct (Z.leb_spec (8 * i) b) as [Hle | Hlt];
    [| apply Z.testbit_neg_r; lia].
  cbn [andb]. unfold u64. rewrite Z.mod_pow2_bits_low by lia.
  pose proof (byte_val_range c) as Hc.
  unfold char_to_int, negative_char.
  destruct (char_is_signed cfg && (128 <=? byte_val c)).
  - cbn [andb]. apply testbit_sign_extended; lia.
  - cbn [andb]. rewrite orb_false_r. reflexivity.
Qed.

Lemma deref_tl (cs : list byte) (k : nat) : deref (tl cs) k = deref cs (S k).
Proof. unfold deref. destruct cs; [destruct k |]; reflexivity. Qed.

Lemma existsb_seq_shift (f g : nat -> bool) (n : nat) :
  (forall k, f (S k) = g k) ->
  forall a, existsb f (seq (S a) n) = existsb g (seq a n).
Proof.
  intros H. induction n as [| n IH]; intros a; [reflexivity |].
  cbn [seq existsb]. rewrite H, IH. reflexivity.
Qed.

Lemma read_u64_loop_testbit (cfg : config) (n : nat) :
  forall i chars val b,
  0 <= i -> 0 <= b < 64 ->
  Z.testbit (read_u64_loop cfg n i chars val) b =
  Z.testbit val b ||
  existsb (fun k => term_bit cfg (deref chars k) (i + Z.of_nat k) b) (seq 0 n).
Proof.
  induction n as [| n IH]; intros i chars val b Hi Hb.
  - cbn [read_u64_loop seq existsb]. rewrite orb_false_r. reflexivity.
  - cbn [read_u64_loop]. rewrite IH by lia.
    rewrite Z.lor_spec, testbit_loop_term by lia.
    cbn [seq existsb].
    replace (i + Z.of_nat 0) with i by lia. rewrite <- orb_assoc.
    f_equal. f_equal. symmetry. apply existsb_seq_shift. intros k.
    rewrite deref_tl. f_equal. lia.
Qed.

Lemma constexpr_bit (cfg : config) (chars : list byte) (j : nat) (b : Z) :
  (j < 8)%nat -> 0 <= b < 8 ->
  Z.testbit (read_u64_constexpr cfg chars) (8 * Z.of_nat j + b) = true <->
  Z.testbit (byte_val (deref chars j)) b = true \/
  exists k, (k < j)%nat /\ negative_char cfg (deref chars k) = true.
Proof.
  intros Hj Hb. unfold read_u64_constexpr.
  rewrite read_u64_loop_testbit by lia.
  rewrite Z.bits_0. cbn [orb]. rewrite existsb_exists. split.
  - intros (k & Hin & Hbit). apply in_seq in Hin. unfold term_bit in Hbit.
    apply andb_true_iff in Hbit. destruct Hbit as [Hle Hbit].
    apply Z.leb_le in Hle. apply orb_true_iff in Hbit.
    assert (Hkj : (k <= j)%nat) by lia.
    destruct (Nat.eq_dec k j) as [-> | Hne].
    + destruct Hbit as [Hbit | Hbit].
      * left. rewrite <- Hbit. f_equal. lia.
      * apply andb_true_iff in Hbit. destruct Hbit as [_ H8].
        apply Z.leb_le in H8. lia.
    + right. exists k. split; [lia |].
      destruct Hbit as [Hbit | Hbit].
      * rewrite testbit_byte_high in Hbit
          by (try apply byte_val_range; lia).
        discriminate.
      * apply andb_true_iff in Hbit. apply Hbit.
  - intros [Hbit | (k & Hk & Hneg)].
    + exists j. split; [apply in_seq; lia |]. unfold term_bit.
      replace (8 * Z.of_nat j + b - 8 * (0 + Z.of_nat j)) with b by lia.
      rewrite Hbit. cbn [orb]. rewrite andb_true_r. apply Z.leb_le. lia.
    + exists k. split; [apply in_seq; lia |]. unfold term_bit.
      rewrite Hneg. cbn [andb].
      replace (8 <=? 8 * Z.of_nat j + b - 8 * (0 + Z.of_nat k)) with true
        by (symmetry; apply Z.leb_le; lia).
      rewrite orb_true_r, andb_true_r. apply Z.leb_le. lia.
Qed.

Lemma canonical_bit (chars : list byte) (j : nat) (b : Z) :
  (j < 8)%nat -> 0 <= b < 8 ->
  Z.testbit (canonical_word chars) (8 * Z.of_nat j + b) =
  Z.testbit (byte_val (deref chars j)) b.
Proof.
  intros Hj Hb. rewrite <- byte_lane_testbit by exact Hb.
  rewrite canonical_word_lane by exact Hj. reflexivity.
Qed.

Lemma all_bits_set (c : Z) :
  0 <= c < 256 ->
  (forall b, 0 <= b < 8 -> Z.testbit c b = true) -> c = 255.
Proof.
  intros Hc Hall.
  pose proof (forall_byte_value
    (fun c => negb (forallb (fun b => Z.testbit c (Z.of_nat b)) (seq 0 8)) ||
              (c =? 255)) eq_refl c Hc) as H.
  apply orb_true_iff in H. destruct H as [H | H]; [| apply Z.eqb_eq, H].
  apply negb_true_iff in H. apply forallb_false_witness in H.
  destruct H as (b & Hin & Hb). apply in_seq in Hin.
  rewrite Hall in Hb by lia. discriminate.
Qed.

Lemma word_high_bits (v n : Z) :
  0 <= v < 2 ^ 64 -> 64 <= n -> Z.testbit v n = false.
Proof.
  intros Hv Hn. replace v with (v mod 2 ^ 64) by (apply Z.mod_small; lia).
  apply Z.mod_pow2_bits_high. lia.
Qed.

(** ** The word store *)

Lemma skipn_tl {A : Type} (n : nat) (l : list A) :
  skipn n (tl l) = skipn (S n) l.
Proof. destruct l; [apply skipn_nil | reflexivity]. Qed.

Lemma write_u64_loop_bytes (n : nat) :
  forall chars val,
  write_u64_loop n chars val =
  map (fun k => byte_of_val (Z.shiftr val (8 * Z.of_nat k))) (seq 0 n) ++
  skipn n chars.
Proof.
  induction n as [| n IH]; intros chars val; [reflexivity |].
  cbn [write_u64_loop seq map app]. rewrite Z.shiftr_0_r. f_equal.
  rewrite IH, skipn_tl, <- seq_shift, map_map. f_equal.
  apply map_ext. intros k. rewrite Z.shiftr_shiftr by lia.
  f_equal. f_equal. lia.
Qed.

Lemma byte_of_lane (val : Z) (k : nat) :
  byte_of_val (Z.shiftr val (8 * Z.of_nat k)) = byte_of_val (byte_lane val k).
Proof. rewrite byte_lane_shiftr, byte_of_val_u8. reflexivity. Qed.

Lemma write_u64_lanes (cfg : config) (chars : list byte) (val : Z) :
  0 <= val < 2 ^ 64 ->
  write_u64 cfg chars val =
  map (fun k => byte_of_val (byte_lane val k)) (seq 0 8) ++ skipn 8 chars.
Proof.
  intros Hv. unfold write_u64, write_u64_constexpr, write_u64_runtime,
    memcpy_from_u64.
  destruct (cpp20_and_in_constexpr cfg).
  - rewrite write_u64_loop_bytes. f_equal. apply map_ext. intros k.
    apply byte_of_lane.
  - f_equal. destruct (FASTFLOAT_IS_BIG_ENDIAN cfg).
    + cbn [seq map rev app]. rewrite !byte_of_lane.
      rewrite (byteswap_word val Hv). unfold lanes_of. cbn [seq map rev app].
      rewrite !byte_lane_le_word by (try apply byte_lane_range; lia).
      reflexivity.
    + apply map_ext. intros k. apply byte_of_lane.
Qed.

Lemma map_nth_seq {A : Type} (d : A) (l : list A) :
  forall n, (n <= length l)%nat ->
  map (fun k => nth k l d) (seq 0 n) = firstn n l.
Proof.
  induction l as [| a l IH]; intros n Hn.
  - cbn [length] in Hn. replace n with 0%nat by lia. reflexivity.
  - destruct n as [| n]; [reflexivity |].
    cbn [seq map firstn nth]. f_equal.
    rewrite <- seq_shift, map_map. cbn [nth]. apply IH.
    cbn [length] in Hn. lia.
Qed.

(** ** The digit primitives on a pointer *)

Lemma forallb_seq_firstn (f : byte -> bool) (chars : list byte) (n : nat) :
  (n <= length chars)%nat ->
  forallb (fun k => f (deref chars k)) (seq 0 n) = forallb f (firstn n chars).
Proof.
  intros Hn. rewrite <- (map_nth_seq x00 chars n Hn).
  generalize (seq 0 n). intros l.
  induction l as [| k l IH]; [reflexivity |].
  cbn [map forallb]. rewrite IH. reflexivity.
Qed.

(** ** Every path through the scanner *)

Lemma parse_valid_inv (cfg : config) (s : list byte) (options : parse_options) :
  valid (parse_number_string cfg s options) = true ->
  exists l, scan_literal cfg s options = inr l /\
            parse_number_string cfg s options = finish_literal cfg s options l.
Proof.
  unfold parse_number_string.
  destruct (scan_literal cfg s options) as [a | l] eqn:Hscan.
  - apply scan_literal_inl in Hscan. destruct Hscan as (Hv & _). congruence.
  - intros _. exists l. split; reflexivity.
Qed.

Lemma finish_literal_negative (cfg : config) (s : list byte)
    (options : parse_options) (l : locals) :
  negative (finish_literal cfg s options l) = negative (l_answer l).
Proof.
  unfold finish_literal. cbv zeta.
  destruct (is_json_rules (rules options) && _ && _ && _); [reflexivity |].
  destruct (19 <? l_digit_count l); [| reflexivity].
  match goal with
  | |- context [set_too_many_digits _ ?b] => destruct b
  end; [| reflexivity].
  destruct (truncated_value cfg s l). reflexivity.
Qed.

(** What the scan has recorded in the result, on every path: nothing but the
    sign when it returns at lines 129 or 133, the spans of the digits
    otherwise. *)
Lemma parse_recorded (cfg : config) (s : list byte) (options : parse_options) :
  let r := parse_number_string cfg s options in
  negative r = Byte.eqb (deref s 0) "-" /\
  ((exists a, read_sign cfg s options = inl a /\ r = a /\
              integer r = empty_span /\ fraction r = empty_span) \/
   (exists p0, read_sign cfg s options = inr p0 /\
      integer r = {| ptr := Some p0; len := length (integer_digits s p0) |} /\
      fraction r =
        (if has_point s options p0
         then {| ptr := Some (S (p0 + length (integer_digits s p0)));
                 len := length (fraction_digits s options p0) |}
         else empty_span))).
Proof.
  cbv zeta. unfold parse_number_string. rewrite scan_literal_digits.
  destruct (read_sign cfg s options) as [a | p0] eqn:Hsign.
  - pose proof (read_sign_inl cfg s options a Hsign) as Ea.
    split; [rewrite Ea; reflexivity |].
    left. exists a. rewrite Ea. repeat split.
  - cbv zeta.
    set (ids := integer_digits s p0). set (fds := fraction_digits s options p0).
    set (a0 := set_integer (set_negative default_answer
                              (Byte.eqb (deref s 0) "-"))
                 {| ptr := Some p0; len := length ids |}).
    set (a1 := if has_point s options p0
               then set_fraction a0
                      {| ptr := Some (S (p0 + length ids)); len := length fds |}
               else a0).
    assert (Ha1 : negative a1 = Byte.eqb (deref s 0) "-" /\
                  integer a1 = {| ptr := Some p0; len := length ids |} /\
                  fraction a1 =
                    (if has_point s options p0
                     then {| ptr := Some (S (p0 + length ids));
                             len := length fds |}
                     else empty_span)).
    { subst a1 a0. destruct (has_point s options p0); repeat split. }
    destruct Ha1 as (Hn & Hi & Hf).
    assert (Hgoal : forall r, negative r = negative a1 ->
              integer r = integer a1 -> fraction r = fraction a1 ->
              negative r = Byte.eqb (deref s 0) "-" /\
              ((exists a, @inr parsed_number_string nat p0 = inl a /\ r = a /\
                          integer r = empty_span /\ fraction r = empty_span) \/
               (exists q0, @inr parsed_number_string nat p0 = inr q0 /\
                  integer r =
                    {| ptr := Some q0; len := length (integer_digits s q0) |} /\
                  fraction r =
                    (if has_point s options q0
                     then {| ptr := Some (S (q0 + length (integer_digits s q0)));
                             len := length (fraction_digits s options q0) |}
                     else empty_span)))).
    { intros r En Ei Ef. split; [congruence |]. right. exists p0.
      split; [reflexivity |]. rewrite Ei, Ef, Hi, Hf. split; reflexivity. }
    destruct ((Z.of_nat (length ids) + Z.of_nat (length fds) =? 0) || _);
      [apply Hgoal; reflexivity |].
    destruct (read_exponent cfg s (format options) (end_of_digits s options p0)
                (- Z.of_nat (length fds))) as [[[p e] en] |];
      [| apply Hgoal; reflexivity].
    apply Hgoal.
    + apply finish_literal_negative.
    + apply finish_literal_spans.
    + apply finish_literal_spans.
Qed.

Lemma finish_literal_plain (cfg : config) (s : list byte)
    (options : parse_options) (l : locals) :
  valid (l_answer l) = false -> too_many_digits (l_answer l) = false ->
  valid (finish_literal cfg s options l) = true ->
  too_many_digits (finish_literal cfg s options l) = false ->
  mantissa (finish_literal cfg s options l) = l_i l /\
  exponent (finish_literal cfg s options l) = l_exponent l /\
  is_64bit_int (finish_literal cfg s options l) =
    (l_p l =? l_end_of_integer_part l)%nat.
Proof.
  intros Hinv Htoo. unfold finish_literal. cbv zeta.
  destruct (is_json_rules (rules options) && _ && _ && _); [congruence |].
  intros _.
  destruct (19 <? l_digit_count l); [| intros _; repeat split].
  match goal with
  | |- context [set_too_many_digits _ ?b] => destruct b
  end; [| intros _; repeat split].
  destruct (truncated_value cfg s l). cbn. discriminate.
Qed.

Lemma finish_literal_flagged (cfg : config) (s : list byte)
    (options : parse_options) (l : locals) :
  too_many_digits (l_answer l) = false ->
  too_many_digits (finish_literal cfg s options l) = true ->
  valid (finish_literal cfg s options l) = true /\
  is_64bit_int (finish_literal cfg s options l) = false /\
  19 < l_digit_count l.
Proof.
  intros Htoo. unfold finish_literal. cbv zeta.
  destruct (is_json_rules (rules options) && _ && _ && _); [congruence |].
  destruct (Z.ltb_spec 19 (l_digit_count l)); [| cbn; congruence].
  match goal with
  | |- context [set_too_many_digits _ ?b] => destruct b
  end; [| cbn; congruence].
  destruct (truncated_value cfg s l). intros _. repeat split. assumption.
Qed.

Lemma digit_run_stop (rest : list byte) :
  is_ascii_digit (nth (length (digit_run rest)) rest x00) = false.
Proof.
  induction rest as [| c rest IH]; [reflexivity |].
  cbn [digit_run]. destruct (is_ascii_digit c) eqn:Hc.
  - cbn [length nth]. exact IH.
  - cbn [length nth]. exact Hc.
Qed.

Lemma nth_skipn_add (s : list byte) (p k : nat) :
  nth k (skipn p s) x00 = nth (p + k) s x00.
Proof.
  revert s. induction p as [| p IH]; intros s; [reflexivity |].
  destruct s as [| c s]; [destruct k; reflexivity |].
  cbn [skipn Nat.add nth]. apply IH.
Qed.

Lemma digit_run_skipn_stop (s : list byte) (p : nat) :
  is_ascii_digit (nth (p + length (digit_run (skipn p s))) s x00) = false.
Proof. rewrite <- nth_skipn_add. apply digit_run_stop. Qed.

Lemma span_bytes_run (s : list byte) (p : nat) :
  span_bytes s {| ptr := Some p; len := length (digit_run (skipn p s)) |} =
  digit_run (skipn p s).
Proof. unfold span_bytes. cbn [ptr len]. apply firstn_digit_run. Qed.

Lemma has_point_inv (s : list byte) (options : parse_options) (p0 : nat) :
  (p0 <= length s)%nat ->
  has_point s options p0 = true ->
  (p0 + length (integer_digits s p0) < length s)%nat /\
  deref s (p0 + length (integer_digits s p0)) = decimal_point options.
Proof.
  unfold has_point. intros Hp0 H.
  apply andb_true_iff in H. destruct H as [Hne Hdp].
  apply negb_true_iff, Nat.eqb_neq in Hne. apply byte_dec_bl in Hdp.
  split; [| exact Hdp].
  destruct (Nat.lt_ge_cases (p0 + length (integer_digits s p0)) (length s))
    as [Hlt | Hge]; [exact Hlt |].
  exfalso. unfold integer_digits in *.
  pose proof (digit_run_length (skipn p0 s)) as Hl.
  rewrite length_skipn in Hl. lia.
Qed.

Lemma scan_literal_counts (cfg : config) (s : list byte)
    (options : parse_options) (l : locals) (p0 : nat) :
  scan_literal cfg s options = inr l ->
  read_sign cfg s options = inr p0 ->
  let dc := Z.of_nat (length (integer_digits s p0)) +
            Z.of_nat (length (fraction_digits s options p0)) in
  dc <> 0 /\
  (rules options = json_rules -> has_point s options p0 = true -> dc <> 1).
Proof.
  rewrite scan_literal_digits. intros H Hsign. rewrite Hsign in H.
  cbv zeta in *.
  destruct (Z.eqb_spec (Z.of_nat (length (integer_digits s p0)) +
                        Z.of_nat (length (fraction_digits s options p0))) 0)
    as [E | NE]; [discriminate |].
  split; [exact NE |]. intros Hjson Hpt. cbn [orb] in H.
  rewrite Hjson, Hpt in H. cbn [is_json_rules andb] in H.
  destruct (Z.eqb_spec (Z.of_nat (length (integer_digits s p0)) +
                        Z.of_nat (length (fraction_digits s options p0))) 1)
    as [E | NE1]; [discriminate | exact NE1].
Qed.

(** ** The loop of the explicit exponent *)

Lemma exponent_loop_run (cfg : config) (rest : list byte) :
  forall e p,
  exponent_loop cfg rest e p =
  (saturating_decimal (digit_run rest) e, (p + length (digit_run rest))%nat).
Proof.
  induction rest as [| c rest IH]; intros e p;
    cbn [exponent_loop digit_run].
  - cbn [length]. rewrite Nat.add_0_r. reflexivity.
  - rewrite is_integer_ascii_digit. destruct (is_ascii_digit c) eqn:Hc.
    + rewrite IH. unfold saturating_decimal. cbn [fold_left length].
      rewrite char_to_int_zero, (digit_char_plain cfg c Hc).
      fold (digit_of c). pose proof (digit_of_range c Hc) as Hd.
      replace (u8 (digit_of c)) with (digit_of c)
        by (unfold u8; rewrite Z.mod_small; lia).
      f_equal. lia.
    + cbn [length]. rewrite Nat.add_0_r. reflexivity.
Qed.

Lemma saturating_decimal_bounds (ds : list byte) :
  forallb is_ascii_digit ds = true ->
  forall e, 0 <= e <= 2684354559 ->
  0 <= saturating_decimal ds e <= 2684354559.
Proof.
  induction ds as [| c ds IH]; intros Hds e He; [exact He |].
  cbn [forallb] in Hds. apply andb_true_iff in Hds. destruct Hds as [Hc Hds].
  pose proof (digit_of_range c Hc) as Hd.
  unfold saturating_decimal. cbn [fold_left].
  destruct (Z.ltb_spec e 0x10000000); apply (IH Hds); lia.
Qed.

Lemma saturating_decimal_frozen (ds : list byte) (e : Z) :
  0x10000000 <= e -> saturating_decimal ds e = e.
Proof.
  induction ds as [| c ds IH]; intros He; [reflexivity |].
  unfold saturating_decimal. cbn [fold_left].
  destruct (Z.ltb_spec e 0x10000000); [lia |]. apply IH. exact He.
Qed.

Lemma decimal_ge (ds : list byte) :
  forallb is_ascii_digit ds = true ->
  forall e, 0 <= e -> e <= decimal ds e.
Proof.
  intros Hds e He. pose proof (decimal_bounds ds Hds e He) as Hb.
  assert (1 <= 10 ^ Z.of_nat (length ds)) by (apply Z.pow_le_mono_r with (b := 0); lia).
  nia.
Qed.

Lemma saturating_decimal_exact (ds : list byte) :
  forallb is_ascii_digit ds = true ->
  forall e, 0 <= e -> decimal ds e < 0x10000000 ->
  saturating_decimal ds e = decimal ds e.
Proof.
  induction ds as [| c ds IH]; intros Hds e He Hlt; [reflexivity |].
  cbn [forallb] in Hds. apply andb_true_iff in Hds. destruct Hds as [Hc Hds].
  pose proof (digit_of_range c Hc) as Hd.
  unfold saturating_decimal, decimal in *. cbn [fold_left] in *.
  pose proof (decimal_ge ds Hds (10 * e + digit_of c) ltac:(lia)) as Hge.
  unfold decimal in Hge.
  destruct (Z.ltb_spec e 0x10000000); [| lia].
  apply (IH Hds); lia.
Qed.

Lemma saturating_decimal_saturated (ds : list byte) :
  forallb is_ascii_digit ds = true ->
  forall e, 0 <= e -> 0x10000000 <= decimal ds e ->
  0x10000000 <= saturating_decimal ds e.
Proof.
  induction ds as [| c ds IH]; intros Hds e He Hge; [exact Hge |].
  cbn [forallb] in Hds. apply andb_true_iff in Hds. destruct Hds as [Hc Hds].
  pose proof (digit_of_range c Hc) as Hd.
  unfold saturating_decimal, decimal in *. cbn [fold_left] in *.
  destruct (Z.ltb_spec e 0x10000000).
  - apply (IH Hds); lia.
  - fold (saturating_decimal ds e). rewrite saturating_decimal_frozen; lia.
Qed.

Lemma no_digit_here (s : list byte) (q : nat) :
  (q <= length s)%nat ->
  (q =? length s)%nat || negb (is_ascii_digit (deref s q)) =
  match digit_run (skipn q s) with [] => true | _ :: _ => false end.
Proof.
  intros Hq. destruct (Nat.eqb_spec q (length s)) as [E | NE].
  - subst q. rewrite skipn_all. reflexivity.
  - rewrite (skipn_deref s q) by lia. cbn [digit_run orb].
    destruct (is_ascii_digit (deref s q)); reflexivity.
Qed.

Lemma exponent_sign_bounds (s : list byte) (p : nat) :
  (p < length s)%nat ->
  (S p <= snd (exponent_sign s p) <= length s)%nat.
Proof.
  intros Hp. unfold exponent_sign.
  destruct (Nat.eqb_spec (S p) (length s)); cbn [negb andb snd]; [lia |].
  destruct (Byte.eqb "-" (deref s (S p))); cbn [snd]; [lia |].
  destruct (Byte.eqb "+" (deref s (S p))); cbn [snd]; lia.
Qed.

(** The explicit exponent, with its loop replaced by what it computes. *)
Lemma read_exponent_unfold (cfg : config) (s : list byte) (fmt : chars_format)
    (p : nat) (ex : Z) :
  (p <= length s)%nat ->
  read_exponent cfg s fmt p ex =
  if marker_at s fmt p
  then
    let es := digit_run (skipn (snd (exponent_sign s p)) s) in
    match es with
    | [] => if fixed fmt then Some (p, ex, 0) else None
    | _ :: _ =>
        let en := saturating_decimal es 0 in
        let en := if fst (exponent_sign s p) then - en else en in
        Some ((snd (exponent_sign s p) + length es)%nat, ex + en, en)
    end
  else if scientific fmt && negb (fixed fmt) then None else Some (p, ex, 0).
Proof.
  intros Hp. unfold read_exponent, marker_at. cbv zeta.
  destruct (scientific fmt && negb (p =? length s)%nat &&
            (Byte.eqb "e" (deref s p) || Byte.eqb "E" (deref s p))) eqn:Hm;
    [| reflexivity].
  apply andb_true_iff in Hm. destruct Hm as [Hm _].
  apply andb_true_iff in Hm. destruct Hm as [_ Hne].
  apply negb_true_iff, Nat.eqb_neq in Hne.
  pose proof (exponent_sign_bounds s p ltac:(lia)) as Hq.
  fold (exponent_sign s p). destruct (exponent_sign s p) as [neg_exp q].
  cbn [fst snd] in *. rewrite is_integer_ascii_digit.
  rewrite (no_digit_here s q) by lia.
  rewrite exponent_loop_run. cbv zeta.
  destruct (digit_run (skipn q s)) as [| c es]; [| reflexivity].
  destruct (fixed fmt); reflexivity.
Qed.

Lemma read_exponent_build (cfg cfg' : config) (s : list byte)
    (fmt : chars_format) (p : nat) (ex : Z) :
  (p <= length s)%nat ->
  read_exponent cfg s fmt p ex = read_exponent cfg' s fmt p ex.
Proof. intros Hp. rewrite !read_exponent_unfold by exact Hp. reflexivity. Qed.

Lemma read_exponent_number (cfg : config) (s : list byte) (fmt : chars_format)
    (p : nat) (ex : Z) (p' : nat) (e' en : Z) :
  (p <= length s)%nat ->
  read_exponent cfg s fmt p ex = Some (p', e', en) ->
  Z.abs en <= 2684354559 /\ (p' = p -> en = 0).
Proof.
  intros Hp. rewrite read_exponent_unfold by exact Hp.
  destruct (marker_at s fmt p) eqn:Hm.
  - unfold marker_at in Hm. apply andb_true_iff in Hm. destruct Hm as [Hm _].
    apply andb_true_iff in Hm. destruct Hm as [_ Hne].
    apply negb_true_iff, Nat.eqb_neq in Hne.
    pose proof (exponent_sign_bounds s p ltac:(lia)) as Hq.
    cbv zeta.
    pose proof (digit_run_digits (skipn (snd (exponent_sign s p)) s)) as Hds.
    destruct (digit_run (skipn (snd (exponent_sign s p)) s)) as [| c es].
    + destruct (fixed fmt); [| discriminate].
      intros H. injection H as <- <- <-. split; [lia | reflexivity].
    + pose proof (saturating_decimal_bounds (c :: es) Hds 0 ltac:(lia)) as Hb.
      set (x := saturating_decimal (c :: es) 0) in *.
      intros H. injection H as <- <- <-. cbn [length].
      split; [destruct (fst (exponent_sign s p)); lia | intros E; lia].
  - destruct (scientific fmt && negb (fixed fmt)); [discriminate |].
    intros H. injection H as <- <- <-. split; [lia | reflexivity].
Qed.

(** ** The facts about a valid result *)

Lemma end_of_digits_bound (s : list byte) (options : parse_options) (p0 : nat) :
  (p0 <= length s)%nat ->
  (p0 + length (integer_digits s p0) <= end_of_digits s options p0 <=
   length s)%nat.
Proof.
  intros Hp0. unfold end_of_digits, fraction_digits.
  pose proof (digit_run_skipn_bound s p0 Hp0) as H1.
  fold (integer_digits s p0) in H1.
  destruct (has_point s options p0) eqn:Hpt; [| lia].
  destruct (has_point_inv s options p0 Hp0 Hpt) as [Hlt _].
  pose proof (digit_run_skipn_bound s (S (p0 + length (integer_digits s p0)))
                ltac:(lia)).
  lia.
Qed.

Lemma parse_valid_facts (cfg : config) (s : list byte)
    (options : parse_options) :
  valid (parse_number_string cfg s options) = true ->
  exists l p0,
    scan_facts cfg s options (parse_number_string cfg s options) l p0.
Proof.
  intros Hvalid.
  destruct (parse_valid_inv cfg s options Hvalid) as (l & Hscan & Hres).
  pose proof (scan_literal_inr cfg s options l Hscan) as (Hrej & _ & _).
  pose proof (scan_literal_inr_inv cfg s options l Hscan)
    as (p0 & Hsign & Hstart & Hend & Hcount & _ & Hi & Hint & Hfrac & Hexp).
  pose proof (read_sign_inr cfg s options p0 Hsign) as [_ Hp0].
  pose proof (finish_literal_spans cfg s options l) as [Ei Ef].
  rewrite <- Hres in Ei, Ef. rewrite Hint in Ei. rewrite Hfrac in Ef.
  assert (Hlast : lastmatch (parse_number_string cfg s options) = Some (l_p l)).
  { rewrite Hres. apply finish_literal_valid; [apply Hrej |].
    rewrite <- Hres. exact Hvalid. }
  exists l, p0. constructor; try assumption.
  - unfold recorded_digits. rewrite Ei, Ef. unfold integer_digits.
    rewrite span_bytes_run. f_equal. unfold fraction_digits.
    destruct (has_point s options p0); [apply span_bytes_run | reflexivity].
  - rewrite Ef. unfold fraction_digits.
    destruct (has_point s options p0); reflexivity.
  - unfold end_of_spans, end_of_digits, span_ptr. rewrite Ei, Ef.
    destruct (has_point s options p0); reflexivity.
  - unfold explicit_exponent. rewrite Hscan. reflexivity.
Qed.

(** ** Significant digits *)

Lemma leading_zeros_digits_app (dp : byte) (ds tail : list byte) :
  is_ascii_digit dp = false -> forallb is_ascii_digit ds = true ->
  forall dc,
  leading_zeros_loop dp (ds ++ tail) dc =
  match strip_zeros ds with
  | [] => leading_zeros_loop dp tail (dc - Z.of_nat (length ds))
  | _ :: _ =>
      dc - (Z.of_nat (length ds) - Z.of_nat (length (strip_zeros ds)))
  end.
Proof.
  intros Hdp. induction ds as [| c ds IH]; intros Hds dc.
  - cbn [app strip_zeros length]. f_equal. lia.
  - cbn [forallb] in Hds. apply andb_true_iff in Hds. destruct Hds as [Hc Hds].
    cbn [app leading_zeros_loop strip_zeros].
    destruct (Byte.eqb c "0") eqn:Hz.
    + cbn [orb]. rewrite IH by exact Hds. cbn [length].
      destruct (strip_zeros ds); [f_equal |]; lia.
    + replace (Byte.eqb c dp) with false.
      * cbn [orb length]. lia.
      * symmetry. apply not_true_is_false. intros E.
        apply byte_dec_bl in E. congruence.
Qed.

Lemma strip_zeros_app (ds ds' : list byte) :
  strip_zeros (ds ++ ds') =
  match strip_zeros ds with
  | [] => strip_zeros ds'
  | _ :: _ => strip_zeros ds ++ ds'
  end.
Proof.
  induction ds as [| c ds IH]; [reflexivity |].
  cbn [app strip_zeros]. destruct (Byte.eqb c "0"); [exact IH | reflexivity].
Qed.

(** The digit count that the loop of lines 226-229 leaves is the number of
    digits from the first non-zero one on, when the decimal point is not a
    digit; when every digit is a zero the loop can run on beyond them. *)
Lemma significant_count (s : list byte) (options : parse_options) (p0 : nat) :
  (p0 <= length s)%nat ->
  is_ascii_digit (decimal_point options) = false ->
  let ds := integer_digits s p0 ++ fraction_digits s options p0 in
  let zs :=
    leading_zeros_loop (decimal_point options) (skipn p0 s)
      (Z.of_nat (length (integer_digits s p0)) +
       Z.of_nat (length (fraction_digits s options p0))) in
  zs = Z.of_nat (length (strip_zeros ds)) \/ (strip_zeros ds = [] /\ zs <= 0).
Proof.
  intros Hp0 Hdp ds zs.
  pose proof (digits_region s options p0 Hp0) as Hreg.
  pose proof (firstn_skipn (end_of_digits s options p0 - p0) (skipn p0 s)) as E.
  rewrite Hreg in E. subst zs. rewrite <- E, <- app_assoc.
  unfold integer_digits in *.
  rewrite leading_zeros_digits_app
    by (try exact Hdp; apply digit_run_digits).
  subst ds. rewrite strip_zeros_app.
  set (ids := digit_run (skipn p0 s)) in *.
  set (fds := fraction_digits s options p0) in *.
  set (rest := skipn (end_of_digits s options p0 - p0) (skipn p0 s)) in *.
  destruct (strip_zeros ids) as [| c ids'] eqn:Hids.
  2:{ left. rewrite length_app. lia. }
  replace (Z.of_nat (length ids) + Z.of_nat (length fds) -
           Z.of_nat (length ids)) with (Z.of_nat (length fds)) by lia.
  destruct (has_point s options p0) eqn:Hpt.
  - cbn [app leading_zeros_loop].
    replace (Byte.eqb (decimal_point options) "0") with false.
    2:{ symmetry. apply not_true_is_false. intros E0.
        apply byte_dec_bl in E0. rewrite E0 in Hdp. discriminate. }
    rewrite (byte_dec_lb eq_refl). cbn [orb].
    rewrite leading_zeros_digits_app
      by (try exact Hdp; apply fraction_digits_digits).
    destruct (strip_zeros fds) as [| c fds'] eqn:Hfds.
    + right. split; [reflexivity |].
      pose proof (leading_zeros_loop_le (decimal_point options) rest
                    (Z.of_nat (length fds) - Z.of_nat (length fds))).
      lia.
    + left. lia.
  - assert (Hfds : fds = []).
    { subst fds. unfold fraction_digits. rewrite Hpt. reflexivity. }
    rewrite Hfds. cbn [app length strip_zeros]. right.
    split; [reflexivity |].
    apply (leading_zeros_loop_le (decimal_point options) rest 0).
Qed.

Lemma parse_invalid_rejected (cfg : config) (s : list byte)
    (options : parse_options) :
  valid (parse_number_string cfg s options) = false ->
  rejected (parse_number_string cfg s options).
Proof.
  unfold parse_number_string.
  destruct (scan_literal cfg s options) as [a | l] eqn:Hscan.
  - intros _. apply (scan_literal_inl cfg s options a Hscan).
  - pose proof (scan_literal_inr cfg s options l Hscan) as (Hrej & _).
    destruct (finish_literal_cases cfg s options l) as [E | [Hv _]].
    + rewrite E. intros _. exact Hrej.
    + congruence.
Qed.

(** ** Ranges *)

Lemma truncating_loop_walk (cfg : config) (span : list byte) :
  forall i p, u64 i = i ->
  exists k, (k <= length span)%nat /\
    snd (truncating_loop cfg span i p) = (p + k)%nat /\
    u64 (fst (truncating_loop cfg span i p)) = fst (truncating_loop cfg span i p).
Proof.
  induction span as [| c span IH]; intros i p Hi.
  - exists 0%nat. cbn [truncating_loop fst snd length].
    repeat split; [lia | lia | exact Hi].
  - cbn [truncating_loop]. destruct (i <? minimal_nineteen_digit_integer).
    + destruct (IH (u64 (u64 (i * 10) +
                         u64 (char_to_int cfg c - char_to_int cfg "0")))
                  (S p) (u64_u64 _)) as (k & Hk & Hp & Hr).
      exists (S k). cbn [length]. rewrite Hp. repeat split; [lia | lia | exact Hr].
    + exists 0%nat. cbn [fst snd length]. repeat split; [lia | lia | exact Hi].
Qed.

Lemma span_bytes_length (s : list byte) (sp : byte_span) :
  (length (span_bytes s sp) <= len sp)%nat /\
  (length (span_bytes s sp) <= length s)%nat.
Proof.
  unfold span_bytes. destruct (ptr sp) as [q |]; cbn [length]; [| lia].
  rewrite length_firstn, length_skipn. lia.
Qed.

Lemma truncated_value_ranges (cfg : config) (s : list byte) (l : locals) :
  (span_ptr (integer (l_answer l)) + len (integer (l_answer l)) =
   l_end_of_integer_part l)%nat ->
  (l_end_of_integer_part l <= length s)%nat ->
  0 <= fst (truncated_value cfg s l) < 2 ^ 64 /\
  - Z.of_nat (length s) + l_exp_number l <= snd (truncated_value cfg s l) <=
  Z.of_nat (length s) + l_exp_number l.
Proof.
  intros Hend Hin. unfold truncated_value.
  destruct (truncating_loop_walk cfg (span_bytes s (integer (l_answer l))) 0
              (span_ptr (integer (l_answer l))) eq_refl) as (k & Hk & Hp & Hr).
  pose proof (span_bytes_length s (integer (l_answer l))) as [Hl1 Hl2].
  destruct (truncating_loop cfg (span_bytes s (integer (l_answer l))) 0
              (span_ptr (integer (l_answer l)))) as [i p].
  cbn [fst snd] in *.
  destruct (minimal_nineteen_digit_integer <=? i).
  - cbn [fst snd]. split; [rewrite <- Hr; apply u64_range | lia].
  - destruct (truncating_loop_walk cfg (span_bytes s (fraction (l_answer l))) i
                (span_ptr (fraction (l_answer l))) Hr) as (k' & Hk' & Hp' & Hr').
    pose proof (span_bytes_length s (fraction (l_answer l))) as [Hf1 Hf2].
    destruct (truncating_loop cfg (span_bytes s (fraction (l_answer l))) i
                (span_ptr (fraction (l_answer l)))) as [i' p'].
    cbn [fst snd] in *. split; [rewrite <- Hr'; apply u64_range | lia].
Qed.

Lemma finish_literal_values (cfg : config) (s : list byte)
    (options : parse_options) (l : locals) :
  let r := finish_literal cfg s options l in
  (mantissa r = mantissa (l_answer l) /\ exponent r = exponent (l_answer l)) \/
  (mantissa r = l_i l /\ exponent r = l_exponent l) \/
  (mantissa r = fst (truncated_value cfg s l) /\
   exponent r = snd (truncated_value cfg s l)).
Proof.
  unfold finish_literal. cbv zeta.
  destruct (is_json_rules (rules options) && _ && _ && _);
    [left; split; reflexivity |].
  right.
  destruct (19 <? l_digit_count l); [| left; split; reflexivity].
  match goal with
  | |- context [set_too_many_digits _ ?b] => destruct b
  end; [| left; split; reflexivity].
  right. destruct (truncated_value cfg s l). split; reflexivity.
Qed.

Lemma digit_run_nth (rest : list byte) :
  forall k, (k < length (digit_run rest))%nat ->
  is_ascii_digit (nth k rest x00) = true.
Proof.
  induction rest as [| c rest IH]; intros k Hk; cbn [digit_run] in Hk.
  - cbn [length] in Hk. lia.
  - destruct (is_ascii_digit c) eqn:Hc; [| cbn [length] in Hk; lia].
    destruct k as [| k]; [exact Hc |]. cbn [nth]. apply IH.
    cbn [length] in Hk. lia.
Qed.

Lemma digit_run_stops (tail : list byte) :
  match tail with c :: _ => is_ascii_digit c = false | [] => True end ->
  digit_run tail = [].
Proof.
  destruct tail as [| c tail]; [reflexivity |].
  intros H. cbn [digit_run]. rewrite H. reflexivity.
Qed.

(** ** The stages in every build *)

Lemma read_sign_build (cfg cfg' : config) (s : list byte)
    (options : parse_options) :
  FASTFLOAT_ALLOWS_LEADING_PLUS cfg = FASTFLOAT_ALLOWS_LEADING_PLUS cfg' ->
  read_sign cfg s options = read_sign cfg' s options.
Proof.
  intros H. unfold read_sign. rewrite !is_integer_ascii_digit, H. reflexivity.
Qed.

Lemma scan_literal_build (cfg cfg' : config) (s : list byte)
    (options : parse_options) :
  FASTFLOAT_ALLOWS_LEADING_PLUS cfg = FASTFLOAT_ALLOWS_LEADING_PLUS cfg' ->
  scan_literal cfg s options = scan_literal cfg' s options.
Proof.
  intros H. rewrite !scan_literal_digits, (read_sign_build cfg cfg' s options H).
  destruct (read_sign cfg' s options) as [a | p0] eqn:Hsign; [reflexivity |].
  pose proof (read_sign_inr cfg' s options p0 Hsign) as [_ Hp0].
  cbv zeta.
  rewrite (read_exponent_build cfg cfg')
    by apply (end_of_digits_bound s options p0 Hp0).
  reflexivity.
Qed.

Lemma truncating_loop_build (cfg cfg' : config) (span : list byte) :
  forallb is_ascii_digit span = true ->
  forall i p, truncating_loop cfg span i p = truncating_loop cfg' span i p.
Proof.
  induction span as [| c span IH]; intros Hds i p; [reflexivity |].
  cbn [forallb] in Hds. apply andb_true_iff in Hds. destruct Hds as [Hc Hds].
  cbn [truncating_loop].
  rewrite !char_to_int_zero, (digit_char_plain cfg c Hc),
    (digit_char_plain cfg' c Hc), (IH Hds).
  reflexivity.
Qed.

Lemma finish_literal_build (cfg cfg' : config) (s : list byte)
    (options : parse_options) (l : locals) :
  scan_literal cfg s options = inr l ->
  finish_literal cfg s options l = finish_literal cfg' s options l.
Proof.
  intros Hscan.
  destruct (scanned_spans cfg s options l Hscan) as (p0 & _ & _ & _ & Hi & Hf).
  assert (Htr : truncated_value cfg s l = truncated_value cfg' s l).
  { unfold truncated_value.
    rewrite (truncating_loop_build cfg cfg')
      by (rewrite Hi; apply digit_run_digits).
    destruct (truncating_loop cfg' (span_bytes s (integer (l_answer l))) 0
                (span_ptr (integer (l_answer l)))) as [i p].
    rewrite (truncating_loop_build cfg cfg')
      by (rewrite Hf; apply fraction_digits_digits).
    reflexivity. }
  unfold finish_literal. rewrite !is_integer_ascii_digit, Htr. reflexivity.
Qed.

(** ** The input cut at the last matched offset *)

Lemma prefix_integer_digits (s : list byte) (options : parse_options)
    (p0 m : nat) :
  (end_of_digits s options p0 <= m)%nat ->
  integer_digits (firstn m s) p0 = integer_digits s p0.
Proof.
  intros Hm. unfold integer_digits. apply digit_run_skipn_firstn.
  unfold end_of_digits, integer_digits in Hm.
  destruct (has_point s options p0); lia.
Qed.

Lemma prefix_has_point (s : list byte) (options : parse_options)
    (p0 m : nat) :
  (p0 <= length s)%nat ->
  (end_of_digits s options p0 <= m < length s)%nat ->
  has_point (firstn m s) options p0 = has_point s options p0.
Proof.
  intros Hp0 Hm. unfold has_point at 1.
  rewrite (prefix_integer_digits s options p0 m) by lia.
  rewrite cut_length by lia.
  destruct (has_point s options p0) eqn:Hpt.
  - destruct (has_point_inv s options p0 Hp0 Hpt) as [Hlt Hdp].
    unfold end_of_digits in Hm. rewrite Hpt in Hm.
    replace (p0 + length (integer_digits s p0) =? m)%nat with false
      by (symmetry; apply Nat.eqb_neq; lia).
    rewrite deref_firstn by lia. rewrite Hdp. apply byte_dec_lb. reflexivity.
  - unfold end_of_digits in Hm. rewrite Hpt in Hm.
    destruct (Nat.eqb_spec (p0 + length (integer_digits s p0)) m) as [E | NE];
      [reflexivity |].
    rewrite deref_firstn by lia. unfold has_point in Hpt.
    replace (p0 + length (integer_digits s p0) =? length s)%nat with false
      in Hpt by (symmetry; apply Nat.eqb_neq; lia).
    exact Hpt.
Qed.

Lemma prefix_fraction_digits (s : list byte) (options : parse_options)
    (p0 m : nat) :
  (p0 <= length s)%nat ->
  (end_of_digits s options p0 <= m < length s)%nat ->
  fraction_digits (firstn m s) options p0 = fraction_digits s options p0.
Proof.
  intros Hp0 Hm. unfold fraction_digits at 1.
  rewrite (prefix_has_point s options p0 m Hp0 Hm),
    (prefix_integer_digits s options p0 m) by lia.
  unfold fraction_digits. destruct (has_point s options p0) eqn:Hpt;
    [| reflexivity].
  apply digit_run_skipn_firstn.
  unfold end_of_digits, fraction_digits in Hm. rewrite Hpt in Hm. lia.
Qed.

Lemma prefix_end_of_digits (s : list byte) (options : parse_options)
    (p0 m : nat) :
  (p0 <= length s)%nat ->
  (end_of_digits s options p0 <= m < length s)%nat ->
  end_of_digits (firstn m s) options p0 = end_of_digits s options p0.
Proof.
  intros Hp0 Hm. unfold end_of_digits.
  rewrite (prefix_has_point s options p0 m Hp0 Hm),
    (prefix_integer_digits s options p0 m),
    (prefix_fraction_digits s options p0 m Hp0 Hm) by lia.
  reflexivity.
Qed.

Lemma prefix_read_sign (cfg : config) (s : list byte) (options : parse_options)
    (p0 m : nat) :
  read_sign cfg s options = inr p0 ->
  (p0 < m < length s)%nat ->
  read_sign cfg (firstn m s) options = inr p0 /\
  deref (firstn m s) 0 = deref s 0.
Proof.
  intros Hsign Hm. unfold read_sign in *.
  rewrite cut_length by lia. rewrite (deref_firstn s m 0) by lia.
  split; [| reflexivity].
  destruct (if FASTFLOAT_ALLOWS_LEADING_PLUS cfg
            then Byte.eqb (deref s 0) "-" || Byte.eqb (deref s 0) "+"
            else Byte.eqb (deref s 0) "-").
  - destruct (Nat.eqb_spec 1 (length s)) as [E | NE]; [discriminate |].
    destruct (negb (is_integer cfg (deref s 1)) &&
              (is_json_rules (rules options) ||
               negb (Byte.eqb (deref s 1) (decimal_point options)))) eqn:Hpass;
      [discriminate |].
    injection Hsign as <-.
    replace (1 =? m)%nat with false by (symmetry; apply Nat.eqb_neq; lia).
    rewrite (deref_firstn s m 1) by lia. rewrite Hpass. reflexivity.
  - exact Hsign.
Qed.

Lemma prefix_read_exponent (cfg : config) (s : list byte) (fmt : chars_format)
    (pe : nat) (ex : Z) (m : nat) (e' en : Z) :
  (pe <= length s)%nat -> (m < length s)%nat ->
  read_exponent cfg s fmt pe ex = Some (m, e', en) ->
  read_exponent cfg (firstn m s) fmt pe ex = Some (m, e', en).
Proof.
  intros Hpe Hm Hexp.
  pose proof (read_exponent_some cfg s fmt pe ex m e' en Hpe Hexp) as [Hle _].
  rewrite read_exponent_unfold in Hexp by exact Hpe.
  rewrite read_exponent_unfold by (rewrite cut_length; lia).
  assert (Hrollback : marker_at (firstn pe s) fmt pe = false).
  { unfold marker_at. destruct (Nat.lt_ge_cases pe (length s)).
    - rewrite cut_length by lia. rewrite Nat.eqb_refl. cbn [negb].
      rewrite andb_false_r. reflexivity.
    - rewrite firstn_all2 by lia.
      replace pe with (length s) by lia. rewrite Nat.eqb_refl. cbn [negb].
      rewrite andb_false_r. reflexivity. }
  destruct (marker_at s fmt pe) eqn:Hmark.
  - unfold marker_at in Hmark. apply andb_true_iff in Hmark.
    destruct Hmark as [Hmark He]. apply andb_true_iff in Hmark.
    destruct Hmark as [Hsci Hne]. apply negb_true_iff, Nat.eqb_neq in Hne.
    pose proof (exponent_sign_bounds s pe ltac:(lia)) as Hq.
    cbv zeta in Hexp.
    destruct (digit_run (skipn (snd (exponent_sign s pe)) s)) as [| c es] eqn:Hes.
    + destruct (fixed fmt) eqn:Hfixed; [| discriminate].
      injection Hexp as <- <- <-. rewrite Hrollback. cbn [negb].
      rewrite andb_false_r. reflexivity.
    + pose proof Hexp as Hexp2. injection Hexp2 as Hp _ _.
      cbn [length] in Hp.
      assert (Hsign : exponent_sign (firstn m s) pe = exponent_sign s pe).
      { unfold exponent_sign in *. rewrite cut_length by lia.
        destruct (Nat.eqb_spec (S pe) (length s)) as [E | NE].
        - exfalso. cbn [negb andb snd] in *.
          rewrite E, skipn_all in Hes. discriminate.
        - cbn [negb andb] in *.
          assert (S pe < m)%nat.
          { destruct (Byte.eqb "-" (deref s (S pe)));
              [cbn [snd] in *; lia |].
            destruct (Byte.eqb "+" (deref s (S pe))); cbn [snd] in *; lia. }
          replace (S pe =? m)%nat with false
            by (symmetry; apply Nat.eqb_neq; lia).
          rewrite (deref_firstn s m (S pe)) by lia. reflexivity. }
      assert (Hmark' : marker_at (firstn m s) fmt pe = true).
      { unfold marker_at. rewrite cut_length by lia.
        rewrite (deref_firstn s m pe) by lia. rewrite Hsci, He.
        replace (pe =? m)%nat with false by (symmetry; apply Nat.eqb_neq; lia).
        reflexivity. }
      rewrite Hmark', Hsign. cbv zeta.
      rewrite digit_run_skipn_firstn by (rewrite Hes; cbn [length]; lia).
      rewrite Hes. exact Hexp.
  - destruct (scientific fmt && negb (fixed fmt)) eqn:Hso; [discriminate |].
    injection Hexp as <- <- <-. rewrite Hrollback. reflexivity.
Qed.

Lemma firstn_plus {A : Type} (a b : nat) (l : list A) :
  firstn (a + b) l = firstn a l ++ firstn b (skipn a l).
Proof.
  revert l. induction a as [| a IH]; intros l; [reflexivity |].
  destruct l as [| x l]; [rewrite skipn_nil, !firstn_nil; reflexivity |].
  cbn [Nat.add firstn skipn app]. rewrite IH. reflexivity.
Qed.

Lemma digit_point_no_point (s : list byte) (options : parse_options)
    (p0 : nat) :
  is_ascii_digit (decimal_point options) = true ->
  has_point s options p0 = false.
Proof.
  intros Hdp. destruct (has_point s options p0) eqn:Hpt; [| reflexivity].
  unfold has_point in Hpt. apply andb_true_iff in Hpt. destruct Hpt as [_ E].
  apply byte_dec_bl in E. unfold integer_digits, deref in E.
  pose proof (digit_run_skipn_stop s p0) as Hstop. rewrite E in Hstop.
  congruence.
Qed.

Lemma region_digit_count (s : list byte) (options : parse_options) (p0 : nat) :
  (p0 <= length s)%nat ->
  is_ascii_digit (decimal_point options) = false ->
  let region := firstn (end_of_digits s options p0 - p0) (skipn p0 s) in
  forallb (zero_or_point (decimal_point options)) region = true ->
  leading_zeros_loop (decimal_point options) region
    (Z.of_nat (length (integer_digits s p0)) +
     Z.of_nat (length (fraction_digits s options p0))) = 0.
Proof.
  intros Hp0 Hnd region Hall. subst region.
  rewrite leading_zeros_loop_all by assumption.
  rewrite (digits_region s options p0 Hp0), filter_app.
  unfold integer_digits.
  rewrite filter_digits_all by apply digit_run_digits.
  replace (filter is_ascii_digit
             (if has_point s options p0
              then decimal_point options :: fraction_digits s options p0
              else []))
    with (fraction_digits s options p0).
  2:{ unfold fraction_digits. destruct (has_point s options p0);
        [| reflexivity].
      cbn [filter]. rewrite Hnd.
      symmetry. apply filter_digits_all, digit_run_digits. }
  rewrite length_app, Nat2Z.inj_add. ring.
Qed.

Lemma prefix_leading_zeros (s : list byte) (options : parse_options)
    (p0 m : nat) :
  (p0 <= length s)%nat ->
  (end_of_digits s options p0 <= m < length s)%nat ->
  m = end_of_digits s options p0 \/
    deref s (end_of_digits s options p0) = "e"%byte \/
    deref s (end_of_digits s options p0) = "E"%byte ->
  let dc := Z.of_nat (length (integer_digits s p0)) +
            Z.of_nat (length (fraction_digits s options p0)) in
  let zs := leading_zeros_loop (decimal_point options) (skipn p0 s) dc in
  let zt :=
    leading_zeros_loop (decimal_point options) (skipn p0 (firstn m s)) dc in
  zs = zt \/ (zs <= 0 /\ zt <= 0).
Proof.
  intros Hp0 Hm Hmark dc zs zt.
  pose proof (end_of_digits_bound s options p0 Hp0) as Hb.
  set (pe := end_of_digits s options p0) in *.
  set (dp := decimal_point options) in *.
  assert (Esplit : skipn p0 s = skipn p0 (firstn m s) ++ skipn m s).
  { rewrite skipn_firstn_comm.
    replace m with (p0 + (m - p0))%nat at 2 by lia.
    rewrite skipn_add. symmetry. apply firstn_skipn. }
  assert (Ea : skipn p0 (firstn m s) =
               firstn (pe - p0) (skipn p0 s) ++ firstn (m - pe) (skipn pe s)).
  { rewrite skipn_firstn_comm.
    replace (m - p0)%nat with ((pe - p0) + (m - pe))%nat by lia.
    rewrite firstn_plus. f_equal. f_equal.
    rewrite <- skipn_add. f_equal. lia. }
  subst zs zt. rewrite Esplit. rewrite leading_zeros_loop_app.
  destruct (forallb (zero_or_point dp) (skipn p0 (firstn m s))) eqn:Hall;
    [| left; reflexivity].
  rewrite Ea in *. rewrite forallb_app in Hall.
  apply andb_true_iff in Hall. destruct Hall as [Hreg Hrest].
  destruct (is_ascii_digit dp) eqn:Hdp.
  - left.
    assert (Hpe : pe = (p0 + length (integer_digits s p0))%nat).
    { subst pe. unfold end_of_digits.
      rewrite (digit_point_no_point s options p0 Hdp). reflexivity. }
    assert (Hstop : is_ascii_digit (deref s pe) = false).
    { rewrite Hpe. apply digit_run_skipn_stop. }
    assert (Hnz : zero_or_point dp (deref s pe) = false).
    { unfold zero_or_point. apply orb_false_iff. split.
      - destruct (Byte.eqb (deref s pe) "0") eqn:E; [| reflexivity].
        apply byte_dec_bl in E. rewrite E in Hstop. discriminate.
      - destruct (Byte.eqb (deref s pe) dp) eqn:E; [| reflexivity].
        apply byte_dec_bl in E. rewrite E in Hstop. congruence. }
    destruct (Nat.eq_dec m pe) as [-> | Hne].
    + rewrite (skipn_deref s pe) by lia. cbn [leading_zeros_loop].
      fold (zero_or_point dp (deref s pe)). rewrite Hnz. reflexivity.
    + exfalso. rewrite (skipn_deref s pe) in Hrest by lia.
      destruct (m - pe)%nat as [| k] eqn:Ek; [lia |].
      cbn [firstn forallb] in Hrest. rewrite Hnz in Hrest. discriminate.
  - right.
    assert (Hzero : leading_zeros_loop dp (firstn (pe - p0) (skipn p0 s)) dc
                    = 0)
      by apply (region_digit_count s options p0 Hp0 Hdp Hreg).
    rewrite leading_zeros_loop_app, Hreg, Hzero. cbv iota.
    pose proof (leading_zeros_loop_le dp (firstn (m - pe) (skipn pe s)) 0) as H1.
    pose proof (leading_zeros_loop_le dp (skipn m s)
                  (leading_zeros_loop dp (firstn (m - pe) (skipn pe s)) 0))
      as H2.
    lia.
Qed.

Lemma digits_before_end (s : list byte) (options : parse_options) (p0 : nat) :
  (p0 <= length s)%nat ->
  (p0 + (length (integer_digits s p0) +
         length (fraction_digits s options p0)) <=
   end_of_digits s options p0)%nat.
Proof.
  intros Hp0. unfold end_of_digits, fraction_digits.
  destruct (has_point s options p0); cbn [length]; lia.
Qed.

Lemma prefix_scan_literal (cfg : config) (s : list byte)
    (options : parse_options) (l : locals) :
  scan_literal cfg s options = inr l ->
  (l_p l < length s)%nat ->
  scan_literal cfg (firstn (l_p l) s) options = inr l.
Proof.
  intros Hscan Hm.
  pose proof (scan_literal_inr_inv cfg s options l Hscan)
    as (p0 & Hsign & Hstart & Hend & Hcount & Hnz & Hi & Hint & Hfrac & Hexp).
  pose proof (read_sign_inr cfg s options p0 Hsign) as [_ Hp0].
  pose proof (end_of_digits_bound s options p0 Hp0) as Hb.
  pose proof (digits_before_end s options p0 Hp0) as Hdb.
  pose proof (read_exponent_some cfg s (format options) _ _ _ _ _
                (proj2 Hb) Hexp) as [Hle _].
  set (m := l_p l) in *.
  assert (Hpm : (p0 < m)%nat) by lia.
  destruct (prefix_read_sign cfg s options p0 m Hsign ltac:(lia))
    as [Hsign' Hd0].
  pose proof (scan_literal_digits cfg s options) as E.
  rewrite Hscan, Hsign in E. cbv zeta in E. rewrite Hexp in E.
  rewrite scan_literal_digits, Hsign', Hd0. cbv zeta.
  rewrite (prefix_integer_digits s options p0 m) by lia.
  rewrite (prefix_has_point s options p0 m Hp0) by lia.
  rewrite (prefix_fraction_digits s options p0 m Hp0) by lia.
  rewrite (prefix_end_of_digits s options p0 m Hp0) by lia.
  rewrite (prefix_read_exponent cfg s (format options) _ _ m _ _
             (proj2 Hb) Hm Hexp).
  symmetry. exact E.
Qed.

Lemma prefix_finish_literal (cfg : config) (s : list byte)
    (options : parse_options) (l : locals) :
  scan_literal cfg s options = inr l ->
  (l_p l < length s)%nat ->
  finish_literal cfg (firstn (l_p l) s) options l =
  finish_literal cfg s options l.
Proof.
  intros Hscan Hm.
  pose proof (scan_literal_inr_inv cfg s options l Hscan)
    as (p0 & Hsign & Hstart & Hend & Hcount & Hnz & Hi & Hint & Hfrac & Hexp).
  pose proof (read_sign_inr cfg s options p0 Hsign) as [_ Hp0].
  pose proof (end_of_digits_bound s options p0 Hp0) as Hb.
  pose proof (digits_before_end s options p0 Hp0) as Hdb.
  pose proof (read_exponent_some cfg s (format options) _ _ _ _ _
                (proj2 Hb) Hexp) as [Hle _].
  set (m := l_p l) in *. set (pe := end_of_digits s options p0) in *.
  assert (Hmark : m = pe \/ deref s pe = "e"%byte \/ deref s pe = "E"%byte).
  { rewrite read_exponent_unfold in Hexp by lia.
    destruct (marker_at s (format options) pe) eqn:Hmk.
    - right. unfold marker_at in Hmk. apply andb_true_iff in Hmk.
      destruct Hmk as [_ He]. apply orb_true_iff in He.
      destruct He as [He | He]; apply byte_dec_bl in He;
        [left | right]; symmetry; exact He.
    - left. destruct (scientific (format options) && negb (fixed (format options)));
        [discriminate |].
      injection Hexp as E _ _. symmetry. exact E. }
  pose proof (prefix_leading_zeros s options p0 m Hp0 ltac:(lia) Hmark) as Hz.
  cbv zeta in Hz. rewrite <- Hcount in Hz.
  assert (Hcond :
    is_json_rules (rules options) &&
    Byte.eqb (deref (firstn m s) (l_start_digits l)) "0" &&
    (2 <=? l_digit_count l) &&
    is_integer cfg (deref (firstn m s) (S (l_start_digits l))) =
    is_json_rules (rules options) &&
    Byte.eqb (deref s (l_start_digits l)) "0" &&
    (2 <=? l_digit_count l) &&
    is_integer cfg (deref s (S (l_start_digits l)))).
  { rewrite Hstart. rewrite (deref_firstn s m p0) by lia.
    destruct (Z.leb_spec 2 (l_digit_count l)) as [H2 | H2].
    - rewrite (deref_firstn s m (S p0)) by lia. reflexivity.
    - rewrite !andb_false_r. reflexivity. }
  assert (Htrunc : truncated_value cfg (firstn m s) l = truncated_value cfg s l).
  { apply truncated_value_cut.
    - rewrite Hint. unfold span_ptr. cbn [ptr len]. lia.
    - rewrite Hfrac. subst pe. unfold span_ptr, end_of_digits in *.
      destruct (has_point s options p0); cbn [ptr len empty_span]; lia. }
  unfold finish_literal. cbv zeta. rewrite Hcond, Htrunc, Hstart.
  destruct (is_json_rules (rules options) &&
            Byte.eqb (deref s p0) "0" && (2 <=? l_digit_count l) &&
            is_integer cfg (deref s (S p0))); [reflexivity |].
  destruct (19 <? l_digit_count l); [| reflexivity].
  set (zs := leading_zeros_loop (decimal_point options) (skipn p0 s)
               (l_digit_count l)) in *.
  set (zt := leading_zeros_loop (decimal_point options)
               (skipn p0 (firstn m s)) (l_digit_count l)) in *.
  assert (E20 : (20 <? zt) = (20 <? zs)).
  { destruct Hz as [-> | [Hs Ht]]; [reflexivity |].
    destruct (Z.ltb_spec 20 zt), (Z.ltb_spec 20 zs); try reflexivity; lia. }
  assert (E19 : (19 <? zt) = (19 <? zs)).
  { destruct Hz as [-> | [Hs Ht]]; [reflexivity |].
    destruct (Z.ltb_spec 19 zt), (Z.ltb_spec 19 zs); try reflexivity; lia. }
  rewrite E20, E19. reflexivity.
Qed.

(** ** A sign put before the input *)

Lemma shift_read_exponent (cfg : config) (sg : byte) (s : list byte)
    (fmt : chars_format) (p : nat) (ex : Z) :
  (p <= length s)%nat ->
  read_exponent cfg (sg :: s) fmt (S p) ex =
  match read_exponent cfg s fmt p ex with
  | Some (p', e, en) => Some (S p', e, en)
  | None => None
  end.
Proof.
  intros Hp.
  rewrite (read_exponent_unfold cfg (sg :: s)) by (cbn [length]; lia).
  rewrite (read_exponent_unfold cfg s) by exact Hp.
  change (marker_at (sg :: s) fmt (S p)) with (marker_at s fmt p).
  assert (Hsign : exponent_sign (sg :: s) (S p) =
                  (fst (exponent_sign s p), S (snd (exponent_sign s p)))).
  { unfold exponent_sign.
    change (S (S p) =? length (sg :: s))%nat with (S p =? length s)%nat.
    change (deref (sg :: s) (S (S p))) with (deref s (S p)).
    destruct (negb (S p =? length s)%nat && Byte.eqb "-" (deref s (S p)));
      [reflexivity |].
    destruct (negb (S p =? length s)%nat && Byte.eqb "+" (deref s (S p)));
      reflexivity. }
  rewrite Hsign. cbn [fst snd skipn].
  destruct (marker_at s fmt p).
  - cbv zeta.
    destruct (digit_run (skipn (snd (exponent_sign s p)) s)) as [| c es].
    + destruct (fixed fmt); reflexivity.
    + reflexivity.
  - destruct (scientific fmt && negb (fixed fmt)); reflexivity.
Qed.

Lemma shift_has_point (sg : byte) (s : list byte) (options : parse_options)
    (p0 : nat) :
  has_point (sg :: s) options (S p0) = has_point s options p0.
Proof. reflexivity. Qed.

Lemma shift_fraction_digits (sg : byte) (s : list byte)
    (options : parse_options) (p0 : nat) :
  fraction_digits (sg :: s) options (S p0) = fraction_digits s options p0.
Proof. reflexivity. Qed.

Lemma shift_end_of_digits (sg : byte) (s : list byte)
    (options : parse_options) (p0 : nat) :
  end_of_digits (sg :: s) options (S p0) = S (end_of_digits s options p0).
Proof.
  unfold end_of_digits. rewrite shift_has_point, shift_fraction_digits.
  change (integer_digits (sg :: s) (S p0)) with (integer_digits s p0).
  destruct (has_point s options p0); reflexivity.
Qed.

Lemma shift_scan_literal (cfg : config) (sg : byte) (s : list byte)
    (options : parse_options) :
  read_sign cfg (sg :: s) options = inr 1%nat ->
  read_sign cfg s options = inr 0%nat ->
  scan_literal cfg (sg :: s) options =
  match scan_literal cfg s options with
  | inl a => inl (after_sign (Byte.eqb sg "-") a)
  | inr l => inr (shift_locals (Byte.eqb sg "-") l)
  end.
Proof.
  intros H1 H0. rewrite !scan_literal_digits, H1, H0. cbv zeta.
  rewrite shift_has_point, shift_fraction_digits, shift_end_of_digits.
  change (integer_digits (sg :: s) 1) with (integer_digits s 0).
  rewrite shift_read_exponent
    by apply (end_of_digits_bound s options 0 ltac:(lia)).
  change (deref (sg :: s) 0) with sg.
  destruct (has_point s options 0);
    (destruct ((Z.of_nat (length (integer_digits s 0)) +
                Z.of_nat (length (fraction_digits s options 0)) =? 0) || _);
     [reflexivity |]);
    destruct (read_exponent cfg s (format options) (end_of_digits s options 0)
                (- Z.of_nat (length (fraction_digits s options 0))))
      as [[[p e] en] |]; reflexivity.
Qed.

Lemma truncating_loop_shift (cfg : config) (span : list byte) :
  forall i p,
  truncating_loop cfg span i (S p) =
  (fst (truncating_loop cfg span i p), S (snd (truncating_loop cfg span i p))).
Proof.
  induction span as [| c span IH]; intros i p; [reflexivity |].
  cbn [truncating_loop]. destruct (i <? minimal_nineteen_digit_integer);
    [apply IH | reflexivity].
Qed.

Lemma shift_span_bytes (sg : byte) (s : list byte) (sp : byte_span) :
  span_bytes (sg :: s) (shift_span sp) = span_bytes s sp.
Proof. unfold span_bytes, shift_span. destruct (ptr sp); reflexivity. Qed.

Lemma shift_truncated_value (cfg : config) (sg : byte) (s : list byte)
    (b : bool) (l : locals) :
  ptr (integer (l_answer l)) <> None ->
  truncated_value cfg (sg :: s) (shift_locals b l) = truncated_value cfg s l.
Proof.
  intros Hptr. unfold truncated_value.
  cbn [shift_locals l_answer after_sign integer fraction
       l_end_of_integer_part l_exp_number].
  rewrite !shift_span_bytes.
  assert (Ei : span_ptr (shift_span (integer (l_answer l))) =
               S (span_ptr (integer (l_answer l)))).
  { unfold span_ptr, shift_span. cbn [ptr].
    destruct (ptr (integer (l_answer l))); [reflexivity | contradiction]. }
  rewrite Ei, truncating_loop_shift.
  destruct (truncating_loop cfg (span_bytes s (integer (l_answer l))) 0
              (span_ptr (integer (l_answer l)))) as [i p].
  cbn [fst snd].
  destruct (minimal_nineteen_digit_integer <=? i).
  - f_equal. lia.
  - assert (Ef : span_ptr (shift_span (fraction (l_answer l))) =
                 match ptr (fraction (l_answer l)) with
                 | Some _ => S (span_ptr (fraction (l_answer l)))
                 | None => span_ptr (fraction (l_answer l))
                 end).
    { unfold span_ptr, shift_span. cbn [ptr].
      destruct (ptr (fraction (l_answer l))); reflexivity. }
    rewrite Ef. destruct (ptr (fraction (l_answer l))) as [q |];
      [| reflexivity].
    rewrite truncating_loop_shift.
    destruct (truncating_loop cfg (span_bytes s (fraction (l_answer l))) i
                (span_ptr (fraction (l_answer l)))) as [i' p'].
    cbn [fst snd]. f_equal. lia.
Qed.

Lemma shift_finish_literal (cfg : config) (sg : byte) (s : list byte)
    (options : parse_options) (b : bool) (l : locals) :
  ptr (integer (l_answer l)) <> None ->
  finish_literal cfg (sg :: s) options (shift_locals b l) =
  after_sign b (finish_literal cfg s options l).
Proof.
  intros Hptr. unfold finish_literal. cbv zeta.
  rewrite (shift_truncated_value cfg sg s b l Hptr).
  cbn [shift_locals l_start_digits l_digit_count l_p l_answer
       l_end_of_integer_part l_i l_exponent skipn Nat.eqb].
  change (deref (sg :: s) (S (l_start_digits l)))
    with (deref s (l_start_digits l)).
  change (deref (sg :: s) (S (S (l_start_digits l))))
    with (deref s (S (l_start_digits l))).
  destruct (is_json_rules (rules options) &&
            Byte.eqb (deref s (l_start_digits l)) "0" &&
            (2 <=? l_digit_count l) &&
            is_integer cfg (deref s (S (l_start_digits l)))); [reflexivity |].
  destruct (19 <? l_digit_count l); [| reflexivity].
  cbn [set_matched is_64bit_int after_sign].
  match goal with
  | |- context [set_too_many_digits _ ?c] => destruct c
  end; [| reflexivity].
  destruct (truncated_value cfg s l). reflexivity.
Qed.

(** ** The rules compared *)

Lemma read_sign_json_std (cfg : config) (s : list byte) (o : parse_options)
    (p0 : nat) :
  read_sign cfg s (with_rules json_rules o) = inr p0 ->
  read_sign cfg s (with_rules std_rules o) = inr p0.
Proof.
  unfold read_sign. cbn [rules with_rules is_json_rules orb decimal_point].
  destruct (if FASTFLOAT_ALLOWS_LEADING_PLUS cfg
            then Byte.eqb (deref s 0) "-" || Byte.eqb (deref s 0) "+"
            else Byte.eqb (deref s 0) "-"); [| trivial].
  destruct (1 =? length s)%nat; [discriminate |].
  rewrite andb_true_r.
  destruct (is_integer cfg (deref s 1)); [trivial | discriminate].
Qed.

(** ** A literal given by its parts *)

Lemma skipn_app_length {A : Type} (a b : list A) (k : nat) :
  skipn (length a + k) (a ++ b) = skipn k b.
Proof.
  rewrite skipn_app, skipn_all2 by lia.
  replace (length a + k - length a)%nat with k by lia. reflexivity.
Qed.

Lemma deref_app_length (a b : list byte) (k : nat) :
  deref (a ++ b) (length a + k) = deref b k.
Proof.
  unfold deref. rewrite app_nth2 by lia. f_equal. lia.
Qed.

Lemma literal_notions (sign ids : list byte) (point : option (list byte))
    (tail : list byte) (options : parse_options) :
  forallb is_ascii_digit ids = true ->
  forallb is_ascii_digit (digits_after_point point) = true ->
  is_ascii_digit (decimal_point options) = false ->
  ends_literal (decimal_point options) point tail ->
  let s := sign ++ ids ++ point_part (decimal_point options) point ++ tail in
  integer_digits s (length sign) = ids /\
  has_point s options (length sign) =
    match point with Some _ => true | None => false end /\
  fraction_digits s options (length sign) = digits_after_point point /\
  end_of_digits s options (length sign) = (length s - length tail)%nat /\
  skipn (length s - length tail) s = tail.
Proof.
  intros Hids Hfds Hdp Htail s.
  assert (Htail0 : digit_run tail = []).
  { destruct tail as [| c tail]; [reflexivity |].
    cbn [digit_run]. destruct Htail as (Hc & _). rewrite Hc. reflexivity. }
  assert (Hrun : digit_run (point_part (decimal_point options) point ++ tail)
                 = []).
  { destruct point as [fds |]; cbn [point_part app digit_run];
      [rewrite Hdp; reflexivity | exact Htail0]. }
  assert (Ei : integer_digits s (length sign) = ids).
  { unfold integer_digits. subst s. rewrite skipn_length_app.
    rewrite digit_run_app by exact Hids. rewrite Hrun. apply app_nil_r. }
  assert (Elen : length s =
                 (length sign + length ids +
                  length (point_part (decimal_point options) point) +
                  length tail)%nat).
  { subst s. rewrite !length_app. lia. }
  assert (Ep : has_point s options (length sign) =
               match point with Some _ => true | None => false end).
  { unfold has_point. rewrite Ei. subst s.
    rewrite deref_app_length.
    rewrite <- (Nat.add_0_r (length ids)) at 2. rewrite deref_app_length.
    rewrite Elen. destruct point as [fds |]; cbn [point_part app length deref nth].
    - unfold deref. cbn [nth]. rewrite (byte_dec_lb eq_refl).
      replace (length sign + length ids =?
               length sign + length ids + S (length fds) + length tail)%nat
        with false by (symmetry; apply Nat.eqb_neq; lia).
      reflexivity.
    - destruct tail as [| c tail].
      + cbn [length]. replace (length sign + length ids + 0 + 0)%nat
          with (length sign + length ids)%nat by lia.
        rewrite Nat.eqb_refl. reflexivity.
      + destruct Htail as (_ & _ & _ & Hne). unfold deref. cbn [nth].
        replace (Byte.eqb c (decimal_point options)) with false;
          [apply andb_false_r |].
        symmetry. apply not_true_is_false. intros E.
        apply byte_dec_bl in E. apply (Hne eq_refl E). }
  assert (Ef : fraction_digits s options (length sign) =
               digits_after_point point).
  { unfold fraction_digits. rewrite Ep, Ei.
    destruct point as [fds |]; [| reflexivity].
    subst s. cbn [point_part digits_after_point] in *.
    replace (S (length sign + length ids))
      with (length sign + (length ids + 1))%nat by lia.
    rewrite skipn_app_length.
    replace (ids ++ (decimal_point options :: fds) ++ tail)
      with ((ids ++ [decimal_point options]) ++ fds ++ tail)
      by (rewrite <- app_assoc; reflexivity).
    replace (length ids + 1)%nat
      with (length (ids ++ [decimal_point options]) + 0)%nat
      by (rewrite length_app; cbn [length]; lia).
    rewrite skipn_app_length. cbn [skipn].
    rewrite digit_run_app by exact Hfds. rewrite Htail0. apply app_nil_r. }
  assert (Ee : end_of_digits s options (length sign) =
               (length s - length tail)%nat).
  { unfold end_of_digits. rewrite Ep, Ei, Ef, Elen.
    destruct point as [fds |]; cbn [point_part digits_after_point length]; lia. }
  repeat split; try assumption.
  subst s. rewrite Elen.
  replace (length sign + length ids +
           length (point_part (decimal_point options) point) +
           length tail - length tail)%nat
    with (length (sign ++ ids ++ point_part (decimal_point options) point) + 0)%nat
    by (rewrite !length_app; lia).
  rewrite !app_assoc. rewrite <- !app_assoc.
  replace (sign ++ ids ++ point_part (decimal_point options) point ++ tail)
    with ((sign ++ ids ++ point_part (decimal_point options) point) ++ tail)
    by (rewrite <- !app_assoc; reflexivity).
  apply skipn_app_length.
Qed.

(** ** The sample bytes *)

Lemma ascii_sample_plain :
  forall k, (k < 8)%nat -> byte_val (nth k ascii_sample x00) < 128.
Proof.
  intros k Hk.
  do 8 (destruct k as [| k]; [vm_compute; reflexivity |]). lia.
Qed.

Lemma ascii_sample_digits :
  forall k, (k < 8)%nat -> 0x30 <= byte_val (nth k ascii_sample x00) <= 0x39.
Proof.
  intros k Hk.
  do 8 (destruct k as [| k]; [vm_compute; split; discriminate |]). lia.
Qed.

(** * Further properties of the code *)

(** ** Characters and words *)

(** X1.  [is_integer] accepts exactly the bytes ['0'] (0x30) to ['9'] (0x39),
    whether plain [char] is signed or not: a byte above 0x7F is never a
    digit. *)
Theorem is_integer_iff (cfg : config) (c : byte) :
  is_integer cfg c = true <-> 0x30 <= byte_val c <= 0x39.
Proof.
  rewrite is_integer_ascii_digit. unfold is_ascii_digit, is_digit_value.
  rewrite andb_true_iff, !Z.leb_le. reflexivity.
Qed.

(** X2.  [byteswap] reverses the eight byte lanes of a 64-bit word: lane [k]
    of the result is lane [7 - k] of the argument. *)
Theorem byteswap_lanes (val : Z) (k : nat) :
  0 <= val < 2 ^ 64 -> (k < 8)%nat ->
  byte_lane (byteswap val) k = byte_lane val (7 - k).
Proof.
  intros Hv Hk. rewrite byteswap_word by exact Hv.
  unfold lanes_of. cbn [seq map rev app].
  rewrite byte_lane_le_word by (try apply byte_lane_range; exact Hk).
  do 8 (destruct k as [| k]; [reflexivity |]). lia.
Qed.

(** X2 at the word 0x0102030405060708. *)
Lemma byteswap_lanes_witness :
  0 <= 0x0102030405060708 < 2 ^ 64 /\ (0 < 8)%nat /\
  byte_lane (byteswap 0x0102030405060708) 0 =
  byte_lane 0x0102030405060708 (7 - 0).
Proof.
  split; [lia |]. split; [lia |].
  apply (byteswap_lanes 0x0102030405060708 0); lia.
Defined.

(** X3.  [byteswap] maps 64-bit words to 64-bit words and is its own
    inverse. *)
Theorem byteswap_involutive (val : Z) :
  0 <= val < 2 ^ 64 ->
  0 <= byteswap val < 2 ^ 64 /\ byteswap (byteswap val) = val.
Proof.
  intros Hv. split; [apply byteswap_range; exact Hv |].
  rewrite (byteswap_word val Hv). unfold lanes_of. cbn [seq map rev app].
  rewrite byteswap_le_word by apply byte_lane_range.
  apply (word_of_lanes val Hv).
Qed.

(** X3 at the word 0x0102030405060708. *)
Lemma byteswap_involutive_witness :
  0 <= 0x0102030405060708 < 2 ^ 64 /\
  0 <= byteswap 0x0102030405060708 < 2 ^ 64 /\
  byteswap (byteswap 0x0102030405060708) = 0x0102030405060708.
Proof.
  split; [lia |]. apply (byteswap_involutive 0x0102030405060708). lia.
Defined.

(** X4.  [read_u64] returns a 64-bit word whose lane [k] is byte [k] of the
    memory read, on little-endian and on big-endian hosts alike; for a
    constant-evaluated call where plain [char] is signed this needs the
    bytes to be below 0x80. *)
Theorem read_u64_little_endian (cfg : config) (chars : list byte) :
  (8 <= length chars)%nat ->
  (cpp20_and_in_constexpr cfg = true -> char_is_signed cfg = true ->
   forall k, (k < 8)%nat -> byte_val (nth k chars x00) < 128) ->
  0 <= read_u64 cfg chars < 2 ^ 64 /\
  forall k, (k < 8)%nat ->
    byte_lane (read_u64 cfg chars) k = byte_val (nth k chars x00).
Proof.
  intros _ Hplain. split; [apply read_u64_range |].
  apply read_u64_lane. exact Hplain.
Qed.

(** X4 at the bytes "12345678", constant-evaluated with a signed [char]. *)
Lemma read_u64_little_endian_witness :
  (8 <= length ascii_sample)%nat /\
  0 <= read_u64 signed_char_config ascii_sample < 2 ^ 64 /\
  forall k, (k < 8)%nat ->
    byte_lane (read_u64 signed_char_config ascii_sample) k =
    byte_val (nth k ascii_sample x00).
Proof.
  split; [cbn; lia |].
  apply (read_u64_little_endian signed_char_config ascii_sample).
  - cbn. lia.
  - intros _ _. exact ascii_sample_plain.
Defined.

(** X5.  The constant-evaluated loop of [read_u64] returns the word of the
    [memcpy] path exactly when plain [char] is unsigned or every byte that
    follows a byte above 0x7F is 0xFF (the bits that the sign extension sets
    are then set anyway). *)
Theorem read_u64_paths_agree_iff (cfg : config) (chars : list byte) :
  (8 <= length chars)%nat ->
  (read_u64_constexpr cfg chars = read_u64_runtime cfg chars <->
   char_is_signed cfg = false \/
   forall k j, (k < j < 8)%nat -> 128 <= byte_val (nth k chars x00) ->
               byte_val (nth j chars x00) = 255).
Proof.
  intros _. rewrite read_u64_runtime_canonical. split.
  - intros E. destruct (char_is_signed cfg) eqn:Hs; [right | left; reflexivity].
    intros k j Hkj Hk. apply all_bits_set; [apply byte_val_range |].
    intros b Hb. fold (deref chars j).
    rewrite <- canonical_bit, <- E by (try assumption; lia).
    apply constexpr_bit; [lia | exact Hb |]. right. exists k.
    split; [lia |]. unfold negative_char. rewrite Hs. cbn [andb].
    apply Z.leb_le. exact Hk.
  - intros H. destruct H as [Hs | H].
    { rewrite <- read_u64_runtime_canonical with (cfg := cfg).
      apply read_u64_paths_agree. intros k _. left. exact Hs. }
    assert (Hr : 0 <= read_u64_constexpr cfg chars < 2 ^ 64).
    { pose proof (read_u64_loop_range cfg 8 0 chars 0 eq_refl) as Hr.
      fold (read_u64_constexpr cfg chars) in Hr. rewrite <- Hr.
      apply u64_range. }
    apply Z.bits_inj'. intros n Hn.
    destruct (Z.ltb_spec n 64) as [Hlt | Hge].
    2:{ rewrite !word_high_bits
          by (try assumption; try apply canonical_word_range; lia).
        reflexivity. }
    set (j := Z.to_nat (n / 8)). set (b := n mod 8).
    assert (Hj : (j < 8)%nat).
    { subst j. apply Nat2Z.inj_lt. rewrite Z2Nat.id by (apply Z.div_pos; lia).
      apply Z.div_lt_upper_bound; lia. }
    assert (Hb : 0 <= b < 8) by (subst b; apply Z.mod_pos_bound; lia).
    assert (En : n = 8 * Z.of_nat j + b).
    { subst j b. rewrite Z2Nat.id by (apply Z.div_pos; lia).
      apply Z.div_mod. lia. }
    rewrite En. rewrite canonical_bit by assumption.
    apply eq_true_iff_eq. rewrite constexpr_bit by assumption.
    split; [| intros Hbit; left; exact Hbit].
    intros [Hbit | (k & Hk & Hneg)]; [exact Hbit |].
    unfold negative_char in Hneg. apply andb_true_iff in Hneg.
    destruct Hneg as [_ Hneg]. apply Z.leb_le in Hneg.
    unfold deref in *. rewrite (H k j) by (try assumption; lia).
    pose proof (forall_byte_value
      (fun b => Z.testbit 255 (b mod 8)) eq_refl b ltac:(lia)) as Hbit.
    cbv beta in Hbit. rewrite Z.mod_small in Hbit by lia. exact Hbit.
Qed.

(** X5 at the bytes "12345678". *)
Lemma read_u64_paths_agree_iff_witness :
  (8 <= length ascii_sample)%nat /\
  (read_u64_constexpr signed_char_config ascii_sample =
   read_u64_runtime signed_char_config ascii_sample <->
   char_is_signed signed_char_config = false \/
   forall k j, (k < j < 8)%nat ->
     128 <= byte_val (nth k ascii_sample x00) ->
     byte_val (nth j ascii_sample x00) = 255).
Proof.
  split; [cbn; lia |].
  apply (read_u64_paths_agree_iff signed_char_config ascii_sample).
  cbn. lia.
Defined.

(** X6.  [write_u64] stores the eight lanes of the word, lane 0 first, at
    [chars] and leaves the bytes after them as they were; its two paths store
    the same bytes, on little-endian and on big-endian hosts. *)
Theorem write_u64_bytes (cfg : config) (chars : list byte) (val : Z) :
  0 <= val < 2 ^ 64 -> (8 <= length chars)%nat ->
  write_u64 cfg chars val =
    map (fun k => byte_of_val (byte_lane val k)) (seq 0 8) ++ skipn 8 chars /\
  length (write_u64 cfg chars val) = length chars.
Proof.
  intros Hv Hlen. rewrite write_u64_lanes by exact Hv.
  split; [reflexivity |].
  rewrite length_app, length_map, length_seq, length_skipn. lia.
Qed.

(** X6 at the word whose lanes are "12345678", stored in nine zero bytes. *)
Lemma write_u64_bytes_witness :
  let buffer := repeat x00 9 in
  0 <= 0x3837363534333231 < 2 ^ 64 /\ (8 <= length buffer)%nat /\
  write_u64 default_config buffer 0x3837363534333231 =
    map (fun k => byte_of_val (byte_lane 0x3837363534333231 k)) (seq 0 8) ++
    skipn 8 buffer /\
  length (write_u64 default_config buffer 0x3837363534333231) = length buffer.
Proof.
  split; [lia |]. split; [cbn; lia |].
  apply (write_u64_bytes default_config (repeat x00 9) 0x3837363534333231).
  - lia.
  - cbn. lia.
Defined.

(** X7.  Reading back what [write_u64] has stored gives the word (for a
    constant-evaluated call where plain [char] is signed, when the lanes of
    the word are below 0x80). *)
Theorem read_u64_write_u64 (cfg : config) (chars : list byte) (val : Z) :
  0 <= val < 2 ^ 64 -> (8 <= length chars)%nat ->
  (cpp20_and_in_constexpr cfg = true -> char_is_signed cfg = true ->
   forall k, (k < 8)%nat -> byte_lane val k < 128) ->
  read_u64 cfg (write_u64 cfg chars val) = val.
Proof.
  intros Hv _ Hplain. rewrite write_u64_lanes by exact Hv.
  set (out := map (fun k => byte_of_val (byte_lane val k)) (seq 0 8) ++
              skipn 8 chars).
  assert (Hout : forall k, (k < 8)%nat ->
            byte_val (nth k out x00) = byte_lane val k).
  { intros k Hk. subst out. rewrite app_nth1
      by (rewrite length_map, length_seq; exact Hk).
    rewrite (nth_indep _ x00 (byte_of_val (byte_lane val 0)))
      by (rewrite length_map, length_seq; exact Hk).
    rewrite (map_nth (fun k => byte_of_val (byte_lane val k)) (seq 0 8) 0%nat).
    rewrite seq_nth by exact Hk. cbn [Nat.add].
    rewrite byte_val_of_val. unfold u8. apply Z.mod_small.
    apply byte_lane_range. }
  apply lanes_word_eq; [apply read_u64_range | exact Hv |].
  intros k Hk. rewrite read_u64_lane; [apply Hout; exact Hk | | exact Hk].
  intros Hc Hs j Hj. rewrite Hout by exact Hj. apply Hplain; assumption.
Qed.

(** X7 at the word whose lanes are "12345678". *)
Lemma read_u64_write_u64_witness :
  let buffer := repeat x00 8 in
  0 <= 0x3837363534333231 < 2 ^ 64 /\ (8 <= length buffer)%nat /\
  read_u64 signed_char_config
    (write_u64 signed_char_config buffer 0x3837363534333231) =
  0x3837363534333231.
Proof.
  split; [lia |]. split; [cbn; lia |].
  apply (read_u64_write_u64 signed_char_config (repeat x00 8)
           0x3837363534333231).
  - lia.
  - cbn. lia.
  - intros _ _ k Hk.
    do 8 (destruct k as [| k]; [vm_compute; reflexivity |]). lia.
Defined.

(** X8.  Storing with [write_u64] the word that [read_u64] has read from the
    same place leaves the memory as it was (under the same condition on a
    constant-evaluated call with a signed [char]). *)
Theorem write_u64_read_u64 (cfg : config) (chars : list byte) :
  (8 <= length chars)%nat ->
  (cpp20_and_in_constexpr cfg = true -> char_is_signed cfg = true ->
   forall k, (k < 8)%nat -> byte_val (nth k chars x00) < 128) ->
  write_u64 cfg chars (read_u64 cfg chars) = chars.
Proof.
  intros Hlen Hplain. rewrite write_u64_lanes by apply read_u64_range.
  transitivity (firstn 8 chars ++ skipn 8 chars); [| apply firstn_skipn].
  f_equal.
  rewrite <- (map_nth_seq x00 chars 8 Hlen).
  apply map_ext_in. intros k Hk. apply in_seq in Hk.
  rewrite read_u64_lane by (try exact Hplain; lia).
  apply byte_of_val_val.
Qed.

(** X8 at the bytes "12345678". *)
Lemma write_u64_read_u64_witness :
  (8 <= length ascii_sample)%nat /\
  write_u64 signed_char_config ascii_sample
    (read_u64 signed_char_config ascii_sample) = ascii_sample.
Proof.
  split; [cbn; lia |].
  apply (write_u64_read_u64 signed_char_config ascii_sample).
  - cbn. lia.
  - intros _ _. exact ascii_sample_plain.
Defined.

(** X9.  [is_made_of_eight_digits_fast] on a pointer returns true exactly
    when the eight bytes at the pointer are ASCII digits, in every build:
    also with a signed [char] in a constant-evaluated call, where the word
    loaded can differ from the bytes. *)
Theorem is_made_of_eight_digits_fast_chars_spec (cfg : config)
    (chars : list byte) :
  (8 <= length chars)%nat ->
  (is_made_of_eight_digits_fast_chars cfg chars = true <->
   forall k, (k < 8)%nat -> 0x30 <= byte_val (nth k chars x00) <= 0x39).
Proof.
  intros _. unfold is_made_of_eight_digits_fast_chars.
  rewrite eight_digits_check, forallb_forall. split.
  - intros H k Hk. specialize (H k ltac:(apply in_seq; lia)).
    unfold is_ascii_digit, is_digit_value, deref in H.
    apply andb_true_iff in H. destruct H as [H1 H2].
    apply Z.leb_le in H1, H2. lia.
  - intros H k Hk. apply in_seq in Hk. specialize (H k ltac:(lia)).
    unfold is_ascii_digit, is_digit_value, deref.
    apply andb_true_iff. split; apply Z.leb_le; lia.
Qed.

(** X9 at the bytes "12345678". *)
Lemma is_made_of_eight_digits_fast_chars_spec_witness :
  (8 <= length ascii_sample)%nat /\
  (is_made_of_eight_digits_fast_chars signed_char_config ascii_sample = true <->
   forall k, (k < 8)%nat ->
     0x30 <= byte_val (nth k ascii_sample x00) <= 0x39).
Proof.
  split; [cbn; lia |].
  apply (is_made_of_eight_digits_fast_chars_spec signed_char_config
           ascii_sample).
  cbn. lia.
Defined.

(** X10.  [parse_eight_digits_unrolled] on a pointer to eight ASCII digits
    returns their decimal value, the first byte being the most significant
    digit, in every build. *)
Theorem parse_eight_digits_unrolled_chars_spec (cfg : config)
    (chars : list byte) :
  (8 <= length chars)%nat ->
  (forall k, (k < 8)%nat -> 0x30 <= byte_val (nth k chars x00) <= 0x39) ->
  parse_eight_digits_unrolled_chars cfg chars = decimal (firstn 8 chars) 0.
Proof.
  intros Hlen Hd. unfold parse_eight_digits_unrolled_chars.
  assert (Hall : forallb (fun k => is_ascii_digit (deref chars k)) (seq 0 8)
                 = true).
  { apply forallb_forall. intros k Hk. apply in_seq in Hk.
    specialize (Hd k ltac:(lia)). unfold is_ascii_digit, is_digit_value, deref.
    apply andb_true_iff. split; apply Z.leb_le; lia. }
  pose proof (eight_digits_parse cfg chars 0 eq_refl Hall) as E.
  assert (Hr : 0 <= parse_eight_digits_unrolled (read_u64 cfg chars) < 2 ^ 32).
  { unfold parse_eight_digits_unrolled. cbv zeta. unfold u32.
    apply Z.mod_pos_bound. lia. }
  change (u64 (0 * 100000000)) with 0 in E. rewrite Z.add_0_l in E.
  rewrite u64_small in E by (change (2 ^ 64) with 18446744073709551616;
    change (2 ^ 32) with 4294967296 in Hr; lia).
  rewrite E.
  replace (map (deref chars) (seq 0 8)) with (firstn 8 chars)
    by (symmetry; apply (map_nth_seq x00 chars 8 Hlen)).
  apply accumulate_significant.
  - rewrite <- forallb_seq_firstn by exact Hlen. exact Hall.
  - pose proof (strip_zeros_length (firstn 8 chars)) as Hs.
    rewrite length_firstn in Hs. lia.
Qed.

(** X10 at the bytes "12345678". *)
Lemma parse_eight_digits_unrolled_chars_spec_witness :
  (8 <= length ascii_sample)%nat /\
  parse_eight_digits_unrolled_chars signed_char_config ascii_sample =
  decimal (firstn 8 ascii_sample) 0.
Proof.
  split; [cbn; lia |].
  apply (parse_eight_digits_unrolled_chars_spec signed_char_config
           ascii_sample).
  - cbn. lia.
  - exact ascii_sample_digits.
Defined.

(** ** The scanner: builds, signs and spans *)

(** X11.  The result of [parse_number_string] does not depend on the
    signedness of plain [char], on the byte order of the host or on whether
    the call is constant-evaluated: two builds that agree on
    [FASTFLOAT_ALLOWS_LEADING_PLUS] return the same result. *)
Theorem build_independent (cfg cfg' : config) (s : list byte)
    (options : parse_options) :
  FASTFLOAT_ALLOWS_LEADING_PLUS cfg = FASTFLOAT_ALLOWS_LEADING_PLUS cfg' ->
  parse_number_string cfg s options = parse_number_string cfg' s options.
Proof.
  intros H. unfold parse_number_string.
  rewrite <- (scan_literal_build cfg cfg' s options H).
  destruct (scan_literal cfg s options) as [a | l] eqn:Hscan; [reflexivity |].
  apply finish_literal_build. exact Hscan.
Qed.

(** X11 at "1.1234567890123456789012345e-12", for a constant-evaluated call
    with a signed [char] and for the usual build. *)
Lemma build_independent_witness :
  FASTFLOAT_ALLOWS_LEADING_PLUS signed_char_config =
    FASTFLOAT_ALLOWS_LEADING_PLUS default_config /\
  parse_number_string signed_char_config long_fraction_literal
    (options_with general std_rules false) =
  parse_number_string default_config long_fraction_literal
    (options_with general std_rules false).
Proof.
  split; [reflexivity |].
  apply (build_independent signed_char_config default_config
           long_fraction_literal (options_with general std_rules false)).
  reflexivity.
Defined.

(** X12.  On every return path, [negative] is set exactly when the first
    byte of the input is ['-']. *)
Theorem negative_iff_leading_minus (cfg : config) (s : list byte)
    (options : parse_options) :
  s <> [] ->
  (negative (parse_number_string cfg s options) = true <->
   exists rest, s = "-"%byte :: rest).
Proof.
  intros Hs. destruct (parse_recorded cfg s options) as [Hneg _].
  cbv zeta in Hneg. rewrite Hneg.
  destruct s as [| c rest]; [contradiction |].
  unfold deref. cbn [nth]. split.
  - intros E. apply byte_dec_bl in E. subst c. exists rest. reflexivity.
  - intros (rest' & E). injection E as -> _. reflexivity.
Qed.

(** X12 at "-12.5e3x". *)
Lemma negative_iff_leading_minus_witness :
  signed_literal <> [] /\
  (negative (parse_number_string default_config signed_literal
               (options_with general std_rules false)) = true <->
   exists rest, signed_literal = "-"%byte :: rest).
Proof.
  split; [discriminate |].
  apply (negative_iff_leading_minus default_config signed_literal
           (options_with general std_rules false)).
  discriminate.
Defined.

(** X13.  A sign that ends the input, or that is followed by a byte that is
    neither a digit nor (under the standard rules) the decimal point, makes
    the scan return at once: the result has its default values, but for
    [negative]. *)
Theorem sign_needs_digit (cfg : config) (sg : byte) (rest : list byte)
    (options : parse_options) :
  is_sign cfg [sg] ->
  match rest with
  | [] => True
  | c :: _ =>
      is_ascii_digit c = false /\
      (rules options = json_rules \/ c <> decimal_point options)
  end ->
  parse_number_string cfg (sg :: rest) options =
  set_negative default_answer (Byte.eqb sg "-").
Proof.
  intros Hsign Hrest.
  assert (Hsg : (if FASTFLOAT_ALLOWS_LEADING_PLUS cfg
                 then Byte.eqb sg "-" || Byte.eqb sg "+"
                 else Byte.eqb sg "-") = true).
  { destruct Hsign as [E | [E | [Hplus E]]]; [discriminate | |];
      injection E as ->.
    - destruct (FASTFLOAT_ALLOWS_LEADING_PLUS cfg); reflexivity.
    - rewrite Hplus. reflexivity. }
  unfold parse_number_string, scan_literal, read_digits, read_sign.
  unfold deref. cbn [nth length]. rewrite Hsg.
  destruct rest as [| c rest]; [reflexivity |].
  destruct Hrest as [Hc Hdp]. cbn [length Nat.eqb nth].
  rewrite is_integer_ascii_digit, Hc. cbn [negb andb].
  replace (is_json_rules (rules options) ||
           negb (Byte.eqb c (decimal_point options))) with true; [reflexivity |].
  symmetry. destruct Hdp as [-> | Hne]; [reflexivity |].
  apply orb_true_iff. right. apply negb_true_iff.
  apply not_true_is_false. intros E. apply byte_dec_bl in E. contradiction.
Qed.

(** X13 at "-.5" under the json rules. *)
Lemma sign_needs_digit_witness :
  parse_number_string default_config (list_byte_of_string "-.5")
    (options_with general json_rules false) =
  set_negative default_answer true.
Proof.
  apply (sign_needs_digit default_config "-"%byte (list_byte_of_string ".5")
           (options_with general json_rules false)).
  - right. left. reflexivity.
  - split; [reflexivity | left; reflexivity].
Defined.

(** X14.  Where [FASTFLOAT_ALLOWS_LEADING_PLUS] is off, an input that starts
    with ['+'] is invalid (the decimal point being another byte). *)
Theorem leading_plus_rejected (cfg : config) (rest : list byte)
    (options : parse_options) :
  FASTFLOAT_ALLOWS_LEADING_PLUS cfg = false ->
  decimal_point options <> "+"%byte ->
  valid (parse_number_string cfg ("+"%byte :: rest) options) = false.
Proof.
  intros Hplus Hdp.
  assert (Hsign : read_sign cfg ("+"%byte :: rest) options = inr 0%nat).
  { unfold read_sign, deref. cbn [nth]. rewrite Hplus. reflexivity. }
  unfold parse_number_string. rewrite scan_literal_digits, Hsign. cbv zeta.
  assert (Hids : integer_digits ("+"%byte :: rest) 0 = []) by reflexivity.
  assert (Hpt : has_point ("+"%byte :: rest) options 0 = false).
  { unfold has_point. rewrite Hids. unfold deref. cbn [length Nat.add nth].
    replace (Byte.eqb "+" (decimal_point options)) with false;
      [apply andb_false_r |].
    symmetry. apply not_true_is_false. intros E. apply byte_dec_bl in E.
    congruence. }
  unfold fraction_digits. rewrite Hids, Hpt. reflexivity.
Qed.

(** X14 at "+1.5". *)
Lemma leading_plus_rejected_witness :
  valid (parse_number_string default_config (list_byte_of_string "+1.5")
           (options_with general std_rules false)) = false.
Proof.
  apply (leading_plus_rejected default_config (list_byte_of_string "1.5")
           (options_with general std_rules false)).
  - reflexivity.
  - discriminate.
Defined.

(** X15.  A sign put before a literal that starts with a digit, or with the
    decimal point under the standard rules, changes the result in two ways
    only: [negative] tells whether the sign is ['-'], and [lastmatch] and the
    spans are moved by one byte. *)
Theorem sign_prefix (cfg : config) (sg c : byte) (rest : list byte)
    (options : parse_options) :
  is_sign cfg [sg] ->
  c <> "-"%byte -> c <> "+"%byte ->
  is_ascii_digit c = true \/
    (rules options = std_rules /\ c = decimal_point options) ->
  parse_number_string cfg (sg :: c :: rest) options =
  after_sign (Byte.eqb sg "-") (parse_number_string cfg (c :: rest) options).
Proof.
  intros Hsign Hm Hp Hc.
  pose proof (read_sign_structured cfg [sg] c rest options Hsign Hm Hp Hc)
    as H1.
  pose proof (read_sign_structured cfg [] c rest options (or_introl eq_refl)
                Hm Hp Hc) as H0.
  cbn [app length] in H1, H0.
  unfold parse_number_string.
  rewrite (shift_scan_literal cfg sg (c :: rest) options H1 H0).
  destruct (scan_literal cfg (c :: rest) options) as [a | l] eqn:Hscan;
    [reflexivity |].
  apply shift_finish_literal.
  pose proof (scan_literal_inr_inv cfg (c :: rest) options l Hscan)
    as (p0 & _ & _ & _ & _ & _ & _ & Hint & _).
  rewrite Hint. discriminate.
Qed.

(** X15 at "-12.5e3x". *)
Lemma sign_prefix_witness :
  parse_number_string default_config signed_literal
    (options_with general std_rules false) =
  after_sign true
    (parse_number_string default_config (list_byte_of_string "12.5e3x")
       (options_with general std_rules false)).
Proof.
  apply (sign_prefix default_config "-"%byte "1"%byte
           (list_byte_of_string "2.5e3x")
           (options_with general std_rules false)).
  - right. left. reflexivity.
  - discriminate.
  - discriminate.
  - left. reflexivity.
Defined.

(** X16.  On every return path the two spans view ASCII digits only and lie
    within the input; a span that has been set is not followed by a digit;
    and the fraction span, when it has been set, starts one byte after the
    end of the integer span, the byte between them being the decimal
    point. *)
Theorem recorded_spans (cfg : config) (s : list byte) (options : parse_options) :
  s <> [] ->
  let r := parse_number_string cfg s options in
  forallb is_ascii_digit (span_bytes s (integer r)) = true /\
  length (span_bytes s (integer r)) = len (integer r) /\
  forallb is_ascii_digit (span_bytes s (fraction r)) = true /\
  length (span_bytes s (fraction r)) = len (fraction r) /\
  (forall q, ptr (integer r) = Some q ->
     is_ascii_digit (nth (q + len (integer r)) s x00) = false) /\
  (forall q, ptr (fraction r) = Some q ->
     q = S (span_ptr (integer r) + len (integer r)) /\
     (q <= length s)%nat /\
     nth (q - 1) s x00 = decimal_point options /\
     is_ascii_digit (nth (q + len (fraction r)) s x00) = false).
Proof.
  intros _ r. destruct (parse_recorded cfg s options) as [_ H]. fold r in H.
  destruct H as [(a & _ & _ & Hi & Hf) | (p0 & Hsign & Hi & Hf)];
    rewrite Hi, Hf.
  - unfold span_bytes. cbn [ptr len empty_span forallb length].
    do 4 (split; [reflexivity |]). split; intros q Hq; discriminate.
  - pose proof (read_sign_inr cfg s options p0 Hsign) as [_ Hp0].
    unfold integer_digits, fraction_digits.
    rewrite span_bytes_run. unfold span_ptr. cbn [ptr len].
    split; [apply digit_run_digits |]. split; [reflexivity |].
    destruct (has_point s options p0) eqn:Hpt.
    + rewrite span_bytes_run.
      split; [apply digit_run_digits |]. split; [reflexivity |].
      split.
      * intros q Hq. injection Hq as <-. apply digit_run_skipn_stop.
      * intros q Hq. cbn [ptr len] in *. injection Hq as <-.
        destruct (has_point_inv s options p0 Hp0 Hpt) as [Hlt Hdp].
        unfold integer_digits, deref in *.
        split; [reflexivity |]. split; [lia |].
        split; [| apply digit_run_skipn_stop].
        rewrite <- Hdp. f_equal. lia.
    + unfold span_bytes. cbn [ptr len empty_span forallb length].
      split; [reflexivity |]. split; [reflexivity |].
      split.
      * intros q Hq. injection Hq as <-. apply digit_run_skipn_stop.
      * intros q Hq. discriminate.
Qed.

(** X16 at "-12.5e3x". *)
Lemma recorded_spans_witness :
  let s := signed_literal in
  let options := options_with general std_rules false in
  let r := parse_number_string default_config s options in
  s <> [] /\
  forallb is_ascii_digit (span_bytes s (integer r)) = true /\
  length (span_bytes s (integer r)) = len (integer r) /\
  forallb is_ascii_digit (span_bytes s (fraction r)) = true /\
  length (span_bytes s (fraction r)) = len (fraction r) /\
  (forall q, ptr (integer r) = Some q ->
     is_ascii_digit (nth (q + len (integer r)) s x00) = false) /\
  (forall q, ptr (fraction r) = Some q ->
     q = S (span_ptr (integer r) + len (integer r)) /\
     (q <= length s)%nat /\
     nth (q - 1) s x00 = decimal_point options /\
     is_ascii_digit (nth (q + len (fraction r)) s x00) = false).
Proof.
  split; [discriminate |].
  apply (recorded_spans default_config signed_literal
           (options_with general std_rules false)).
  discriminate.
Defined.

(** X17.  A valid result has at least one digit in its spans, and under the
    json rules at least two when a decimal point has been read. *)
Theorem valid_needs_digits (cfg : config) (s : list byte)
    (options : parse_options) :
  let r := parse_number_string cfg s options in
  valid r = true ->
  (1 <= len (integer r) + len (fraction r))%nat /\
  (rules options = json_rules -> ptr (fraction r) <> None ->
   (2 <= len (integer r) + len (fraction r))%nat).
Proof.
  intros r Hvalid.
  destruct (parse_valid_inv cfg s options Hvalid) as (l & Hscan & _).
  destruct (parse_recorded cfg s options) as [_ H]. fold r in H.
  pose proof (scan_literal_inr_inv cfg s options l Hscan)
    as (p0 & Hsign & _).
  destruct H as [(a & Ha & _) | (q0 & Hq0 & Hi & Hf)]; [congruence |].
  rewrite Hsign in Hq0. injection Hq0 as <-.
  destruct (scan_literal_counts cfg s options l p0 Hscan Hsign) as [Hnz Hjson].
  rewrite Hi, Hf. cbn [len].
  destruct (has_point s options p0) eqn:Hpt; cbn [ptr len empty_span].
  - split; [lia |]. intros Hr _. specialize (Hjson Hr eq_refl). lia.
  - unfold fraction_digits in *. rewrite Hpt in *. cbn [length] in *.
    split; [lia |]. intros _ Hc. contradiction.
Qed.

(** X17 at "12." under the json rules. *)
Lemma valid_needs_digits_witness :
  let r := parse_number_string default_config (list_byte_of_string "12.")
             (options_with general json_rules false) in
  valid r = true /\
  (1 <= len (integer r) + len (fraction r))%nat /\
  (rules (options_with general json_rules false) = json_rules ->
   ptr (fraction r) <> None ->
   (2 <= len (integer r) + len (fraction r))%nat).
Proof.
  split; [reflexivity |].
  apply (valid_needs_digits default_config (list_byte_of_string "12.")
           (options_with general json_rules false)).
  reflexivity.
Defined.

(** ** The scanner: values *)

(** X18.  For a valid result that is not flagged [too_many_digits], the
    mantissa is the decimal value of the recorded digits modulo 2^64 and the
    exponent is the explicit exponent minus the number of fraction digits.
    The mantissa is that decimal value itself when the decimal point is not
    a digit, except for the integers that the json rules accept with
    [parse_ints]. *)
Theorem unflagged_value (cfg : config) (s : list byte)
    (options : parse_options) :
  let r := parse_number_string cfg s options in
  valid r = true -> too_many_digits r = false ->
  mantissa r = decimal (recorded_digits s r) 0 mod 2 ^ 64 /\
  exponent r = explicit_exponent cfg s options - Z.of_nat (len (fraction r)) /\
  (is_ascii_digit (decimal_point options) = false ->
   rules options = std_rules \/ parse_ints options = false \/
     is_64bit_int r = false ->
   mantissa r = decimal (recorded_digits s r) 0).
Proof.
  intros r Hvalid Htoo.
  destruct (parse_valid_facts cfg s options Hvalid) as (l & p0 & F).
  fold r in F.
  destruct F as [Hscan Hres Hsign Hp0 Hint Hfrac Hstart Hend Hcount Hi Hexp
    Hrej Hlast Hdigits Hflen Hends Hexpl].
  destruct Hrej as (Hinv & _ & _ & _ & _ & Htoo0).
  assert (Hv : valid (finish_literal cfg s options l) = true)
    by (rewrite <- Hres; exact Hvalid).
  assert (Ht : too_many_digits (finish_literal cfg s options l) = false)
    by (rewrite <- Hres; exact Htoo).
  destruct (finish_literal_plain cfg s options l Hinv Htoo0 Hv Ht)
    as (Hm & He & H64).
  rewrite <- Hres in Hm, He, H64.
  pose proof (read_exponent_some cfg s (format options) _ _ _ _ _
                (proj2 (end_of_digits_bound s options p0 Hp0)) Hexp)
    as [_ Hex].
  split; [| split].
  - rewrite Hm, Hi, Hdigits. apply accumulate_decimal. reflexivity.
  - rewrite He, Hex, Hexpl, Hflen. lia.
  - intros Hdp Hcase. rewrite Hm, Hi, Hdigits.
    apply accumulate_significant.
    { rewrite forallb_app. unfold integer_digits.
      rewrite digit_run_digits, fraction_digits_digits. reflexivity. }
    pose proof (finish_literal_valid cfg s options l Hinv Hv) as [_ Hflag].
    rewrite Ht in Hflag. cbv zeta in Hflag.
    destruct (Z.ltb_spec 19 (l_digit_count l)) as [Hlong | Hshort].
    + replace (is_json_rules (rules options) && parse_ints options &&
               (l_p l =? l_end_of_integer_part l)%nat) with false in Hflag.
      2:{ symmetry. rewrite <- H64.
          destruct Hcase as [-> | [-> | ->]];
            [reflexivity | rewrite andb_false_r; reflexivity
            | apply andb_false_r]. }
      rewrite Hstart, Hcount in Hflag.
      destruct (significant_count s options p0 Hp0 Hdp) as [E | [E _]].
      * rewrite E in Hflag. symmetry in Hflag. apply Z.ltb_ge in Hflag. lia.
      * rewrite E. cbn [length]. lia.
    + pose proof (strip_zeros_length
                    (integer_digits s p0 ++ fraction_digits s options p0)).
      rewrite length_app in *. lia.
Qed.

(** X18 at "-12.5e3x". *)
Lemma unflagged_value_witness :
  let s := signed_literal in
  let options := options_with general std_rules false in
  let r := parse_number_string default_config s options in
  valid r = true /\ too_many_digits r = false /\
  mantissa r = decimal (recorded_digits s r) 0 mod 2 ^ 64 /\
  exponent r =
    explicit_exponent default_config s options - Z.of_nat (len (fraction r)) /\
  (is_ascii_digit (decimal_point options) = false ->
   rules options = std_rules \/ parse_ints options = false \/
     is_64bit_int r = false ->
   mantissa r = decimal (recorded_digits s r) 0).
Proof.
  split; [reflexivity |]. split; [reflexivity |].
  apply (unflagged_value default_config signed_literal
           (options_with general std_rules false)); reflexivity.
Defined.

(** X19.  When the decimal point is not a digit, a valid result is flagged
    [too_many_digits] exactly when the recorded digits, from the first
    non-zero one on, are more than 19, except for the pure integers under
    the json rules with [parse_ints]. *)
Theorem flagged_iff_twenty_significant (cfg : config) (s : list byte)
    (options : parse_options) :
  let r := parse_number_string cfg s options in
  valid r = true ->
  is_ascii_digit (decimal_point options) = false ->
  rules options = std_rules \/ parse_ints options = false \/
    lastmatch r <> Some (span_ptr (integer r) + len (integer r))%nat ->
  (too_many_digits r = true <->
   (19 < length (strip_zeros (recorded_digits s r)))%nat).
Proof.
  intros r Hvalid Hdp Hcase.
  destruct (parse_valid_facts cfg s options Hvalid) as (l & p0 & F).
  fold r in F.
  destruct F as [Hscan Hres Hsign Hp0 Hint Hfrac Hstart Hend Hcount Hi Hexp
    Hrej Hlast Hdigits Hflen Hends Hexpl].
  destruct Hrej as (Hinv & _ & _ & _ & _ & Htoo0).
  assert (Hv : valid (finish_literal cfg s options l) = true)
    by (rewrite <- Hres; exact Hvalid).
  pose proof (finish_literal_valid cfg s options l Hinv Hv) as [_ Hflag].
  rewrite <- Hres in Hflag. fold r in Hflag. cbv zeta in Hflag.
  replace (is_json_rules (rules options) && parse_ints options &&
           (l_p l =? l_end_of_integer_part l)%nat) with false in Hflag.
  2:{ symmetry. destruct Hcase as [-> | [-> | Hne]];
        [reflexivity | rewrite andb_false_r; reflexivity |].
      replace (l_p l =? l_end_of_integer_part l)%nat with false;
        [apply andb_false_r |].
      symmetry. apply Nat.eqb_neq. intros E. apply Hne.
      rewrite Hlast, Hint, E, Hend. reflexivity. }
  rewrite Hstart, Hcount, Htoo0 in Hflag. rewrite Hflag, Hdigits.
  pose proof (strip_zeros_length
                (integer_digits s p0 ++ fraction_digits s options p0)) as Hs.
  rewrite length_app in Hs.
  destruct (significant_count s options p0 Hp0 Hdp) as [E | [E Hz]];
    cbv zeta in *.
  - rewrite E.
    destruct (Z.ltb_spec 19 (Z.of_nat (length (integer_digits s p0)) +
                             Z.of_nat (length (fraction_digits s options p0)))).
    + rewrite Z.ltb_lt. lia.
    + split; [discriminate | lia].
  - rewrite E. cbn [length].
    destruct (Z.ltb_spec 19 (Z.of_nat (length (integer_digits s p0)) +
                             Z.of_nat (length (fraction_digits s options p0)))).
    + rewrite Z.ltb_lt. lia.
    + split; [discriminate | lia].
Qed.

(** X19 at "1.1234567890123456789012345e-12". *)
Lemma flagged_iff_twenty_significant_witness :
  let s := long_fraction_literal in
  let options := options_with general std_rules false in
  let r := parse_number_string default_config s options in
  valid r = true /\
  (too_many_digits r = true <->
   (19 < length (strip_zeros (recorded_digits s r)))%nat).
Proof.
  split; [reflexivity |].
  apply (flagged_iff_twenty_significant default_config long_fraction_literal
           (options_with general std_rules false)).
  - reflexivity.
  - reflexivity.
  - left. reflexivity.
Defined.

(** X20.  A result with [is_64bit_int] set is valid and not flagged, has no
    fraction span and exponent 0, ends where its integer span ends, and its
    mantissa is the value of the integer digits modulo 2^64. *)
Theorem exact_integer_result (cfg : config) (s : list byte)
    (options : parse_options) :
  let r := parse_number_string cfg s options in
  is_64bit_int r = true ->
  valid r = true /\ too_many_digits r = false /\
  fraction r = empty_span /\ exponent r = 0 /\
  lastmatch r = Some (span_ptr (integer r) + len (integer r))%nat /\
  mantissa r = decimal (span_bytes s (integer r)) 0 mod 2 ^ 64.
Proof.
  intros r H64.
  assert (Hvalid : valid r = true).
  { destruct (valid r) eqn:Hv; [reflexivity |].
    apply parse_invalid_rejected in Hv. fold r in Hv.
    destruct Hv as (_ & _ & _ & _ & E & _). congruence. }
  destruct (parse_valid_facts cfg s options Hvalid) as (l & p0 & F).
  fold r in F.
  destruct F as [Hscan Hres Hsign Hp0 Hint Hfrac Hstart Hend Hcount Hi Hexp
    Hrej Hlast Hdigits Hflen Hends Hexpl].
  destruct Hrej as (Hinv & _ & _ & _ & _ & Htoo0).
  assert (Hv : valid (finish_literal cfg s options l) = true)
    by (rewrite <- Hres; exact Hvalid).
  assert (Htoo : too_many_digits r = false).
  { destruct (too_many_digits r) eqn:Ht; [| reflexivity].
    rewrite Hres in Ht.
    destruct (finish_literal_flagged cfg s options l Htoo0 Ht) as (_ & E & _).
    rewrite <- Hres in E. congruence. }
  assert (Ht : too_many_digits (finish_literal cfg s options l) = false)
    by (rewrite <- Hres; exact Htoo).
  destruct (finish_literal_plain cfg s options l Hinv Htoo0 Hv Ht)
    as (Hm & He & E64).
  rewrite <- Hres in Hm, He, E64. rewrite H64 in E64. symmetry in E64.
  apply Nat.eqb_eq in E64.
  pose proof (end_of_digits_bound s options p0 Hp0) as Hb.
  pose proof (read_exponent_some cfg s (format options) _ _ _ _ _
                (proj2 Hb) Hexp) as [Hpos Hex].
  assert (Hpe : end_of_digits s options p0 =
                (p0 + length (integer_digits s p0))%nat) by lia.
  assert (Hpt : has_point s options p0 = false).
  { destruct (has_point s options p0) eqn:Hpt; [| reflexivity].
    unfold end_of_digits in Hpe. rewrite Hpt in Hpe. lia. }
  assert (Hfds : fraction_digits s options p0 = []).
  { unfold fraction_digits. rewrite Hpt. reflexivity. }
  destruct (read_exponent_number cfg s (format options) _ _ _ _ _
              (proj2 Hb) Hexp) as [_ Hen].
  rewrite Hen in Hex by lia. rewrite Hfds in *. rewrite Hpt in Hfrac.
  split; [exact Hvalid |]. split; [exact Htoo |]. split; [exact Hfrac |].
  split; [rewrite He, Hex; reflexivity |].
  split.
  - rewrite Hlast, Hint. unfold span_ptr. cbn [ptr len]. f_equal. lia.
  - rewrite Hm, Hi, app_nil_r, Hint. unfold integer_digits.
    rewrite span_bytes_run. apply accumulate_decimal. reflexivity.
Qed.

(** X20 at "-125e", where the exponent marker is left unread. *)
Lemma exact_integer_result_witness :
  let s := list_byte_of_string "-125e" in
  let r := parse_number_string default_config s
             (options_with general std_rules false) in
  is_64bit_int r = true /\
  valid r = true /\ too_many_digits r = false /\
  fraction r = empty_span /\ exponent r = 0 /\
  lastmatch r = Some (span_ptr (integer r) + len (integer r))%nat /\
  mantissa r = decimal (span_bytes s (integer r)) 0 mod 2 ^ 64.
Proof.
  split; [reflexivity |].
  apply (exact_integer_result default_config (list_byte_of_string "-125e")
           (options_with general std_rules false)).
  reflexivity.
Defined.

(** X21.  Under the json rules with [parse_ints], an integer of 20 digits
    whose value is between 2^64 + 10^19 and 2^65 is accepted without the
    [too_many_digits] flag, as a 64-bit integer whose mantissa is the value
    minus 2^64: the wrapped accumulator is not below 10^19, which is all that
    line 235 tests. *)
Theorem twenty_digits_wrap (cfg : config) (ds : list byte)
    (fmt : chars_format) (dp : byte) :
  length ds = 20%nat -> forallb is_ascii_digit ds = true ->
  2 ^ 64 + 10 ^ 19 <= decimal ds 0 < 2 ^ 65 ->
  fixed fmt = true ->
  let r :=
    parse_number_string cfg ds
      {| format := fmt; rules := json_rules; parse_ints := true;
         decimal_point := dp |} in
  valid r = true /\ too_many_digits r = false /\ is_64bit_int r = true /\
  mantissa r = decimal ds 0 - 2 ^ 64.
Proof.
  intros Hlen Hds Hval Hfixed.
  set (options := {| format := fmt; rules := json_rules; parse_ints := true;
                     decimal_point := dp |}).
  intros r.
  destruct ds as [| c ds']; [discriminate |].
  assert (Hc : is_ascii_digit c = true).
  { cbn [forallb] in Hds. apply andb_true_iff in Hds. apply Hds. }
  assert (Hds' : forallb is_ascii_digit ds' = true).
  { cbn [forallb] in Hds. apply andb_true_iff in Hds. apply Hds. }
  assert (Hnz : Byte.eqb c "0" = false).
  { destruct (Byte.eqb c "0") eqn:E; [| reflexivity].
    apply byte_dec_bl in E. subst c. exfalso.
    pose proof (decimal_bounds ds' Hds' 0 ltac:(lia)) as Hb.
    cbn [length] in Hlen. injection Hlen as Hlen. rewrite Hlen in Hb.
    unfold decimal in Hval. cbn [fold_left] in Hval.
    change (10 * 0 + digit_of "0") with 0 in Hval.
    fold (decimal ds' 0) in Hval.
    change (Z.of_nat 19) with 19 in Hb.
    change (2 ^ 64) with 18446744073709551616 in Hval. lia. }
  assert (Hm : c <> "-"%byte) by (intros ->; vm_compute in Hc; discriminate).
  assert (Hp : c <> "+"%byte) by (intros ->; vm_compute in Hc; discriminate).
  pose proof (read_sign_structured cfg [] c ds' options
                (or_introl eq_refl) Hm Hp (or_introl Hc)) as Hsign.
  cbn [app length] in Hsign.
  set (s := c :: ds') in *.
  assert (Hids : integer_digits s 0 = s)
    by (unfold integer_digits; cbn [skipn]; apply digit_run_all; exact Hds).
  assert (Hpt : has_point s options 0 = false).
  { unfold has_point. rewrite Hids. cbn [Nat.add]. rewrite Nat.eqb_refl.
    reflexivity. }
  assert (Hfds : fraction_digits s options 0 = [])
    by (unfold fraction_digits; rewrite Hpt; reflexivity).
  assert (Hend : end_of_digits s options 0 = length s)
    by (unfold end_of_digits; rewrite Hpt, Hids; reflexivity).
  pose proof (scan_literal_digits cfg s options) as Hscan.
  rewrite Hsign in Hscan. cbv zeta in Hscan.
  rewrite Hids, Hpt, Hfds, Hend, read_exponent_at_end in Hscan.
  cbn [format options] in Hscan. rewrite Hfixed, app_nil_r in Hscan.
  rewrite Hlen in Hscan. cbn [length negb andb orb Nat.add] in Hscan.
  change (Z.of_nat 20 + Z.of_nat 0 =? 0) with false in Hscan.
  rewrite !andb_false_r in Hscan. cbn [orb] in Hscan.
  cbv iota beta in Hscan.
  match type of Hscan with _ = inr ?l0 => set (l := l0) in * end.
  assert (Hi : l_i l = decimal s 0 - 2 ^ 64).
  { cbn [l l_i]. rewrite accumulate_decimal by reflexivity.
    unfold u64. symmetry. apply Z.mod_unique with (q := 1); lia. }
  subst r. unfold parse_number_string. rewrite Hscan.
  assert (Hv : valid (finish_literal cfg s options l) = true).
  { rewrite finish_literal_valid_iff by reflexivity.
    cbn [l l_start_digits]. unfold deref at 1. cbn [s nth].
    rewrite Hnz, andb_false_r. reflexivity. }
  pose proof (finish_literal_valid cfg s options l eq_refl Hv) as [_ Hflag].
  cbv zeta in Hflag.
  assert (Ht : too_many_digits (finish_literal cfg s options l) = false).
  { rewrite Hflag. cbn [l l_digit_count l_p l_end_of_integer_part
      l_start_digits rules parse_ints options is_json_rules andb].
    change (19 <? Z.of_nat 20 + Z.of_nat 0) with true.
    change (20 =? 20)%nat with true. cbv iota.
    apply orb_false_iff. split.
    - apply Z.ltb_ge.
      eapply Z.le_trans; [apply leading_zeros_loop_le | lia].
    - apply Z.ltb_ge. rewrite Hi. unfold minimal_twenty_digit_integer.
      change (10 ^ 19) with 10000000000000000000 in Hval. lia. }
  destruct (finish_literal_plain cfg s options l eq_refl eq_refl Hv Ht)
    as (Em & _ & E64).
  split; [exact Hv |]. split; [exact Ht |].
  split; [rewrite E64; reflexivity |]. rewrite Em. exact Hi.
Qed.

(** X21 at "28446744073709551616", whose mantissa is 10^19. *)
Lemma twenty_digits_wrap_witness :
  let r := parse_number_string default_config wrapping_literal
             (options_with general json_rules true) in
  decimal wrapping_literal 0 = 28446744073709551616 /\
  valid r = true /\ too_many_digits r = false /\ is_64bit_int r = true /\
  mantissa r = decimal wrapping_literal 0 - 2 ^ 64.
Proof.
  split; [reflexivity |].
  apply (twenty_digits_wrap default_config wrapping_literal general "."%byte).
  - reflexivity.
  - reflexivity.
  - vm_compute. split; [discriminate | reflexivity].
  - reflexivity.
Defined.

(** X22.  The mantissa of every result is a 64-bit value, the explicit
    exponent is at most 2684354559 in absolute value, and the exponent is at
    most that plus the length of the input: the signed 64-bit arithmetic of
    the scanner cannot overflow. *)
Theorem result_ranges (cfg : config) (s : list byte) (options : parse_options) :
  s <> [] ->
  let r := parse_number_string cfg s options in
  0 <= mantissa r < 2 ^ 64 /\
  Z.abs (exponent r) <= Z.of_nat (length s) + 2684354559 /\
  Z.abs (explicit_exponent cfg s options) <= 2684354559.
Proof.
  intros _ r. subst r. unfold parse_number_string, explicit_exponent.
  destruct (scan_literal cfg s options) as [a | l] eqn:Hscan.
  - apply scan_literal_inl in Hscan.
    destruct Hscan as (_ & _ & -> & -> & _). cbn. lia.
  - pose proof (scan_literal_inr cfg s options l Hscan) as (Hrej & _ & _).
    destruct Hrej as (_ & _ & Hm0 & He0 & _).
    pose proof (scan_literal_inr_inv cfg s options l Hscan)
      as (p0 & Hsign & Hstart & Hend & Hcount & _ & Hi & Hint & Hfrac & Hexp).
    pose proof (read_sign_inr cfg s options p0 Hsign) as [_ Hp0].
    pose proof (end_of_digits_bound s options p0 Hp0) as Hb.
    pose proof (read_exponent_some cfg s (format options) _ _ _ _ _
                  (proj2 Hb) Hexp) as [_ Hex].
    destruct (read_exponent_number cfg s (format options) _ _ _ _ _
                (proj2 Hb) Hexp) as [Hen _].
    pose proof (digit_run_skipn_bound s p0 Hp0) as Hids.
    fold (integer_digits s p0) in Hids.
    assert (Hfds : (length (fraction_digits s options p0) <= length s)%nat).
    { unfold end_of_digits in Hb.
      destruct (has_point s options p0) eqn:Hpt; [lia |].
      unfold fraction_digits. rewrite Hpt. cbn [length]. lia. }
    assert (Htr : (span_ptr (integer (l_answer l)) +
                   len (integer (l_answer l)) = l_end_of_integer_part l)%nat).
    { rewrite Hint, Hend. reflexivity. }
    pose proof (truncated_value_ranges cfg s l Htr ltac:(lia)) as [Ht1 Ht2].
    split; [| split; [| exact Hen]].
    + destruct (finish_literal_values cfg s options l)
        as [[-> _] | [[-> _] | [-> _]]].
      * rewrite Hm0. lia.
      * rewrite Hi, <- accumulate_range by reflexivity. apply u64_range.
      * exact Ht1.
    + destruct (finish_literal_values cfg s options l)
        as [[_ ->] | [[_ ->] | [_ ->]]]; lia.
Qed.

(** X22 at "1e99999999999". *)
Lemma result_ranges_witness :
  let s := list_byte_of_string "1e99999999999" in
  let options := options_with general std_rules false in
  let r := parse_number_string default_config s options in
  s <> [] /\
  0 <= mantissa r < 2 ^ 64 /\
  Z.abs (exponent r) <= Z.of_nat (length s) + 2684354559 /\
  Z.abs (explicit_exponent default_config s options) <= 2684354559.
Proof.
  split; [discriminate |].
  apply (result_ranges default_config (list_byte_of_string "1e99999999999")
           (options_with general std_rules false)).
  discriminate.
Defined.

(** ** The scanner: the explicit exponent and the format *)

(** X23.  When a marker, an optional sign and a run of digits follow the
    digits of the literal and scientific notation is allowed, the explicit
    exponent is the value of that run with the sign, if the value is below
    0x10000000; a greater value is replaced by one between 0x10000000 and
    2684354559.  A valid result ends after the run. *)
Theorem explicit_exponent_value (cfg : config) (s : list byte)
    (options : parse_options) (l : locals) (e : byte)
    (sg es tail : list byte) :
  scientific (format options) = true ->
  read_digits cfg s options = inr l ->
  skipn (l_p l) s = e :: sg ++ es ++ tail ->
  e = "e"%byte \/ e = "E"%byte ->
  sg = [] \/ sg = ["-"%byte] \/ sg = ["+"%byte] ->
  es <> [] -> forallb is_ascii_digit es = true ->
  match tail with c :: _ => is_ascii_digit c = false | [] => True end ->
  let r := parse_number_string cfg s options in
  explicit_exponent cfg s options = signed_by sg (saturating_decimal es 0) /\
  (decimal es 0 < 0x10000000 -> saturating_decimal es 0 = decimal es 0) /\
  (0x10000000 <= decimal es 0 ->
   0x10000000 <= saturating_decimal es 0 <= 2684354559) /\
  (valid r = true ->
   lastmatch r = Some (l_p l + 1 + length sg + length es)%nat).
Proof.
  intros Hsci Hdigits Hskip He Hsg Hes Hds Htail r.
  destruct (skipn_cons_inv s (l_p l) e _ Hskip) as (Hlt & Hd & Hrest).
  destruct es as [| c es]; [contradiction |].
  assert (Hc : is_ascii_digit c = true).
  { cbn [forallb] in Hds. apply andb_true_iff in Hds. apply Hds. }
  assert (Hsign : exponent_sign s (l_p l) =
                  (match sg with
                   | c :: _ => Byte.eqb c "-"
                   | [] => false
                   end, (S (l_p l) + length sg)%nat) /\
                  skipn (S (l_p l) + length sg) s = (c :: es) ++ tail).
  { unfold exponent_sign.
    destruct Hsg as [-> | [-> | ->]]; cbn [app length] in *;
      destruct (skipn_cons_inv s (S (l_p l)) _ _ Hrest) as (Hlt' & Hd' & Hr');
      (replace (S (l_p l) =? length s)%nat with false
         by (symmetry; apply Nat.eqb_neq; lia));
      rewrite Hd'; cbn [negb andb].
    - replace (Byte.eqb "-" c) with false
        by (destruct (Byte.eqb "-" c) eqn:E; [| reflexivity];
            apply byte_dec_bl in E; rewrite <- E in Hc; vm_compute in Hc;
            discriminate Hc).
      replace (Byte.eqb "+" c) with false
        by (destruct (Byte.eqb "+" c) eqn:E; [| reflexivity];
            apply byte_dec_bl in E; rewrite <- E in Hc; vm_compute in Hc;
            discriminate Hc).
      rewrite Nat.add_0_r. split; [reflexivity | exact Hrest].
    - change (Byte.eqb "-" "-") with true. cbv iota.
      replace (S (l_p l) + 1)%nat with (S (S (l_p l))) by lia.
      split; [reflexivity | exact Hr'].
    - change (Byte.eqb "-" "+") with false.
      change (Byte.eqb "+" "+") with true. cbv iota.
      replace (S (l_p l) + 1)%nat with (S (S (l_p l))) by lia.
      split; [reflexivity | exact Hr']. }
  destruct Hsign as [Hsign Hq].
  assert (Hexp : read_exponent cfg s (format options) (l_p l) (l_exponent l) =
                 Some ((l_p l + 1 + length sg + length (c :: es))%nat,
                       l_exponent l +
                         signed_by sg (saturating_decimal (c :: es) 0),
                       signed_by sg (saturating_decimal (c :: es) 0))).
  { rewrite read_exponent_unfold by lia.
    unfold marker_at. rewrite Hsci, Hd.
    replace (l_p l =? length s)%nat with false
      by (symmetry; apply Nat.eqb_neq; lia).
    replace (Byte.eqb "e" e || Byte.eqb "E" e) with true
      by (destruct He as [-> | ->]; reflexivity).
    cbn [negb andb]. rewrite Hsign. cbn [fst snd]. rewrite Hq.
    rewrite digit_run_app by exact Hds.
    rewrite (digit_run_stops tail Htail), app_nil_r. cbv zeta.
    cbn [length]. unfold signed_by.
    replace (S (l_p l) + length sg + S (length es))%nat
      with (l_p l + 1 + length sg + S (length es))%nat by lia.
    destruct sg as [| c0 sg']; [reflexivity |].
    destruct (Byte.eqb c0 "-"); reflexivity. }
  assert (Hscan : exists l',
            scan_literal cfg s options = inr l' /\
            l_answer l' = l_answer l /\
            l_p l' = (l_p l + 1 + length sg + length (c :: es))%nat /\
            l_exp_number l' = signed_by sg (saturating_decimal (c :: es) 0)).
  { unfold scan_literal. rewrite Hdigits, Hexp. eexists.
    split; [reflexivity |]. repeat split. }
  destruct Hscan as (l' & Hscan & Ha & Hp & Hen).
  split; [unfold explicit_exponent; rewrite Hscan; exact Hen |].
  split; [intros Hlt0; apply saturating_decimal_exact; [exact Hds | lia | exact Hlt0] |].
  split.
  { intros Hge. split.
    - apply saturating_decimal_saturated; [exact Hds | lia | exact Hge].
    - apply saturating_decimal_bounds; [exact Hds | lia]. }
  intros Hvalid. subst r. unfold parse_number_string in *.
  rewrite Hscan in *. rewrite <- Hp.
  apply finish_literal_valid; [| exact Hvalid].
  rewrite Ha. apply (read_digits_inr cfg s options l Hdigits).
Qed.

(** X23 at "1.5e-30x". *)
Lemma explicit_exponent_value_witness :
  let s := list_byte_of_string "1.5e-30x" in
  let options := options_with general std_rules false in
  let es := list_byte_of_string "30" in
  let r := parse_number_string default_config s options in
  explicit_exponent default_config s options =
    signed_by ["-"%byte] (saturating_decimal es 0) /\
  (decimal es 0 < 0x10000000 -> saturating_decimal es 0 = decimal es 0) /\
  (0x10000000 <= decimal es 0 ->
   0x10000000 <= saturating_decimal es 0 <= 2684354559) /\
  (valid r = true -> lastmatch r = Some 7%nat).
Proof.
  destruct (read_digits default_config (list_byte_of_string "1.5e-30x")
              (options_with general std_rules false)) as [a | l] eqn:Hl;
    [discriminate |].
  pose proof (explicit_exponent_value default_config
                (list_byte_of_string "1.5e-30x")
                (options_with general std_rules false) l "e"%byte
                ["-"%byte] (list_byte_of_string "30") ["x"%byte]
                eq_refl Hl) as H.
  injection Hl as <-. cbn [l_p] in H.
  apply H.
  - reflexivity.
  - left. reflexivity.
  - right. left. reflexivity.
  - discriminate.
  - reflexivity.
  - reflexivity.
Defined.

(** X24.  When the format does not allow scientific notation, no explicit
    exponent is read: a valid result ends where its spans end. *)
Theorem without_scientific (cfg : config) (s : list byte)
    (options : parse_options) :
  scientific (format options) = false ->
  let r := parse_number_string cfg s options in
  explicit_exponent cfg s options = 0 /\
  (valid r = true -> lastmatch r = Some (end_of_spans r)).
Proof.
  intros Hsci r.
  assert (Hexp0 : forall p ex p' e' en, (p <= length s)%nat ->
            read_exponent cfg s (format options) p ex = Some (p', e', en) ->
            p' = p /\ en = 0).
  { intros p ex p' e' en Hp. rewrite read_exponent_unfold by exact Hp.
    unfold marker_at. rewrite Hsci. cbn [andb].
    intros H. injection H as <- <- <-. split; reflexivity. }
  split.
  - unfold explicit_exponent.
    destruct (scan_literal cfg s options) as [a | l] eqn:Hscan; [reflexivity |].
    pose proof (scan_literal_inr_inv cfg s options l Hscan)
      as (p0 & Hsign & _ & _ & _ & _ & _ & _ & _ & Hexp).
    pose proof (read_sign_inr cfg s options p0 Hsign) as [_ Hp0].
    apply (Hexp0 _ _ _ _ _ (proj2 (end_of_digits_bound s options p0 Hp0)) Hexp).
  - intros Hvalid.
    destruct (parse_valid_facts cfg s options Hvalid) as (l & p0 & F).
    fold r in F.
    destruct F as [Hscan Hres Hsign Hp0 Hint Hfrac Hstart Hend Hcount Hi Hexp
      Hrej Hlast Hdigits Hflen Hends Hexpl].
    destruct (Hexp0 _ _ _ _ _ (proj2 (end_of_digits_bound s options p0 Hp0))
                Hexp) as [E _].
    rewrite Hlast, Hends, E. reflexivity.
Qed.

(** X24 at "1.5e3" with fixed notation only. *)
Lemma without_scientific_witness :
  let s := list_byte_of_string "1.5e3" in
  let options := options_with fixed_only std_rules false in
  let r := parse_number_string default_config s options in
  scientific (format options) = false /\
  explicit_exponent default_config s options = 0 /\
  (valid r = true -> lastmatch r = Some (end_of_spans r)).
Proof.
  split; [reflexivity |].
  apply (without_scientific default_config (list_byte_of_string "1.5e3")
           (options_with fixed_only std_rules false)).
  reflexivity.
Defined.

(** X25.  When the format allows scientific notation only, a valid result
    has read an exponent: a marker stands where the spans end, [lastmatch] is
    at least two bytes further, after a digit, and [is_64bit_int] is not
    set. *)
Theorem scientific_only_needs_exponent (cfg : config) (s : list byte)
    (options : parse_options) :
  scientific (format options) = true -> fixed (format options) = false ->
  let r := parse_number_string cfg s options in
  valid r = true ->
  exists m,
    lastmatch r = Some m /\
    (nth (end_of_spans r) s x00 = "e"%byte \/
     nth (end_of_spans r) s x00 = "E"%byte) /\
    (end_of_spans r + 2 <= m)%nat /\
    is_ascii_digit (nth (m - 1) s x00) = true /\
    is_64bit_int r = false.
Proof.
  intros Hsci Hfixed r Hvalid.
  destruct (parse_valid_facts cfg s options Hvalid) as (l & p0 & F).
  fold r in F.
  destruct F as [Hscan Hres Hsign Hp0 Hint Hfrac Hstart Hend Hcount Hi Hexp
    Hrej Hlast Hdigits Hflen Hends Hexpl].
  destruct Hrej as (Hinv & _ & _ & _ & _ & Htoo0).
  pose proof (end_of_digits_bound s options p0 Hp0) as Hb.
  set (pe := end_of_digits s options p0) in *.
  rewrite read_exponent_unfold in Hexp by lia.
  rewrite Hsci, Hfixed in Hexp. cbn [negb andb] in Hexp.
  destruct (marker_at s (format options) pe) eqn:Hm; [| discriminate].
  unfold marker_at in Hm. apply andb_true_iff in Hm. destruct Hm as [Hm He].
  apply andb_true_iff in Hm. destruct Hm as [_ Hne].
  apply negb_true_iff, Nat.eqb_neq in Hne.
  pose proof (exponent_sign_bounds s pe ltac:(lia)) as Hq.
  set (q := snd (exponent_sign s pe)) in *. cbv zeta in Hexp.
  pose proof (digit_run_nth (skipn q s)) as Hnth.
  destruct (digit_run (skipn q s)) as [| c es]; [discriminate |].
  injection Hexp as Hp _ _. cbn [length] in Hp.
  exists (l_p l). rewrite Hends. split; [exact Hlast |].
  split.
  { unfold deref in He. apply orb_true_iff in He.
    destruct He as [He | He]; apply byte_dec_bl in He; rewrite <- He;
      [left | right]; reflexivity. }
  split; [lia |]. split.
  { specialize (Hnth (length es) ltac:(cbn [length]; lia)).
    rewrite nth_skipn_add in Hnth. rewrite <- Hnth.
    replace (l_p l - 1)%nat with (q + length es)%nat by lia. reflexivity. }
  destruct (too_many_digits r) eqn:Ht.
  - rewrite Hres in Ht.
    destruct (finish_literal_flagged cfg s options l Htoo0 Ht) as (_ & E & _).
    rewrite Hres. exact E.
  - assert (Hv : valid (finish_literal cfg s options l) = true)
      by (rewrite <- Hres; exact Hvalid).
    rewrite Hres in Ht.
    destruct (finish_literal_plain cfg s options l Hinv Htoo0 Hv Ht)
      as (_ & _ & E64).
    rewrite Hres, E64. apply Nat.eqb_neq. lia.
Qed.

(** X25 at "1.5e-3". *)
Lemma scientific_only_needs_exponent_witness :
  let s := list_byte_of_string "1.5e-3" in
  let r := parse_number_string default_config s
             (options_with scientific_only std_rules false) in
  valid r = true /\
  exists m,
    lastmatch r = Some m /\
    (nth (end_of_spans r) s x00 = "e"%byte \/
     nth (end_of_spans r) s x00 = "E"%byte) /\
    (end_of_spans r + 2 <= m)%nat /\
    is_ascii_digit (nth (m - 1) s x00) = true /\
    is_64bit_int r = false.
Proof.
  split; [reflexivity |].
  apply (scientific_only_needs_exponent default_config
           (list_byte_of_string "1.5e-3")
           (options_with scientific_only std_rules false)); reflexivity.
Defined.

(** X26.  When the format does not allow scientific notation, the flag for
    fixed notation has no effect: a format with neither flag scans like fixed
    notation. *)
Theorem fixed_flag_needs_scientific (cfg : config) (s : list byte)
    (o : parse_options) (b : bool) :
  scientific (format o) = false ->
  parse_number_string cfg s
    (with_format {| scientific := false; fixed := b |} o) =
  parse_number_string cfg s o.
Proof.
  intros Hsci.
  set (o' := with_format {| scientific := false; fixed := b |} o).
  assert (Hexp : forall p ex,
            read_exponent cfg s (format o') p ex =
            read_exponent cfg s (format o) p ex).
  { intros p ex. unfold read_exponent.
    cbn [o' with_format format scientific]. rewrite Hsci. reflexivity. }
  assert (Hscan : scan_literal cfg s o' = scan_literal cfg s o).
  { unfold scan_literal.
    change (read_digits cfg s o') with (read_digits cfg s o).
    destruct (read_digits cfg s o) as [a | l]; [reflexivity |].
    rewrite Hexp. reflexivity. }
  unfold parse_number_string. rewrite Hscan.
  destruct (scan_literal cfg s o) as [a | l]; reflexivity.
Qed.

(** X26 at "-12.5e3x". *)
Lemma fixed_flag_needs_scientific_witness :
  parse_number_string default_config signed_literal
    (with_format {| scientific := false; fixed := false |}
       (options_with fixed_only std_rules false)) =
  parse_number_string default_config signed_literal
    (options_with fixed_only std_rules false).
Proof.
  apply (fixed_flag_needs_scientific default_config signed_literal
           (options_with fixed_only std_rules false) false).
  reflexivity.
Defined.

(** ** The scanner: inputs and options compared *)

(** X27.  A valid result depends on the bytes before [lastmatch] only:
    scanning the input cut at [lastmatch] gives the same result. *)
Theorem matched_prefix_suffices (cfg : config) (s : list byte)
    (options : parse_options) (m : nat) :
  let r := parse_number_string cfg s options in
  valid r = true -> lastmatch r = Some m ->
  parse_number_string cfg (firstn m s) options = r.
Proof.
  intros r Hvalid Hlast.
  destruct (parse_valid_facts cfg s options Hvalid) as (l & p0 & F).
  fold r in F.
  destruct F as [Hscan Hres Hsign Hp0 Hint Hfrac Hstart Hend Hcount Hi Hexp
    Hrej Hlast' Hdigits Hflen Hends Hexpl].
  rewrite Hlast in Hlast'. injection Hlast' as ->.
  destruct (Nat.lt_ge_cases (l_p l) (length s)) as [Hlt | Hge].
  - rewrite Hres. unfold parse_number_string.
    rewrite (prefix_scan_literal cfg s options l Hscan Hlt).
    apply (prefix_finish_literal cfg s options l Hscan Hlt).
  - rewrite firstn_all2 by lia. reflexivity.
Qed.

(** X27 at "-12.5e3x", cut before the ['x']. *)
Lemma matched_prefix_suffices_witness :
  let options := options_with general std_rules false in
  let r := parse_number_string default_config signed_literal options in
  valid r = true /\ lastmatch r = Some 7%nat /\
  parse_number_string default_config (firstn 7 signed_literal) options = r.
Proof.
  split; [reflexivity |]. split; [reflexivity |].
  apply (matched_prefix_suffices default_config signed_literal
           (options_with general std_rules false) 7); reflexivity.
Defined.

(** X28.  The json rules only reject: when [parse_ints] is not set, an input
    that is valid under the json rules has the same result under the
    standard rules. *)
Theorem json_restricts_std (cfg : config) (s : list byte) (o : parse_options) :
  parse_ints o = false ->
  let r := parse_number_string cfg s (with_rules json_rules o) in
  valid r = true ->
  parse_number_string cfg s (with_rules std_rules o) = r.
Proof.
  intros Hints r Hvalid.
  set (oj := with_rules json_rules o) in *.
  set (os := with_rules std_rules o).
  destruct (parse_valid_inv cfg s oj Hvalid) as (l & Hscan & Hres).
  fold r in Hres.
  pose proof (scan_literal_inr cfg s oj l Hscan) as ((Hinv & _) & _).
  pose proof (scan_literal_inr_inv cfg s oj l Hscan) as (p0 & Hsign & _).
  pose proof (read_sign_json_std cfg s o p0 Hsign) as Hsign'. fold os in Hsign'.
  assert (Hscan' : scan_literal cfg s os = inr l).
  { pose proof (scan_literal_digits cfg s oj) as E.
    rewrite Hscan, Hsign in E. cbv zeta in E.
    rewrite scan_literal_digits, Hsign'. cbv zeta.
    change (has_point s os p0) with (has_point s oj p0).
    change (fraction_digits s os p0) with (fraction_digits s oj p0).
    change (end_of_digits s os p0) with (end_of_digits s oj p0).
    change (format os) with (format oj).
    change (rules os) with std_rules. cbn [is_json_rules andb].
    rewrite orb_false_r.
    destruct (Z.of_nat (length (integer_digits s p0)) +
              Z.of_nat (length (fraction_digits s oj p0)) =? 0);
      [discriminate |].
    cbn [orb] in E.
    destruct (is_json_rules (rules oj) && has_point s oj p0 &&
              (Z.of_nat (length (integer_digits s p0)) +
               Z.of_nat (length (fraction_digits s oj p0)) =? 1));
      [discriminate |].
    symmetry. exact E. }
  assert (Hcond : is_json_rules (rules oj) &&
                  Byte.eqb (deref s (l_start_digits l)) "0" &&
                  (2 <=? l_digit_count l) &&
                  is_integer cfg (deref s (S (l_start_digits l))) = false).
  { pose proof (finish_literal_valid_iff cfg s oj l Hinv) as Hv.
    rewrite <- Hres, Hvalid in Hv. symmetry in Hv.
    apply negb_true_iff in Hv. exact Hv. }
  unfold parse_number_string. rewrite Hscan', Hres.
  unfold finish_literal. cbv zeta. rewrite Hcond.
  change (rules os) with std_rules. change (rules oj) with json_rules.
  change (parse_ints oj) with (parse_ints o). rewrite Hints.
  cbn [is_json_rules andb]. reflexivity.
Qed.

(** X28 at "-12.5e3x". *)
Lemma json_restricts_std_witness :
  let o := options_with general json_rules false in
  let r := parse_number_string default_config signed_literal
             (with_rules json_rules o) in
  valid r = true /\
  parse_number_string default_config signed_literal (with_rules std_rules o) = r.
Proof.
  split; [reflexivity |].
  apply (json_restricts_std default_config signed_literal
           (options_with general json_rules false)); reflexivity.
Defined.

(** X29.  Under the standard rules [parse_ints] has no effect on the
    result. *)
Theorem parse_ints_needs_json (cfg : config) (s : list byte)
    (o : parse_options) (b : bool) :
  rules o = std_rules ->
  parse_number_string cfg s (with_parse_ints b o) =
  parse_number_string cfg s o.
Proof.
  intros Hstd.
  assert (Hscan : scan_literal cfg s (with_parse_ints b o) =
                  scan_literal cfg s o) by reflexivity.
  unfold parse_number_string. rewrite Hscan.
  destruct (scan_literal cfg s o) as [a | l]; [reflexivity |].
  unfold finish_literal. cbn [rules parse_ints with_parse_ints decimal_point].
  rewrite Hstd. reflexivity.
Qed.

(** X29 at "18446744073709551615". *)
Lemma parse_ints_needs_json_witness :
  parse_number_string default_config max_u64_literal
    (with_parse_ints true (options_with general std_rules false)) =
  parse_number_string default_config max_u64_literal
    (options_with general std_rules false).
Proof.
  apply (parse_ints_needs_json default_config max_u64_literal
           (options_with general std_rules false) true).
  reflexivity.
Defined.

(** ** A literal given by its parts *)

(** X30.  Under the standard rules with fixed notation allowed, an optional
    sign, digits, an optional decimal point with the digits after it (at
    least one digit in all, at most 19 from the first non-zero one on) and
    then the end of the input or a byte that is no digit, no exponent marker
    and no decimal point that would go on the literal, are scanned as a valid
    literal: the spans are the two runs of digits, the mantissa is the
    decimal value of all the digits, the exponent is minus the number of
    digits after the point, [is_64bit_int] tells whether there is no point,
    and [lastmatch] is where the literal ends. *)
Theorem decimal_literal (cfg : config) (sign ids : list byte)
    (point : option (list byte)) (tail : list byte) (options : parse_options) :
  is_sign cfg sign ->
  forallb is_ascii_digit ids = true ->
  forallb is_ascii_digit (digits_after_point point) = true ->
  (1 <= length ids + length (digits_after_point point))%nat ->
  is_ascii_digit (decimal_point options) = false ->
  decimal_point options <> "-"%byte -> decimal_point options <> "+"%byte ->
  ends_literal (decimal_point options) point tail ->
  rules options = std_rules -> fixed (format options) = true ->
  (length (strip_zeros (ids ++ digits_after_point point)) <= 19)%nat ->
  let s := sign ++ ids ++ point_part (decimal_point options) point ++ tail in
  let r := parse_number_string cfg s options in
  valid r = true /\
  integer r = {| ptr := Some (length sign); len := length ids |} /\
  fraction r =
    match point with
    | Some fds =>
        {| ptr := Some (S (length sign + length ids)); len := length fds |}
    | None => empty_span
    end /\
  mantissa r = decimal (ids ++ digits_after_point point) 0 /\
  exponent r = - Z.of_nat (length (digits_after_point point)) /\
  too_many_digits r = false /\
  is_64bit_int r = match point with Some _ => false | None => true end /\
  lastmatch r = Some (length s - length tail)%nat.
Proof.
  intros Hsg Hids Hfds Hcount Hdp Hm Hp Htail Hstd Hfixed Hsig s r.
  destruct (literal_notions sign ids point tail options Hids Hfds Hdp Htail)
    as (Ei & Ept & Ef & Ee & Esk).
  fold s in Ei, Ept, Ef, Ee, Esk.
  assert (Hsign : read_sign cfg s options = inr (length sign)).
  { subst s. destruct ids as [| c ids'].
    - destruct point as [fds |]; [| cbn [digits_after_point length] in Hcount; lia].
      cbn [app point_part].
      apply read_sign_structured; try assumption.
      right. split; [exact Hstd | reflexivity].
    - cbn [app]. cbn [forallb] in Hids. apply andb_true_iff in Hids.
      destruct Hids as [Hc _].
      apply read_sign_structured; try assumption.
      + intros ->. vm_compute in Hc. discriminate Hc.
      + intros ->. vm_compute in Hc. discriminate Hc.
      + left. exact Hc. }
  pose proof (read_sign_inr cfg s options _ Hsign) as [_ Hp0].
  pose proof (end_of_digits_bound s options _ Hp0) as Hb.
  set (pe := (length s - length tail)%nat) in *.
  assert (Hexp : forall ex,
            read_exponent cfg s (format options) pe ex = Some (pe, ex, 0)).
  { intros ex. rewrite read_exponent_unfold by (rewrite <- Ee; lia).
    replace (marker_at s (format options) pe) with false.
    - rewrite Hfixed, andb_false_r. reflexivity.
    - symmetry. unfold marker_at. destruct tail as [| c tail'].
      + apply skipn_nil_inv in Esk.
        replace (pe =? length s)%nat with true
          by (symmetry; apply Nat.eqb_eq; rewrite <- Ee in *; lia).
        cbn [negb]. rewrite andb_false_r. reflexivity.
      + destruct (skipn_cons_inv s pe c tail' Esk) as (_ & Hd & _).
        destruct Htail as (_ & He1 & He2 & _). rewrite Hd.
        replace (Byte.eqb "e" c) with false
          by (symmetry; apply not_true_is_false; intros E;
              apply byte_dec_bl in E; congruence).
        replace (Byte.eqb "E" c) with false
          by (symmetry; apply not_true_is_false; intros E;
              apply byte_dec_bl in E; congruence).
        apply andb_false_r. }
  assert (Hscan : exists l, scan_literal cfg s options = inr l).
  { rewrite scan_literal_digits, Hsign. cbv zeta.
    rewrite Ei, Ef, Ee, Hexp, Hstd. cbn [is_json_rules andb].
    rewrite orb_false_r.
    replace (Z.of_nat (length ids) +
             Z.of_nat (length (digits_after_point point)) =? 0) with false
      by (symmetry; apply Z.eqb_neq; lia).
    eexists. reflexivity. }
  destruct Hscan as (l0 & Hscan).
  assert (Hvalid : valid r = true).
  { subst r. unfold parse_number_string. rewrite Hscan.
    pose proof (scan_literal_inr cfg s options l0 Hscan) as ((Hinv & _) & _).
    rewrite finish_literal_valid_iff by exact Hinv.
    rewrite Hstd. reflexivity. }
  destruct (parse_valid_facts cfg s options Hvalid) as (l & p0 & F).
  fold r in F.
  destruct F as [Hscan' Hres Hsign' Hp0' Hint Hfrac Hstart Hend Hcnt Hi Hex
    Hrej Hlast Hdigits Hflen Hends Hexpl].
  rewrite Hsign in Hsign'. injection Hsign' as <-.
  rewrite Ei, Ef, ?Ept, ?Ee in *. rewrite Hexp in Hex.
  injection Hex as Hlp Hle Hlen.
  destruct Hrej as (Hinv & _ & _ & _ & _ & Htoo0).
  assert (Hv : valid (finish_literal cfg s options l) = true)
    by (rewrite <- Hres; exact Hvalid).
  pose proof (finish_literal_valid cfg s options l Hinv Hv) as [_ Hflag].
  assert (Ht : too_many_digits (finish_literal cfg s options l) = false).
  { rewrite Hflag. cbv zeta. rewrite Htoo0, Hstd. cbn [is_json_rules andb].
    destruct (19 <? l_digit_count l); [| reflexivity].
    rewrite Hstart, Hcnt.
    destruct (significant_count s options (length sign) Hp0 Hdp)
      as [E | [_ E]]; cbv zeta in E; rewrite Ei, Ef in E;
      apply Z.ltb_ge; lia. }
  destruct (finish_literal_plain cfg s options l Hinv Htoo0 Hv Ht)
    as (Em & Eex & E64).
  rewrite <- Hres in Em, Eex, E64, Ht.
  split; [exact Hvalid |]. split; [exact Hint |].
  split; [rewrite Hfrac; destruct point; reflexivity |].
  split.
  { rewrite Em, Hi. apply accumulate_significant; [| exact Hsig].
    rewrite forallb_app, Hids, Hfds. reflexivity. }
  split; [rewrite Eex, <- Hle; reflexivity |].
  split; [exact Ht |].
  split; [| rewrite Hlast, <- Hlp; reflexivity].
  rewrite E64, Hend, <- Hlp. subst pe. rewrite <- Ee.
  unfold end_of_digits. rewrite Ept, Ei.
  destruct point as [fds |].
  - apply Nat.eqb_neq. lia.
  - apply Nat.eqb_refl.
Qed.

(** X30 at "-12.50 kg". *)
Lemma decimal_literal_witness :
  let options := options_with general std_rules false in
  let s := list_byte_of_string "-12.50 kg" in
  let r := parse_number_string default_config s options in
  valid r = true /\
  integer r = {| ptr := Some 1%nat; len := 2 |} /\
  fraction r = {| ptr := Some 4%nat; len := 2 |} /\
  mantissa r = decimal (list_byte_of_string "1250") 0 /\
  exponent r = - 2 /\
  too_many_digits r = false /\
  is_64bit_int r = false /\
  lastmatch r = Some 6%nat.
Proof.
  apply (decimal_literal default_config ["-"%byte]
           (list_byte_of_string "12") (Some (list_byte_of_string "50"))
           plain_literal_tail (options_with general std_rules false)).
  - right. left. reflexivity.
  - reflexivity.
  - reflexivity.
  - cbn. lia.
  - reflexivity.
  - discriminate.
  - discriminate.
  - repeat split; discriminate.
  - reflexivity.
  - reflexivity.
  - cbn. lia.
Defined.

(** * Literals given by their parts *)

(** ** The scan of a literal given by its parts *)

Lemma byte_eqb_neq (a b : byte) : a <> b -> Byte.eqb a b = false.
Proof.
  intros H. apply not_true_is_false. intros E. apply byte_dec_bl in E.
  contradiction.
Qed.

Lemma not_digit_not_zero (c : byte) :
  is_ascii_digit c = false -> Byte.eqb c "0" = false.
Proof.
  intros H. apply not_true_is_false. intros E. apply byte_dec_bl in E.
  subst c. discriminate H.
Qed.

Lemma literal_parts (sign ids : list byte) (point : option (list byte))
    (tail : list byte) (options : parse_options) :
  forallb is_ascii_digit ids = true ->
  forallb is_ascii_digit (digits_after_point point) = true ->
  is_ascii_digit (decimal_point options) = false ->
  ends_digits (decimal_point options) point tail ->
  let s := sign ++ ids ++ point_part (decimal_point options) point ++ tail in
  integer_digits s (length sign) = ids /\
  has_point s options (length sign) =
    match point with Some _ => true | None => false end /\
  fraction_digits s options (length sign) = digits_after_point point /\
  end_of_digits s options (length sign) = (length s - length tail)%nat /\
  skipn (length s - length tail) s = tail.
Proof.
  intros Hids Hfds Hdp Htail s.
  assert (Htail0 : digit_run tail = []).
  { destruct tail as [| c tail]; [reflexivity |].
    cbn [digit_run]. destruct Htail as (Hc & _). rewrite Hc. reflexivity. }
  assert (Hrun : digit_run (point_part (decimal_point options) point ++ tail)
                 = []).
  { destruct point as [fds |]; cbn [point_part app digit_run];
      [rewrite Hdp; reflexivity | exact Htail0]. }
  assert (Ei : integer_digits s (length sign) = ids).
  { unfold integer_digits. subst s. rewrite skipn_length_app.
    rewrite digit_run_app by exact Hids. rewrite Hrun. apply app_nil_r. }
  assert (Elen : length s =
                 (length sign + length ids +
                  length (point_part (decimal_point options) point) +
                  length tail)%nat).
  { subst s. rewrite !length_app. lia. }
  assert (Ep : has_point s options (length sign) =
               match point with Some _ => true | None => false end).
  { unfold has_point. rewrite Ei. subst s.
    rewrite deref_app_length.
    rewrite <- (Nat.add_0_r (length ids)) at 2. rewrite deref_app_length.
    rewrite Elen. destruct point as [fds |]; cbn [point_part app length deref nth].
    - unfold deref. cbn [nth]. rewrite (byte_dec_lb eq_refl).
      replace (length sign + length ids =?
               length sign + length ids + S (length fds) + length tail)%nat
        with false by (symmetry; apply Nat.eqb_neq; lia).
      reflexivity.
    - destruct tail as [| c tail].
      + cbn [length]. replace (length sign + length ids + 0 + 0)%nat
          with (length sign + length ids)%nat by lia.
        rewrite Nat.eqb_refl. reflexivity.
      + destruct Htail as (_ & Hne). unfold deref. cbn [nth].
        rewrite (byte_eqb_neq _ _ (Hne eq_refl)). apply andb_false_r. }
  assert (Ef : fraction_digits s options (length sign) =
               digits_after_point point).
  { unfold fraction_digits. rewrite Ep, Ei.
    destruct point as [fds |]; [| reflexivity].
    subst s. cbn [point_part digits_after_point] in *.
    replace (S (length sign + length ids))
      with (length sign + (length ids + 1))%nat by lia.
    rewrite skipn_app_length.
    replace (ids ++ (decimal_point options :: fds) ++ tail)
      with ((ids ++ [decimal_point options]) ++ fds ++ tail)
      by (rewrite <- app_assoc; reflexivity).
    replace (length ids + 1)%nat
      with (length (ids ++ [decimal_point options]) + 0)%nat
      by (rewrite length_app; cbn [length]; lia).
    rewrite skipn_app_length. cbn [skipn].
    rewrite digit_run_app by exact Hfds. rewrite Htail0. apply app_nil_r. }
  assert (Ee : end_of_digits s options (length sign) =
               (length s - length tail)%nat).
  { unfold end_of_digits. rewrite Ep, Ei, Ef, Elen.
    destruct point as [fds |]; cbn [point_part digits_after_point length]; lia. }
  repeat split; try assumption.
  subst s. rewrite Elen.
  replace (length sign + length ids +
           length (point_part (decimal_point options) point) +
           length tail - length tail)%nat
    with (length (sign ++ ids ++ point_part (decimal_point options) point) + 0)%nat
    by (rewrite !length_app; lia).
  replace (sign ++ ids ++ point_part (decimal_point options) point ++ tail)
    with ((sign ++ ids ++ point_part (decimal_point options) point) ++ tail)
    by (rewrite <- !app_assoc; reflexivity).
  apply skipn_app_length.
Qed.

Lemma read_sign_parts (cfg : config) (sign ids : list byte)
    (point : option (list byte)) (tail : list byte)
    (options : parse_options) :
  is_sign cfg sign ->
  forallb is_ascii_digit ids = true ->
  is_ascii_digit (decimal_point options) = false ->
  decimal_point options <> "-"%byte -> decimal_point options <> "+"%byte ->
  ends_digits (decimal_point options) point tail ->
  (ids = [] -> point = None ->
   forall c t, tail = c :: t -> c <> "-"%byte /\ c <> "+"%byte) ->
  let s := sign ++ ids ++ point_part (decimal_point options) point ++ tail in
  Byte.eqb (deref s 0) "-" =
    match sign with c :: _ => Byte.eqb c "-" | [] => false end /\
  read_sign cfg s options =
    if sign_refused sign ids point options
    then inl (set_negative default_answer
                match sign with c :: _ => Byte.eqb c "-" | [] => false end)
    else inr (length sign).
Proof.
  intros Hsign Hids Hdp Hm Hp Htail Hts s.
  set (body := ids ++ point_part (decimal_point options) point ++ tail) in *.
  assert (Hfirst : Byte.eqb (deref body 0) "-" = false /\
                   Byte.eqb (deref body 0) "+" = false).
  { subst body. destruct ids as [| d ids'].
    - destruct point as [fds |]; cbn [point_part app].
      + unfold deref. cbn [nth]. split; apply byte_eqb_neq; assumption.
      + destruct tail as [| c t]; [split; reflexivity |].
        destruct (Hts eq_refl eq_refl c t eq_refl) as [H1 H2].
        unfold deref. cbn [nth]. split; apply byte_eqb_neq; assumption.
    - cbn [app forallb] in *. apply andb_true_iff in Hids.
      destruct Hids as [Hd _]. unfold deref. cbn [nth].
      split; apply byte_eqb_neq; intros ->; vm_compute in Hd;
        discriminate Hd. }
  assert (Hpass : forall sg,
    (if (1 =? length (sg :: body))%nat then inl (B := nat) true
     else if negb (is_integer cfg (deref (sg :: body) 1)) &&
             (is_json_rules (rules options) ||
              negb (Byte.eqb (deref (sg :: body) 1) (decimal_point options)))
          then inl true else inr 1%nat) =
    if sign_refused [sg] ids point options then inl true else inr 1%nat).
  { intros sg. subst body. unfold sign_refused, deref. cbn [length nth].
    destruct ids as [| d ids'].
    - destruct point as [fds |]; cbn [point_part app length nth].
      + rewrite is_integer_ascii_digit, Hdp, (byte_dec_lb eq_refl).
        cbn [negb andb]. rewrite orb_false_r.
        destruct (is_json_rules (rules options)); reflexivity.
      + destruct tail as [| c t]; [reflexivity |].
        destruct Htail as (Hc & Hne). cbn [length nth Nat.eqb].
        rewrite is_integer_ascii_digit, Hc, (byte_eqb_neq _ _ (Hne eq_refl)).
        cbn [negb andb]. rewrite orb_true_r. reflexivity.
    - cbn [app forallb length nth Nat.eqb] in *. apply andb_true_iff in Hids.
      destruct Hids as [Hd _]. rewrite is_integer_ascii_digit, Hd.
      reflexivity. }
  destruct Hfirst as [Hf1 Hf2].
  unfold read_sign. subst s. fold body.
  destruct Hsign as [-> | [-> | [Hplus ->]]]; cbn [app].
  - rewrite Hf1, Hf2. split; [reflexivity |].
    unfold sign_refused. cbn [length].
    destruct (FASTFLOAT_ALLOWS_LEADING_PLUS cfg); reflexivity.
  - split; [reflexivity |].
    change (deref ("-"%byte :: body) 0) with "-"%byte.
    change (Byte.eqb "-" "-") with true.
    replace (if FASTFLOAT_ALLOWS_LEADING_PLUS cfg then true || Byte.eqb "-" "+"
             else true) with true
      by (destruct (FASTFLOAT_ALLOWS_LEADING_PLUS cfg); reflexivity).
    pose proof (Hpass "-"%byte) as H.
    destruct (sign_refused ["-"%byte] ids point options);
      destruct (1 =? length ("-"%byte :: body))%nat;
      try destruct (negb _ && _); try discriminate H; reflexivity.
  - split; [reflexivity |].
    change (deref ("+"%byte :: body) 0) with "+"%byte.
    rewrite Hplus. change (Byte.eqb "+" "-" || Byte.eqb "+" "+") with true.
    pose proof (Hpass "+"%byte) as H.
    destruct (sign_refused ["+"%byte] ids point options);
      destruct (1 =? length ("+"%byte :: body))%nat;
      try destruct (negb _ && _); try discriminate H; reflexivity.
Qed.

(** [read_digits] in terms of the digits read. *)
Lemma read_digits_digits (cfg : config) (s : list byte)
    (options : parse_options) :
  read_digits cfg s options =
  match read_sign cfg s options with
  | inl answer => inl answer
  | inr p0 =>
      let ids := integer_digits s p0 in
      let fds := fraction_digits s options p0 in
      let answer :=
        set_integer (set_negative default_answer (Byte.eqb (deref s 0) "-"))
          {| ptr := Some p0; len := length ids |} in
      let answer :=
        if has_point s options p0
        then set_fraction answer
               {| ptr := Some (S (p0 + length ids)); len := length fds |}
        else answer in
      let digit_count := Z.of_nat (length ids) + Z.of_nat (length fds) in
      if (digit_count =? 0) ||
         (is_json_rules (rules options) && has_point s options p0 &&
          (digit_count =? 1))
      then inl answer
      else
        inr {| l_answer := answer; l_p := end_of_digits s options p0;
               l_i := accumulate (ids ++ fds) 0;
               l_start_digits := p0;
               l_end_of_integer_part := (p0 + length ids)%nat;
               l_digit_count := digit_count;
               l_exponent := - Z.of_nat (length fds); l_exp_number := 0 |}
  end.
Proof.
  rewrite read_digits_unfold.
  destruct (read_sign cfg s options) as [a | p0]; [reflexivity |].
  unfold end_of_digits, fraction_digits, has_point, integer_digits.
  cbv zeta.
  destruct (negb (p0 + length (digit_run (skipn p0 s)) =? length s)%nat &&
            Byte.eqb (deref s (p0 + length (digit_run (skipn p0 s))))
              (decimal_point options)); reflexivity.
Qed.

Lemma read_digits_parts (cfg : config) (sign ids : list byte)
    (point : option (list byte)) (tail : list byte)
    (options : parse_options) :
  is_sign cfg sign ->
  forallb is_ascii_digit ids = true ->
  forallb is_ascii_digit (digits_after_point point) = true ->
  is_ascii_digit (decimal_point options) = false ->
  decimal_point options <> "-"%byte -> decimal_point options <> "+"%byte ->
  ends_digits (decimal_point options) point tail ->
  (ids = [] -> point = None ->
   forall c t, tail = c :: t -> c <> "-"%byte /\ c <> "+"%byte) ->
  read_digits cfg
    (sign ++ ids ++ point_part (decimal_point options) point ++ tail)
    options =
  digits_scanned sign ids point options.
Proof.
  intros Hsign Hids Hfds Hdp Hm Hp Htail Hts.
  destruct (read_sign_parts cfg sign ids point tail options Hsign Hids Hdp Hm
              Hp Htail Hts) as [Hneg Hrs].
  destruct (literal_parts sign ids point tail options Hids Hfds Hdp Htail)
    as (Ei & Ept & Ef & Ee & _).
  cbv zeta in Hneg, Hrs, Ei, Ept, Ef, Ee.
  rewrite read_digits_digits, Hrs. unfold digits_scanned. cbv zeta.
  destruct (sign_refused sign ids point options); [reflexivity |].
  rewrite Hneg, Ei, Ept, Ef, Ee.
  replace (length (sign ++ ids ++
                   point_part (decimal_point options) point ++ tail) -
           length tail)%nat
    with (length (sign ++ ids ++ point_part (decimal_point options) point))
    by (rewrite !length_app; lia).
  destruct point; reflexivity.
Qed.

Lemma digits_scanned_inl (sign ids : list byte) (point : option (list byte))
    (options : parse_options) (a : parsed_number_string) :
  digits_scanned sign ids point options = inl a -> valid a = false.
Proof.
  unfold digits_scanned. cbv zeta.
  destruct (sign_refused sign ids point options).
  - intros H. injection H as <-. reflexivity.
  - destruct ((_ =? 0) || _); [| discriminate].
    intros H. injection H as <-. destruct point; reflexivity.
Qed.

(** The digits of a literal given by its parts pass the checks of lines
    128-133 and 170 exactly when there is a digit and, under the json rules,
    a sign is followed by a digit and a decimal point comes with two digits
    at least. *)
Lemma digits_scanned_inr (sign ids : list byte) (point : option (list byte))
    (options : parse_options) :
  (exists l, digits_scanned sign ids point options = inr l) <->
  (1 <= length ids + length (digits_after_point point))%nat /\
  (rules options = json_rules ->
   (sign <> [] -> ids <> []) /\
   (point <> None ->
    (2 <= length ids + length (digits_after_point point))%nat)).
Proof.
  unfold digits_scanned, sign_refused. cbv zeta.
  set (n := (length ids + length (digits_after_point point))%nat).
  replace (Z.of_nat (length ids) + Z.of_nat (length (digits_after_point point)))
    with (Z.of_nat n) by (subst n; lia).
  assert (Hn : ids = [] -> point = None -> n = 0%nat).
  { intros -> ->. reflexivity. }
  assert (Hn' : ids <> [] -> (1 <= n)%nat).
  { subst n. destruct ids; [congruence | cbn [length]; lia]. }
  clearbody n.
  split.
  - intros [l H].
    destruct (Z.eqb_spec (Z.of_nat n) 0) as [E0 | NE0].
    { destruct sign, ids, point; try discriminate H;
        destruct (is_json_rules (rules options)); discriminate H. }
    split; [lia |]. intros Hjson. rewrite Hjson in H. cbn [is_json_rules] in H.
    split.
    + intros Hs Hi. subst ids. destruct sign; [congruence |].
      destruct point; [discriminate H |]. specialize (Hn eq_refl eq_refl). lia.
    + intros Hpt. destruct point; [| congruence].
      destruct (Z.eqb_spec (Z.of_nat n) 1) as [E1 | NE1]; [| lia].
      destruct sign, ids; discriminate H.
  - intros [H1 Hj].
    replace (Z.of_nat n =? 0) with false by (symmetry; apply Z.eqb_neq; lia).
    destruct (rules options) eqn:Hr; cbn [is_json_rules andb orb].
    + destruct sign, ids, point; try (eexists; reflexivity).
      specialize (Hn eq_refl eq_refl). lia.
    + destruct (Hj eq_refl) as [Hs Hp].
      destruct point as [fds |].
      * replace (Z.of_nat n =? 1) with false
          by (symmetry; apply Z.eqb_neq;
              specialize (Hp ltac:(discriminate)); lia).
        destruct sign, ids; try (eexists; reflexivity).
        exfalso. apply Hs; [discriminate | reflexivity].
      * destruct sign, ids; try (eexists; reflexivity).
        specialize (Hn eq_refl eq_refl). lia.
Qed.

(** The leading-zero check of line 208 on a literal given by its parts. *)
Lemma leading_zero_parts (cfg : config) (sign ids : list byte)
    (point : option (list byte)) (tail : list byte) (dp : byte) :
  forallb is_ascii_digit ids = true ->
  is_ascii_digit dp = false ->
  ends_digits dp point tail ->
  let s := sign ++ ids ++ point_part dp point ++ tail in
  Byte.eqb (deref s (length sign)) "0" &&
  (2 <=? Z.of_nat (length ids) + Z.of_nat (length (digits_after_point point))) &&
  is_integer cfg (deref s (S (length sign))) =
  match ids with
  | c :: _ :: _ => Byte.eqb c "0"
  | _ => false
  end.
Proof.
  intros Hids Hdp Htail s.
  assert (Hx : is_ascii_digit x00 = false) by reflexivity.
  assert (Hhead : forall rest,
            rest = point_part dp point ++ tail ->
            is_ascii_digit (deref rest 0) = false).
  { intros rest ->. destruct point as [fds |]; cbn [point_part app].
    - exact Hdp.
    - destruct tail as [| c t]; [exact Hx |]. apply Htail. }
  replace (deref s (length sign))
    with (deref (ids ++ point_part dp point ++ tail) 0)
    by (subst s; symmetry;
        pose proof (deref_app_length sign
                      (ids ++ point_part dp point ++ tail) 0) as E;
        rewrite Nat.add_0_r in E; exact E).
  replace (deref s (S (length sign)))
    with (deref (ids ++ point_part dp point ++ tail) 1)
    by (subst s; replace (S (length sign)) with (length sign + 1)%nat by lia;
        rewrite deref_app_length; reflexivity).
  destruct ids as [| c [| d ids']]; cbn [app].
  - rewrite (not_digit_not_zero _ (Hhead _ eq_refl)). reflexivity.
  - change (deref (c :: point_part dp point ++ tail) 1)
      with (deref (point_part dp point ++ tail) 0).
    rewrite is_integer_ascii_digit, (Hhead _ eq_refl). apply andb_false_r.
  - cbn [forallb] in Hids. apply andb_true_iff in Hids.
    destruct Hids as [_ Hids]. apply andb_true_iff in Hids.
    destruct Hids as [Hd _].
    change (deref (c :: d :: ids' ++ point_part dp point ++ tail) 0) with c.
    change (deref (c :: d :: ids' ++ point_part dp point ++ tail) 1) with d.
    rewrite is_integer_ascii_digit, Hd, andb_true_r.
    replace (2 <=? Z.of_nat (length (c :: d :: ids')) +
                   Z.of_nat (length (digits_after_point point))) with true
      by (symmetry; apply Z.leb_le; cbn [length]; lia).
    apply andb_true_r.
Qed.

(** ** An explicit exponent after the digits *)

(** With fixed notation allowed the explicit exponent never stops the
    scan. *)
Lemma read_exponent_fixed (cfg : config) (s : list byte) (fmt : chars_format)
    (p : nat) (ex : Z) :
  fixed fmt = true -> (p <= length s)%nat ->
  exists p' en, read_exponent cfg s fmt p ex = Some (p', ex + en, en).
Proof.
  intros Hfixed Hp. rewrite read_exponent_unfold by exact Hp.
  rewrite Hfixed, andb_false_r. cbv zeta.
  destruct (marker_at s fmt p).
  - destruct (digit_run (skipn (snd (exponent_sign s p)) s)) as [| c es].
    + exists p, 0. rewrite Z.add_0_r. reflexivity.
    + eexists _, _. reflexivity.
  - exists p, 0. rewrite Z.add_0_r. reflexivity.
Qed.

(** Without an exponent part after the digits, nothing is read. *)
Lemma read_exponent_plain (cfg : config) (s : list byte) (fmt : chars_format)
    (p : nat) (tail : list byte) (ex : Z) :
  fixed fmt = true -> (p <= length s)%nat -> skipn p s = tail ->
  exponent_part_follows fmt tail = false ->
  read_exponent cfg s fmt p ex = Some (p, ex, 0).
Proof.
  intros Hfixed Hp Hskip Hnone. unfold exponent_part_follows in Hnone.
  destruct (scientific fmt) eqn:Hsci.
  2:{ unfold read_exponent. rewrite Hsci. reflexivity. }
  cbn [andb] in Hnone. destruct tail as [| c t].
  - apply skipn_nil_inv in Hskip.
    replace p with (length s) by lia.
    rewrite read_exponent_at_end, Hfixed, andb_false_r. reflexivity.
  - destruct (Byte.eqb "e" c || Byte.eqb "E" c) eqn:Hc.
    + cbn [andb] in Hnone.
      rewrite (read_exponent_dangling cfg s fmt p c t ex Hsci Hskip);
        [rewrite Hfixed; reflexivity | | exact Hnone].
      apply orb_true_iff in Hc.
      destruct Hc as [Hc | Hc]; apply byte_dec_bl in Hc; subst c;
        [left | right]; reflexivity.
    + destruct (skipn_cons_inv s p c t Hskip) as (_ & Hd & _).
      unfold read_exponent. rewrite Hd, Hc, andb_false_r, Hfixed.
      rewrite andb_false_r. reflexivity.
Qed.

(** * The properties of the specification on literals given by their parts *)

(** ** A dangling exponent marker *)

(** C6, amended.  The input is an optional sign, integer digits, an optional
    decimal point with its fraction digits (the decimal-point character being
    neither a digit, a sign nor the marker), then an ['e'] or ['E'] with no
    digit after it and its optional sign, and the format allows scientific
    notation.  If fixed notation is allowed too, the result is the one of
    scanning the input cut just before the marker (when something stands
    before the marker); the scan succeeds exactly when the part before the
    marker is acceptable on its own, that is when it has a digit and, under
    the json rules, its sign (if any) is followed by an integer digit, its
    decimal point (if any) comes with two digits at least in all and its
    integer part is not a ['0'] followed by another digit; when the scan
    succeeds, [lastmatch] is at the marker.  If the format allows scientific
    notation only, the input is invalid. *)
Theorem dangling_exponent_marker (cfg : config) (sign ids : list byte)
    (point : option (list byte)) (e : byte) (tail : list byte)
    (options : parse_options) :
  scientific (format options) = true ->
  is_sign cfg sign ->
  forallb is_ascii_digit ids = true ->
  forallb is_ascii_digit (digits_after_point point) = true ->
  is_ascii_digit (decimal_point options) = false ->
  decimal_point options <> "-"%byte -> decimal_point options <> "+"%byte ->
  decimal_point options <> e ->
  e = "e"%byte \/ e = "E"%byte ->
  exponent_digit_follows tail = false ->
  let cut := sign ++ ids ++ point_part (decimal_point options) point in
  let s := sign ++ ids ++ point_part (decimal_point options) point ++
           e :: tail in
  let r := parse_number_string cfg s options in
  (fixed (format options) = true ->
   (cut <> [] -> r = parse_number_string cfg cut options) /\
   (valid r = true <->
    (1 <= length ids + length (digits_after_point point))%nat /\
    (rules options = json_rules ->
     (sign <> [] -> ids <> []) /\
     (point <> None ->
      (2 <= length ids + length (digits_after_point point))%nat) /\
     (forall d rest, ids <> "0"%byte :: d :: rest))) /\
   (valid r = true -> lastmatch r = Some (length cut))) /\
  (fixed (format options) = false -> valid r = false).
Proof.
  intros Hsci Hsign Hids Hfds Hdp Hm Hp Hne He Hnd cut s r.
  assert (Hee : is_ascii_digit e = false /\ e <> "-"%byte /\ e <> "+"%byte).
  { destruct He as [-> | ->]; repeat split; discriminate. }
  destruct Hee as (Hed & Hem & Hep).
  assert (Htail : ends_digits (decimal_point options) point (e :: tail)).
  { split; [exact Hed |]. intros _ E. apply Hne. symmetry. exact E. }
  assert (Hts : forall c t, e :: tail = c :: t ->
                            c <> "-"%byte /\ c <> "+"%byte).
  { intros c t E. injection E as <- _. split; assumption. }
  pose proof (read_digits_parts cfg sign ids point (e :: tail) options Hsign
                Hids Hfds Hdp Hm Hp Htail (fun _ _ => Hts)) as Rs.
  pose proof (read_digits_parts cfg sign ids point [] options Hsign
                Hids Hfds Hdp Hm Hp I ltac:(discriminate)) as Rc.
  replace (sign ++ ids ++ point_part (decimal_point options) point ++ [])
    with cut in Rc by (subst cut; rewrite app_nil_r; reflexivity).
  fold s in Rs.
  assert (Hcut : firstn (length cut) s = cut).
  { subst s cut. rewrite !app_assoc.
    rewrite firstn_app, Nat.sub_diag, firstn_O, app_nil_r.
    apply firstn_all. }
  assert (Hskip : skipn (length cut) s = e :: tail).
  { subst s cut. rewrite !app_assoc. apply skipn_length_app. }
  pose proof (digits_scanned_inr sign ids point options) as Hiff.
  pose proof (leading_zero_parts cfg sign ids point (e :: tail)
                (decimal_point options) Hids Hdp Htail) as Hzero.
  cbv zeta in Hzero. fold s in Hzero.
  destruct (digits_scanned sign ids point options) as [a | l] eqn:Hscanned.
  - (* the digits are refused *)
    pose proof (digits_scanned_inl _ _ _ _ _ Hscanned) as Hva.
    assert (Er : r = a).
    { subst r. unfold parse_number_string, scan_literal. rewrite Rs.
      reflexivity. }
    assert (Ec : parse_number_string cfg cut options = a).
    { unfold parse_number_string, scan_literal. rewrite Rc. reflexivity. }
    split.
    + intros _. split; [congruence |]. split; [| rewrite Er; congruence].
      rewrite Er, Hva. split; [discriminate |].
      intros (H1 & Hj). exfalso.
      assert (Hex : exists l, inl a = inr l :> parsed_number_string + locals).
      { apply Hiff. split; [exact H1 |]. intros Hjson.
        destruct (Hj Hjson) as (A & B & _). split; assumption. }
      destruct Hex as [l Hl]. discriminate Hl.
    + intros _. rewrite Er. exact Hva.
  - (* the digits are accepted *)
    assert (Hl : l_p l = length cut /\ l_start_digits l = length sign /\
                 l_digit_count l =
                   Z.of_nat (length ids) +
                   Z.of_nat (length (digits_after_point point)) /\
                 valid (l_answer l) = false /\ l_exp_number l = 0).
    { unfold digits_scanned in Hscanned. cbv zeta in Hscanned.
      destruct (sign_refused sign ids point options); [discriminate |].
      destruct ((_ =? 0) || _); [discriminate |].
      injection Hscanned as <-. cbn. destruct point; repeat split. }
    destruct Hl as (Hlp & Hstart & Hcount & Hinv & Hen).
    pose proof (read_exponent_dangling cfg s (format options) (length cut) e
                  tail (l_exponent l) Hsci Hskip He Hnd) as Hexp.
    pose proof (read_exponent_at_end cfg cut (format options) (l_exponent l))
      as Hexpc.
    rewrite Hsci in Hexpc. cbn [andb] in Hexpc.
    assert (Hde : digits_end cfg s options = Some (length cut)).
    { unfold digits_end. rewrite Rs, Hlp. reflexivity. }
    split.
    + intros Hfixed. rewrite Hfixed in Hexp, Hexpc. cbn [negb] in Hexpc.
      assert (Hscan : scan_literal cfg s options = inr l).
      { unfold scan_literal. rewrite Rs, Hlp, Hexp, <- Hlp, <- Hen.
        destruct l. reflexivity. }
      assert (Hscanc : scan_literal cfg cut options = inr l).
      { unfold scan_literal. rewrite Rc, Hlp, Hexpc, <- Hlp, <- Hen.
        destruct l. reflexivity. }
      assert (Er : r = finish_literal cfg s options l).
      { subst r. unfold parse_number_string. rewrite Hscan. reflexivity. }
      assert (Hv : valid r =
                   negb (is_json_rules (rules options) &&
                         match ids with
                         | c :: _ :: _ => Byte.eqb c "0"
                         | _ => false
                         end)).
      { rewrite Er, (finish_literal_valid_iff cfg s options l Hinv).
        rewrite Hstart, Hcount, <- !andb_assoc.
        rewrite <- Hzero, <- !andb_assoc. reflexivity. }
      split; [| split].
      * intros _. rewrite Er. unfold parse_number_string. rewrite Hscanc.
        rewrite <- Hcut at 1. symmetry.
        apply (finish_literal_cut cfg s options l (length cut) e tail);
          assumption.
      * assert (Hacc : exists l0, inr l = inr l0 :> parsed_number_string + locals)
          by (eexists; reflexivity).
        apply Hiff in Hacc. destruct Hacc as (H1 & Hj).
        rewrite Hv. split.
        -- intros Hvalid. split; [exact H1 |]. intros Hjson.
           destruct (Hj Hjson) as (A & B). split; [exact A |].
           split; [exact B |]. intros d rest ->.
           rewrite Hjson in Hvalid. discriminate Hvalid.
        -- intros (_ & Hj'). destruct (rules options) eqn:Hr; [reflexivity |].
           destruct (Hj' eq_refl) as (_ & _ & Hz). cbn [is_json_rules andb].
           destruct ids as [| c [| d rest]]; try reflexivity.
           destruct (Byte.eqb c "0") eqn:Ec; [| reflexivity].
           apply byte_dec_bl in Ec. subst c. exfalso. apply (Hz d rest).
           reflexivity.
      * intros Hvalid. rewrite Er in *. rewrite <- Hlp.
        apply (finish_literal_valid cfg s options l Hinv Hvalid).
    + intros Hfixed. rewrite Hfixed in Hexp.
      subst r. unfold parse_number_string, scan_literal.
      rewrite Rs, Hlp, Hexp. exact Hinv.
Qed.

(** C6, amended, at "1.5e". *)
Lemma dangling_exponent_marker_witness :
  let s := list_byte_of_string "1.5e" in
  let r := parse_number_string default_config s
             (options_with general std_rules false) in
  r = parse_number_string default_config (list_byte_of_string "1.5")
        (options_with general std_rules false) /\
  valid r = true /\
  lastmatch r = Some 3%nat /\
  valid (parse_number_string default_config s
           (options_with scientific_only std_rules false)) = false.
Proof.
  pose proof (dangling_exponent_marker default_config [] ["1"%byte]
                (Some ["5"%byte]) "e"%byte []
                (options_with general std_rules false)) as Hgen.
  pose proof (dangling_exponent_marker default_config [] ["1"%byte]
                (Some ["5"%byte]) "e"%byte []
                (options_with scientific_only std_rules false)) as Hsci.
  assert (Hs : is_sign default_config []) by (left; reflexivity).
  assert (H1 : "."%byte <> "-"%byte) by discriminate.
  assert (H2 : "."%byte <> "+"%byte) by discriminate.
  assert (H3 : "."%byte <> "e"%byte) by discriminate.
  destruct (Hgen eq_refl Hs eq_refl eq_refl eq_refl H1 H2 H3
              (or_introl eq_refl) eq_refl) as [Hfixed _].
  destruct (Hsci eq_refl Hs eq_refl eq_refl eq_refl H1 H2 H3
              (or_introl eq_refl) eq_refl) as [_ Hinvalid].
  destruct (Hfixed eq_refl) as (E & Hv & Hm).
  assert (Hvalid : valid (parse_number_string default_config
                            (list_byte_of_string "1.5e")
                            (options_with general std_rules false)) = true).
  { apply Hv. split; [cbn; lia |]. discriminate. }
  split; [apply E; discriminate |]. split; [exact Hvalid |].
  split; [exact (Hm Hvalid) |].
  apply Hinvalid. reflexivity.
Defined.

(** "1.5e" with fixed and scientific notation allowed parses as 1.5. *)
Example dangling_marker_value :
  let r := parse_number_string default_config (list_byte_of_string "1.5e")
             (options_with general std_rules false) in
  valid r = true /\ lastmatch r = Some 3%nat /\ mantissa r = 15 /\
  exponent r = -1.
Proof. vm_compute. repeat split. Qed.

(** C6 as stated fails under the json rules: in "01e", with fixed and
    scientific notation allowed, the marker follows the digits and no digit
    follows the marker, and the scan is rejected for its leading zero. *)
Lemma dangling_marker_after_leading_zero :
  let s := list_byte_of_string "01e" in
  let options := options_with general json_rules false in
  scientific (format options) = true /\ fixed (format options) = true /\
  (exists l, read_digits default_config s options = inr l /\
             l_p l = 2%nat /\ l_digit_count l = 2) /\
  skipn 2 s = ["e"%byte] /\ exponent_digit_follows [] = false /\
  valid (parse_number_string default_config s options) = false.
Proof.
  vm_compute. repeat split. eexists. repeat split.
Qed.

(** Under the json rules the digits before a dangling marker are also
    refused, with fixed and scientific notation allowed, when a decimal point
    comes with a single digit (".5e", "1.e") or a sign is followed by the
    decimal point ("-.55e"); under the standard rules the same inputs are
    valid. *)
Example dangling_marker_refused_digits :
  let json := options_with general json_rules false in
  let std := options_with general std_rules false in
  let scan options s := valid (parse_number_string default_config s options) in
  scan json (list_byte_of_string ".5e") = false /\
  scan json (list_byte_of_string "1.e") = false /\
  scan json (list_byte_of_string "-.55e") = false /\
  scan std (list_byte_of_string ".5e") = true /\
  scan std (list_byte_of_string "1.e") = true /\
  scan std (list_byte_of_string "-.55e") = true.
Proof. vm_compute. repeat split. Qed.

(** ** A literal that begins with the decimal point *)

(** C10, amended.  An input that begins with an optional sign, the
    decimal-point character (which is neither a digit nor a sign) and at
    least one digit, the digits going on to the end of the input or to a byte
    that is no digit, with at most 19 digits after the leading zeros of that
    fraction, is accepted under the standard rules with fixed notation
    allowed, whatever follows the digits: the result is valid, the integer
    span is empty, the fraction span holds the digits, the mantissa is the
    value of the digits, and the exponent is minus their number plus the
    explicit exponent.  Unless the format allows scientific notation and an
    exponent part (a marker, an optional sign and a digit) follows the
    digits, the explicit exponent is zero and [lastmatch] is at the end of
    the digits. *)
Theorem leading_point_literal (cfg : config) (sign ds tail : list byte)
    (options : parse_options) :
  is_sign cfg sign ->
  is_ascii_digit (decimal_point options) = false ->
  decimal_point options <> "-"%byte -> decimal_point options <> "+"%byte ->
  ds <> [] -> forallb is_ascii_digit ds = true ->
  digit_run tail = [] ->
  (length (strip_zeros ds) <= 19)%nat ->
  rules options = std_rules -> fixed (format options) = true ->
  let s := sign ++ decimal_point options :: ds ++ tail in
  let r := parse_number_string cfg s options in
  valid r = true /\
  integer r = {| ptr := Some (length sign); len := 0 |} /\
  fraction r = {| ptr := Some (S (length sign)); len := length ds |} /\
  mantissa r = decimal ds 0 /\
  exponent r = - Z.of_nat (length ds) + explicit_exponent cfg s options /\
  too_many_digits r = false /\
  (exponent_part_follows (format options) tail = false ->
   explicit_exponent cfg s options = 0 /\
   lastmatch r = Some (S (length sign + length ds))).
Proof.
  intros Hsg Hdp Hm Hp Hne Hds Hrun Hsig Hstd Hfixed s r.
  assert (Htail : ends_digits (decimal_point options) (Some ds) tail).
  { destruct tail as [| c t]; [exact I |]. cbn [digit_run] in Hrun.
    split; [| discriminate].
    destruct (is_ascii_digit c); [discriminate Hrun | reflexivity]. }
  assert (Hts : @nil byte = [] -> Some ds = None ->
                forall c t, tail = c :: t -> c <> "-"%byte /\ c <> "+"%byte)
    by discriminate.
  change s with (sign ++ [] ++
                 point_part (decimal_point options) (Some ds) ++ tail) in *.
  destruct (literal_parts sign [] (Some ds) tail options eq_refl Hds Hdp Htail)
    as (Ei & Ept & Ef & Ee & Esk).
  pose proof (read_digits_parts cfg sign [] (Some ds) tail options Hsg eq_refl
                Hds Hdp Hm Hp Htail Hts) as Rd.
  cbv zeta in Ei, Ept, Ef, Ee, Esk.
  set (s0 := sign ++ [] ++
             point_part (decimal_point options) (Some ds) ++ tail) in *.
  assert (Hlen : length s0 = (S (length sign + length ds) + length tail)%nat).
  { subst s0. cbn [app point_part]. rewrite length_app. cbn [length].
    rewrite length_app. lia. }
  set (pe := (length s0 - length tail)%nat) in *.
  assert (Hpe : pe = S (length sign + length ds)) by (subst pe; lia).
  assert (Hnz : (1 <= length ds)%nat).
  { destruct ds; [congruence | cbn [length]; lia]. }
  assert (Hscanned : digits_scanned sign [] (Some ds) options =
    inr {| l_answer :=
             set_fraction
               (set_integer
                  (set_negative default_answer
                     match sign with c :: _ => Byte.eqb c "-" | [] => false end)
                  {| ptr := Some (length sign); len := 0 |})
               {| ptr := Some (S (length sign + 0)); len := length ds |};
           l_p := pe; l_i := accumulate ds 0;
           l_start_digits := length sign;
           l_end_of_integer_part := (length sign + 0)%nat;
           l_digit_count := Z.of_nat 0 + Z.of_nat (length ds);
           l_exponent := - Z.of_nat (length ds); l_exp_number := 0 |}).
  { unfold digits_scanned, sign_refused. cbv zeta. rewrite Hstd.
    cbn [is_json_rules andb digits_after_point length app].
    rewrite orb_false_r.
    replace (Z.of_nat 0 + Z.of_nat (length ds) =? 0) with false
      by (symmetry; apply Z.eqb_neq; lia).
    replace (length (sign ++ point_part (decimal_point options) (Some ds)))
      with pe
      by (rewrite Hpe, length_app; cbn [point_part length]; lia).
    destruct sign; reflexivity. }
  rewrite Hscanned in Rd.
  destruct (read_exponent_fixed cfg s0 (format options) pe
              (- Z.of_nat (length ds)) Hfixed ltac:(lia)) as (p' & en & Hexp).
  assert (Hscan : scan_literal cfg s0 options =
    inr {| l_answer :=
             set_fraction
               (set_integer
                  (set_negative default_answer
                     match sign with c :: _ => Byte.eqb c "-" | [] => false end)
                  {| ptr := Some (length sign); len := 0 |})
               {| ptr := Some (S (length sign + 0)); len := length ds |};
           l_p := p'; l_i := accumulate ds 0;
           l_start_digits := length sign;
           l_end_of_integer_part := (length sign + 0)%nat;
           l_digit_count := Z.of_nat 0 + Z.of_nat (length ds);
           l_exponent := - Z.of_nat (length ds) + en; l_exp_number := en |}).
  { unfold scan_literal. rewrite Rd.
    cbn [l_p l_exponent l_answer l_i l_start_digits l_end_of_integer_part
         l_digit_count].
    rewrite Hexp. reflexivity. }
  assert (Hexpl : explicit_exponent cfg s0 options = en).
  { unfold explicit_exponent. rewrite Hscan. reflexivity. }
  set (l := {| l_answer := _; l_p := p' |}) in Hscan.
  assert (Er : r = finish_literal cfg s0 options l).
  { subst r. unfold parse_number_string. rewrite Hscan. reflexivity. }
  assert (Hinv : valid (l_answer l) = false) by reflexivity.
  assert (Htoo0 : too_many_digits (l_answer l) = false) by reflexivity.
  assert (Hv : valid (finish_literal cfg s0 options l) = true).
  { rewrite finish_literal_valid_iff by exact Hinv. rewrite Hstd. reflexivity. }
  pose proof (finish_literal_valid cfg s0 options l Hinv Hv) as [Hlast Hflag].
  assert (Hp0 : (length sign <= length s0)%nat) by lia.
  assert (Ht : too_many_digits (finish_literal cfg s0 options l) = false).
  { rewrite Hflag. cbv zeta. rewrite Htoo0, Hstd. cbn [is_json_rules andb].
    destruct (19 <? l_digit_count l); [| reflexivity].
    change (l_start_digits l) with (length sign).
    change (l_digit_count l) with (Z.of_nat 0 + Z.of_nat (length ds)).
    destruct (significant_count s0 options (length sign) Hp0 Hdp)
      as [E | [_ E]]; cbv zeta in E; rewrite Ei, Ef in E;
      cbn [digits_after_point app length] in E;
      apply Z.ltb_ge; lia. }
  destruct (finish_literal_plain cfg s0 options l Hinv Htoo0 Hv Ht)
    as (Em & Eex & _).
  pose proof (finish_literal_spans cfg s0 options l) as [Espi Espf].
  rewrite Er.
  split; [exact Hv |].
  split; [rewrite Espi; reflexivity |].
  split; [rewrite Espf; cbn; rewrite Nat.add_0_r; reflexivity |].
  split; [rewrite Em; apply accumulate_significant; assumption |].
  split; [rewrite Eex, Hexpl; reflexivity |].
  split; [exact Ht |].
  intros Hnone.
  pose proof (read_exponent_plain cfg s0 (format options) pe tail
                (- Z.of_nat (length ds)) Hfixed ltac:(lia) Esk Hnone) as Hplain.
  rewrite Hplain in Hexp. injection Hexp as Hp' _ Hen.
  split; [rewrite Hexpl; symmetry; exact Hen |].
  rewrite Hlast. change (l_p l) with p'. rewrite <- Hp', Hpe. reflexivity.
Qed.

(** C10, amended, at ".5". *)
Lemma leading_point_literal_witness :
  let options := options_with general std_rules false in
  let r := parse_number_string default_config (list_byte_of_string ".5")
             options in
  valid r = true /\
  integer r = {| ptr := Some 0%nat; len := 0 |} /\
  fraction r = {| ptr := Some 1%nat; len := 1 |} /\
  mantissa r = 5 /\ exponent r = -1 /\ too_many_digits r = false /\
  lastmatch r = Some 2%nat.
Proof.
  pose proof (leading_point_literal default_config [] ["5"%byte] []
                (options_with general std_rules false)) as H.
  assert (Hs : is_sign default_config []) by (left; reflexivity).
  assert (H1 : "."%byte <> "-"%byte) by discriminate.
  assert (H2 : "."%byte <> "+"%byte) by discriminate.
  assert (H3 : ["5"%byte] <> []) by discriminate.
  assert (H4 : (length (strip_zeros ["5"%byte]) <= 19)%nat) by (simpl; lia).
  destruct (H Hs eq_refl H1 H2 H3 eq_refl eq_refl H4 eq_refl eq_refl)
    as (Hv & Hi & Hf & Hm & He & Ht & Hl).
  destruct (Hl eq_refl) as [_ Hlast].
  repeat split; assumption.
Defined.

(** C10 as stated fails on a fraction of 20 digits: for
    ".12345678901234567890" the mantissa is the value of the first 19 digits
    and the exponent is -19. *)
Lemma twenty_fraction_digits_truncated :
  let ds := list_byte_of_string "12345678901234567890" in
  let r := parse_number_string default_config ("."%byte :: ds)
             (options_with general std_rules false) in
  valid r = true /\ decimal ds 0 = 12345678901234567890 /\
  mantissa r = 1234567890123456789 /\ mantissa r <> decimal ds 0 /\
  exponent r = -19 /\ exponent r <> - Z.of_nat (length ds).
Proof. vm_compute. repeat split; discriminate. Qed.

(** ".5e3" with fixed and scientific notation allowed: the exponent part
    that follows the fraction digit is read, and the exponent is -1 + 3;
    with fixed notation only it is left unread. *)
Example leading_point_with_exponent :
  let s := list_byte_of_string ".5e3" in
  let r := parse_number_string default_config s
             (options_with general std_rules false) in
  let r' := parse_number_string default_config s
              (options_with fixed_only std_rules false) in
  valid r = true /\ mantissa r = 5 /\ exponent r = 2 /\
  explicit_exponent default_config s (options_with general std_rules false)
    = 3 /\
  lastmatch r = Some 4%nat /\
  valid r' = true /\ mantissa r' = 5 /\ exponent r' = -1 /\
  lastmatch r' = Some 2%nat.
Proof. vm_compute. repeat split. Qed.
